(** * Groqchat: conversation controller, request assembly and narration

    A shallow embedding of the two variants of the chat front end:

    - [Simple]: the plain chat client (one implicit phase, generic system
      prompt, 1024 output tokens);
    - [Phase]: the HTF instruction builder (topic setting followed by a
      discussion phase, templated system prompt, 2048 output tokens).

    JavaScript strings are sequences of UTF-16 code units.  The global
    [state] object, the DOM elements the scripts read and write, the
    local storage and the effects on the outside (alerts, [fetch] calls,
    speech synthesis calls) are gathered in one record, [world], that the
    handlers thread through a small state-and-exception monad.  An
    [async] handler is cut at its [await]: the part before it runs when
    the event fires, the part after it runs when the environment settles
    the request, and other events may happen in between. *)

From Stdlib.Strings Require Import String Byte.
From Stdlib Require Import List NArith ZArith QArith_base Bool Lia.
From Equations Require Import Equations.
Import ListNotations.
Close Scope Q_scope.

Set Implicit Arguments.

(** ** JavaScript strings *)

(** A UTF-16 code unit. *)
Definition char16 := N.

Definition jsstring := list char16.

(** The bytes of a literal of this file (UTF-8) as numbers. *)
Definition bytes_of (s : String.string) : list N :=
  map (fun b => N.of_nat (Byte.to_nat b)) (String.list_byte_of_string s).

(** UTF-8 decoding of well-formed input into code points. *)
Fixpoint code_points (bs : list N) : list N :=
  match bs with
  | [] => []
  | b0 :: t0 =>
      if (b0 <? 0x80)%N then b0 :: code_points t0
      else
        match t0 with
        | [] => []
        | b1 :: t1 =>
            if (b0 <? 0xE0)%N
            then ((b0 mod 0x20) * 0x40 + b1 mod 0x40)%N :: code_points t1
            else
              match t1 with
              | [] => []
              | b2 :: t2 =>
                  if (b0 <? 0xF0)%N
                  then ((b0 mod 0x10) * 0x1000 + (b1 mod 0x40) * 0x40
                        + b2 mod 0x40)%N :: code_points t2
                  else
                    match t2 with
                    | [] => []
                    | b3 :: t3 =>
                        ((b0 mod 0x08) * 0x40000 + (b1 mod 0x40) * 0x1000
                         + (b2 mod 0x40) * 0x40 + b3 mod 0x40)%N
                          :: code_points t3
                    end
              end
        end
  end.

(** UTF-16 encoding of one code point. *)
Definition code_units (cp : N) : jsstring :=
  if (cp <? 0x10000)%N then [cp]
  else [(0xD800 + (cp - 0x10000) / 0x400)%N;
        (0xDC00 + (cp - 0x10000) mod 0x400)%N].

(** The JavaScript string written by a literal of this file. *)
Definition js (s : String.string) : jsstring :=
  flat_map code_units (code_points (bytes_of s)).

Arguments js s : simpl never.

(** [a === b] on strings. *)
Definition jsstring_eqb (a b : jsstring) : bool :=
  if list_eq_dec N.eq_dec a b then true else false.

(** [!s] for a string [s]. *)
Definition is_empty (s : jsstring) : bool :=
  match s with [] => true | _ :: _ => false end.

(** WhiteSpace and LineTerminator code points, the ones
    [String.prototype.trim] strips. *)
Definition isWhiteSpace (c : char16) : bool :=
  ((9 <=? c) && (c <=? 13) || (c =? 0x20) || (c =? 0xA0) || (c =? 0x1680)
   || (0x2000 <=? c) && (c <=? 0x200A) || (c =? 0x2028) || (c =? 0x2029)
   || (c =? 0x202F) || (c =? 0x205F) || (c =? 0x3000) || (c =? 0xFEFF))%N.

Fixpoint trimStart (s : jsstring) : jsstring :=
  match s with
  | [] => []
  | c :: t => if isWhiteSpace c then trimStart t else s
  end.

Definition trimEnd (s : jsstring) : jsstring := rev (trimStart (rev s)).

(** [s.trim()]. *)
Definition trim (s : jsstring) : jsstring := trimEnd (trimStart s).

Arguments trim s : simpl never.

Example js_ascii : js "Hi" = [72; 105]%N.
Proof. reflexivity. Qed.

Example js_kanji : js "題目" = [0x984C; 0x76EE]%N.
Proof. reflexivity. Qed.

Example trim_example : trim (js "  a b
 ") = js "a b".
Proof. reflexivity. Qed.

(** ** JavaScript values, exceptions and the handler monad *)

(** The values the scripts meet: what [JSON.parse] builds, and [undefined]
    (the result of reading an absent property).  A number is kept as the
    rational value of the parsed double; an object as the list of its own
    properties (a key is looked up from the front). *)
#[warnings="-register-all"]
Inductive jsval : Type :=
| VUndefined
| VNull
| VBool (b : bool)
| VNum (q : Q)
| VStr (s : jsstring)
| VArr (items : list jsval)
| VObj (props : list (jsstring * jsval)).

(** ToBoolean. *)
Definition truthy (v : jsval) : bool :=
  match v with
  | VUndefined | VNull => false
  | VBool b => b
  | VNum q => negb (Qeq_bool q (Qmake 0 1))
  | VStr s => negb (is_empty s)
  | VArr _ | VObj _ => true
  end.

(** The property names the scripts read from a response. *)
Inductive prop_key := p_choices | p_0 | p_message | p_content | p_error.

Definition key_name (k : prop_key) : jsstring :=
  match k with
  | p_choices => js "choices"
  | p_0 => js "0"
  | p_message => js "message"
  | p_content => js "content"
  | p_error => js "error"
  end.

(** The TypeErrors the engine raises in these scripts. *)
Inductive type_error :=
| ReadPropertyOf (base : jsval) (property : jsstring)
| NotAFunction (callee : jsval) (method : jsstring).

(** A thrown value.  All of them are error objects: [Error_ x] is
    [new Error(x)], [HostError m] a rejection of [fetch] or of
    [response.json()] whose message is [m]. *)
Inductive js_error :=
| Error_ (x : jsval)
| TypeError_ (t : type_error)
| HostError (message : jsstring).

(** What the engine contributes to [error.message]: the text of its
    TypeErrors, and the message [new Error(x)] gets from a value [x] that
    is not a string (its string conversion). *)
Record engine := {
  TypeError_text : type_error -> jsstring;
  ToString_text : jsval -> jsstring
}.

(** [error.message]. *)
Definition message_of (E : engine) (e : js_error) : jsstring :=
  match e with
  | Error_ (VStr s) => s
  | Error_ x => ToString_text E x
  | TypeError_ t => TypeError_text E t
  | HostError m => m
  end.

(** The outcome of running a piece of code: a value or an exception. *)
Inductive completion (A : Type) : Type :=
| Normal (a : A)
| Throw (e : js_error).

Arguments Normal {A} a.
Arguments Throw {A} e.

(** Handlers over a world [W]: the world is kept when an exception is
    raised, as the mutations made before a [throw] are. *)
Definition M (W A : Type) : Type := W -> completion A * W.

Definition ret {W A} (a : A) : M W A := fun w => (Normal a, w).

Definition bind {W A B} (m : M W A) (k : A -> M W B) : M W B :=
  fun w =>
    match m w with
    | (Normal a, w') => k a w'
    | (Throw e, w') => (Throw e, w')
    end.

Definition throw {W A} (e : js_error) : M W A := fun w => (Throw e, w).

(** [try { m } catch (error) { h error }]. *)
Definition try_catch {W A} (m : M W A) (h : js_error -> M W A) : M W A :=
  fun w =>
    match m w with
    | (Normal a, w') => (Normal a, w')
    | (Throw e, w') => h e w'
    end.

Definition gets {W A} (f : W -> A) : M W A := fun w => (Normal (f w), w).

Definition modify {W} (f : W -> W) : M W unit := fun w => (Normal tt, f w).

Definition lift {W A} (c : completion A) : M W A := fun w => (c, w).

(** An event handler called by the browser: an exception that reaches the
    top is reported on the console and the world stays as it is then. *)
Definition run_handler {W A} (m : M W A) (w : W) : W := snd (m w).

Declare Scope js_scope.
Delimit Scope js_scope with js.
Notation "x <- m ;; k" := (bind m (fun x => k))
  (at level 61, m at next level, right associativity) : js_scope.
Notation "m ;; k" := (bind m (fun _ => k))
  (at level 61, right associativity) : js_scope.
Notation "'when' b 'then_' m" := (if b then m else ret tt)
  (at level 60) : js_scope.
Open Scope js_scope.

(** [v.k] and [v[0]] on the values above. *)
Definition get (v : jsval) (k : prop_key) : completion jsval :=
  match v with
  | VUndefined | VNull => Throw (TypeError_ (ReadPropertyOf v (key_name k)))
  | VBool _ | VNum _ => Normal VUndefined
  | VStr s =>
      match k, s with
      | p_0, c :: _ => Normal (VStr [c])
      | _, _ => Normal VUndefined
      end
  | VArr items =>
      match k, items with
      | p_0, x :: _ => Normal x
      | _, _ => Normal VUndefined
      end
  | VObj props =>
      match find (fun p => jsstring_eqb (fst p) (key_name k)) props with
      | Some p => Normal (snd p)
      | None => Normal VUndefined
      end
  end.

Definition bindc {A B} (c : completion A) (k : A -> completion B)
  : completion B :=
  match c with
  | Normal a => k a
  | Throw e => Throw e
  end.

(** ** Messages, requests and responses *)

Inductive role := system | user | assistant.

(** [{ role, content }].  The content is whatever the caller passed: a
    string for every user entry, the value read from the response for an
    assistant entry. *)
Record message := { msg_role : role; msg_content : jsval }.

(** The body handed to [JSON.stringify]. *)
Record request_body := {
  req_model : jsstring;
  req_messages : list message;
  req_temperature : Q;
  req_max_tokens : Z
}.

(** One call of [fetch]: the bearer credential and the body. *)
Record fetch_call := {
  call_url : jsstring;
  call_bearer : jsstring;
  call_body : request_body
}.

(** What [await response.json()] yields. *)
Inductive body_outcome :=
| JsonRejected (message : jsstring)
| JsonParsed (v : jsval).

(** What the environment answers to one [fetch]: a rejection, or a
    response with its [ok] flag and body. *)
Inductive fetch_outcome :=
| FetchRejected (message : jsstring)
| FetchResponse (ok : bool) (body : body_outcome).

Definition GROQ_API_URL : jsstring :=
  js "https://api.groq.com/openai/v1/chat/completions".

(** The part of [fetchGroqCompletion] after [await fetch(...)], the same
    text in both scripts:
<<
    if (!response.ok) {
        const err = await response.json();
        throw new Error(err.error?.message || 'API Request Failed');
    }
    const data = await response.json();
    return data.choices[0].message.content;
>> *)
Definition fetchGroqCompletion_result (o : fetch_outcome) : completion jsval :=
  match o with
  | FetchRejected m => Throw (HostError m)
  | FetchResponse false (JsonRejected m) => Throw (HostError m)
  | FetchResponse false (JsonParsed err) =>
      bindc (get err p_error) (fun e =>
      bindc (match e with
             | VUndefined | VNull => Normal VUndefined
             | _ => get e p_message
             end) (fun m =>
      Throw (Error_ (if truthy m then m else VStr (js "API Request Failed")))))
  | FetchResponse true (JsonRejected m) => Throw (HostError m)
  | FetchResponse true (JsonParsed data) =>
      bindc (get data p_choices) (fun choices =>
      bindc (get choices p_0) (fun choice =>
      bindc (get choice p_message) (fun m =>
      get m p_content)))
  end.

(** ** Narration: cleaning the text and choosing the language *)

Fixpoint starts_with (p s : jsstring) : bool :=
  match p, s with
  | [], _ => true
  | _ :: _, [] => false
  | a :: p', b :: s' => (a =? b)%N && starts_with p' s'
  end.

Definition think_open : jsstring := js "<think>".
Definition think_close : jsstring := js "</think>".

(** What follows the first [</think>] of [s], if there is one: the lazy
    [[\s\S]*?] takes the shortest run that lets the closing tag match. *)
Fixpoint after_close (s : jsstring) : option jsstring :=
  if starts_with think_close s then Some (skipn (length think_close) s)
  else match s with
       | [] => None
       | _ :: t => after_close t
       end.

(** A match of [/<think>[\s\S]*?<\/think>/] at the very start of [s]:
    what follows the match. *)
Definition match_think (s : jsstring) : option jsstring :=
  if starts_with think_open s
  then after_close (skipn (length think_open) s)
  else None.

Lemma starts_with_split p s :
  starts_with p s = true -> s = p ++ skipn (length p) s.
Proof.
  revert s. induction p as [|a p IH]; intros [|b s] H; simpl in *;
    try reflexivity; try discriminate.
  apply andb_prop in H. destruct H as [Hab H].
  apply N.eqb_eq in Hab. subst b. f_equal. apply IH, H.
Qed.

Lemma after_close_split s r :
  after_close s = Some r -> exists a, s = a ++ think_close ++ r.
Proof.
  revert r. induction s as [|c t IH]; intros r.
  - discriminate.
  - unfold after_close; fold after_close.
    destruct (starts_with think_close (c :: t)) eqn:Hs.
    + intros Hr. exists []. apply starts_with_split in Hs.
      assert (r = skipn (length think_close) (c :: t)) as -> by congruence.
      exact Hs.
    + intros H. destruct (IH _ H) as [a ->]. exists (c :: a). reflexivity.
Qed.

Lemma match_think_shorter s r :
  match_think s = Some r -> length r < length s.
Proof.
  unfold match_think. destruct (starts_with think_open s) eqn:Hs;
    [|discriminate].
  intros H. apply after_close_split in H. destruct H as [a Ha].
  apply starts_with_split in Hs. rewrite Ha in Hs. rewrite Hs.
  rewrite !length_app. change (length think_open) with 7. lia.
Qed.

(** [s.replace(/<think>[\s\S]*?<\/think>/g, '')]: scanning from the left,
    a match is dropped and the scan goes on after it; where there is no
    match the code unit is kept. *)
Equations? replace_think (s : jsstring) : jsstring by wf (length s) lt :=
  replace_think [] := [];
  replace_think (c :: t) with Logic.inspect (match_think (c :: t)) := {
    | exist _ (Some r) H => replace_think r;
    | exist _ None _ => c :: replace_think t }.
Proof.
  apply match_think_shorter in H. exact H.
Qed.

(** The class [[*#`]]. *)
Definition isMarkdownMarker (c : char16) : bool :=
  ((c =? 42) || (c =? 35) || (c =? 96))%N.

(** [s.replace(/[*#`]/g, '')]. *)
Definition replace_markdown (s : jsstring) : jsstring :=
  filter (fun c => negb (isMarkdownMarker c)) s.

(** The class [[\u3040-\u309F\u30A0-\u30FF]]. *)
Definition isKana (c : char16) : bool :=
  ((0x3040 <=? c) && (c <=? 0x309F) || (0x30A0 <=? c) && (c <=? 0x30FF))%N.

(** The two ranges, Hiragana and Katakana. *)
Definition kana (c : char16) : Prop :=
  (0x3040 <= c <= 0x309F)%N \/ (0x30A0 <= c <= 0x30FF)%N.

(** [/[\u3040-\u309F\u30A0-\u30FF]/.test(s)]. *)
Definition hasJapanese (s : jsstring) : bool := existsb isKana s.

Definition lang_of (s : jsstring) : jsstring :=
  if hasJapanese s then js "ja-JP" else js "en-US".

(** One call on [window.speechSynthesis]. *)
Inductive speech_call :=
| SpeechCancel
| SpeechSpeak (text : jsstring) (lang : jsstring).

Example replace_think_example :
  replace_think (js "<think>secret</think>Hello") = js "Hello".
Proof. reflexivity. Qed.

Example replace_think_unclosed :
  replace_think (js "a<think>b") = js "a<think>b".
Proof. reflexivity. Qed.

(** [text.replace(...)] takes its receiver to be a string: on any other
    value the call raises a TypeError ([undefined] and [null] have no
    properties, the other values no [replace] method). *)
Definition replace_receiver (text : jsval) : completion jsstring :=
  match text with
  | VStr s => Normal s
  | VUndefined | VNull => Throw (TypeError_ (ReadPropertyOf text (js "replace")))
  | _ => Throw (TypeError_ (NotAFunction text (js "replace")))
  end.

(** ** The page: chat container, local storage, pending requests *)

(** A child of [elements.chatContainer]: a message [div] (its class is
    [ai], [system] or [user] after the role, its text the content, and it
    carries the button that narrates the content again), or the
    [loading-indicator]. *)
Inductive node :=
| MessageDiv (r : role) (content : jsval)
| LoadingDiv.

(** [document.getElementById('loading-indicator')] followed by
    [remove()]: the first such element goes. *)
Fixpoint remove_first_loading (c : list node) : list node :=
  match c with
  | [] => []
  | LoadingDiv :: t => t
  | n :: t => n :: remove_first_loading t
  end.

(** The two entries of [localStorage] the scripts use. *)
Record localStorage := {
  groq_api_key : option jsstring;
  groq_model : option jsstring
}.

(** An entry of the model catalogue. *)
Record model_descriptor := { id : jsstring; name : jsstring }.

Definition MODELS : list model_descriptor :=
  [ {| id := js "llama-3.3-70b-versatile"; name := js "Llama 3.3 70B" |};
    {| id := js "llama-3.1-8b-instant"; name := js "Llama 3.1 8B" |};
    {| id := js "deepseek-r1-distill-llama-70b"; name := js "DeepSeek R1 70B" |};
    {| id := js "deepseek-r1-distill-qwen-32b"; name := js "DeepSeek R1 32B" |} ].

(** [MODELS[0].id]. *)
Definition default_model : jsstring :=
  match MODELS with
  | m :: _ => id m
  | [] => []
  end.

(** [MODELS.some(m => m.id === x)]. *)
Definition known_model (x : jsstring) : bool :=
  existsb (fun m => jsstring_eqb (id m) x) MODELS.

Arguments known_model x : simpl never.

(** The messages shown in the chat container, in order. *)
Fixpoint shown (c : list node) : list message :=
  match c with
  | [] => []
  | MessageDiv r content :: t =>
      {| msg_role := r; msg_content := content |} :: shown t
  | LoadingDiv :: t => shown t
  end.

(** [l] without its [i]-th element. *)
Fixpoint remove_nth {A} (i : nat) (l : list A) : list A :=
  match i, l with
  | _, [] => []
  | O, _ :: t => t
  | S j, x :: t => x :: remove_nth j t
  end.

Definition count_role (r : role) (l : list message) : nat :=
  length (filter (fun m => match msg_role m, r with
                           | system, system | user, user
                           | assistant, assistant => true
                           | _, _ => false
                           end) l).

(** ** The simple chat client *)

Module Simple.

(** The global [state] object. *)
Record state := {
  apiKey : jsstring;
  model : jsstring;
  history : list message;
  autoSpeak : bool;
  isSpeaking : bool
}.

(** [state], the values of the two input elements, the chat container,
    the local storage, and the trace of what went out: alerts, [fetch]
    calls, calls on the speech synthesis; [pending] counts the runs of
    [handleSend] suspended at their [await]. *)
Record world := {
  st : state;
  userInput : jsstring;
  apiKeyInput : jsstring;
  chatContainer : list node;
  storage : localStorage;
  alerts : list jsstring;
  fetches : list fetch_call;
  pending : nat;
  speech : list speech_call
}.

Definition set_apiKey (k : jsstring) (s : state) : state :=
  {| apiKey := k; model := model s; history := history s;
     autoSpeak := autoSpeak s; isSpeaking := isSpeaking s |}.

Definition set_model (m : jsstring) (s : state) : state :=
  {| apiKey := apiKey s; model := m; history := history s;
     autoSpeak := autoSpeak s; isSpeaking := isSpeaking s |}.

Definition set_history (h : list message) (s : state) : state :=
  {| apiKey := apiKey s; model := model s; history := h;
     autoSpeak := autoSpeak s; isSpeaking := isSpeaking s |}.

Definition set_autoSpeak (b : bool) (s : state) : state :=
  {| apiKey := apiKey s; model := model s; history := history s;
     autoSpeak := b; isSpeaking := isSpeaking s |}.

Definition set_isSpeaking (b : bool) (s : state) : state :=
  {| apiKey := apiKey s; model := model s; history := history s;
     autoSpeak := autoSpeak s; isSpeaking := b |}.

Definition upd_state (f : state -> state) (w : world) : world :=
  {| st := f (st w); userInput := userInput w; apiKeyInput := apiKeyInput w;
     chatContainer := chatContainer w; storage := storage w;
     alerts := alerts w; fetches := fetches w; pending := pending w;
     speech := speech w |}.

Definition set_userInput (v : jsstring) (w : world) : world :=
  {| st := st w; userInput := v; apiKeyInput := apiKeyInput w;
     chatContainer := chatContainer w; storage := storage w;
     alerts := alerts w; fetches := fetches w; pending := pending w;
     speech := speech w |}.

Definition set_apiKeyInput (v : jsstring) (w : world) : world :=
  {| st := st w; userInput := userInput w; apiKeyInput := v;
     chatContainer := chatContainer w; storage := storage w;
     alerts := alerts w; fetches := fetches w; pending := pending w;
     speech := speech w |}.

Definition upd_chat (f : list node -> list node) (w : world) : world :=
  {| st := st w; userInput := userInput w; apiKeyInput := apiKeyInput w;
     chatContainer := f (chatContainer w); storage := storage w;
     alerts := alerts w; fetches := fetches w; pending := pending w;
     speech := speech w |}.

Definition set_storage (l : localStorage) (w : world) : world :=
  {| st := st w; userInput := userInput w; apiKeyInput := apiKeyInput w;
     chatContainer := chatContainer w; storage := l;
     alerts := alerts w; fetches := fetches w; pending := pending w;
     speech := speech w |}.

Definition push_alert (a : jsstring) (w : world) : world :=
  {| st := st w; userInput := userInput w; apiKeyInput := apiKeyInput w;
     chatContainer := chatContainer w; storage := storage w;
     alerts := alerts w ++ [a]; fetches := fetches w; pending := pending w;
     speech := speech w |}.

Definition push_fetch (c : fetch_call) (w : world) : world :=
  {| st := st w; userInput := userInput w; apiKeyInput := apiKeyInput w;
     chatContainer := chatContainer w; storage := storage w;
     alerts := alerts w; fetches := fetches w ++ [c]; pending := pending w;
     speech := speech w |}.

Definition set_pending (n : nat) (w : world) : world :=
  {| st := st w; userInput := userInput w; apiKeyInput := apiKeyInput w;
     chatContainer := chatContainer w; storage := storage w;
     alerts := alerts w; fetches := fetches w; pending := n;
     speech := speech w |}.

Definition push_speech (c : speech_call) (w : world) : world :=
  {| st := st w; userInput := userInput w; apiKeyInput := apiKeyInput w;
     chatContainer := chatContainer w; storage := storage w;
     alerts := alerts w; fetches := fetches w; pending := pending w;
     speech := speech w ++ [c] |}.

Definition alert (a : jsstring) : M world unit := modify (push_alert a).

(** [state.history.push({ role, content })]. *)
Definition addMessageToHistory (r : role) (content : jsval) : M world unit :=
  modify (upd_state (fun s =>
    set_history (history s ++ [{| msg_role := r; msg_content := content |}]) s)).

Definition renderMessage (r : role) (content : jsval) : M world unit :=
  modify (upd_chat (fun c => c ++ [MessageDiv r content])).

Definition showLoading : M world unit :=
  modify (upd_chat (fun c => c ++ [LoadingDiv])).

Definition removeLoading : M world unit :=
  modify (upd_chat remove_first_loading).

(** The utterance is created with rate, pitch and volume 1.0 and with
    the three callbacks that the events [utterance_onstart],
    [utterance_onend] and [utterance_onerror] below run. *)
Definition speakText (text : jsval) : M world unit :=
  modify (push_speech SpeechCancel) ;;
  s <- lift (replace_receiver text) ;;
  let cleanText := replace_markdown s in
  modify (push_speech (SpeechSpeak cleanText (lang_of cleanText))).

Definition updateStopButton : M world unit := ret tt.

Definition stopSpeaking : M world unit :=
  modify (push_speech SpeechCancel) ;;
  modify (upd_state (set_isSpeaking false)) ;;
  updateStopButton.

Definition saveApiKey : M world unit :=
  key <- gets (fun w => trim (apiKeyInput w)) ;;
  if is_empty key then alert (js "Please enter a valid API Key.")
  else
    modify (upd_state (set_apiKey key)) ;;
    modify (fun w => set_storage {| groq_api_key := Some key;
                                    groq_model := groq_model (storage w) |} w) ;;
    alert (js "API Key saved locally.").

Definition system_prompt : jsstring :=
  js "You are a helpful AI assistant. Answer concisely and clearly.".

(** The messages [fetchGroqCompletion] sends. *)
Definition request_messages (s : state) : list message :=
  {| msg_role := system; msg_content := VStr system_prompt |} :: history s.

(** The call [fetchGroqCompletion] makes, from the state it reads. *)
Definition fetchGroqCompletion_call (s : state) : fetch_call :=
  {| call_url := GROQ_API_URL;
     call_bearer := apiKey s;
     call_body := {| req_model := model s;
                     req_messages := request_messages s;
                     req_temperature := Qmake 7 10;
                     req_max_tokens := 1024 |} |}.

(** [fetchGroqCompletion()] up to [await fetch(...)]. *)
Definition fetchGroqCompletion_start : M world unit :=
  modify (fun w => push_fetch (fetchGroqCompletion_call (st w)) w).

(** The handler suspends at its [await]. *)
Definition await : M world unit :=
  modify (fun w => set_pending (S (pending w)) w).

(** [handleSend], up to the [await]. *)
Definition handleSend : M world unit :=
  text <- gets (fun w => trim (userInput w)) ;;
  if is_empty text then ret tt
  else
    key <- gets (fun w => apiKey (st w)) ;;
    if is_empty key then alert (js "Please set your Groq API Key first.")
    else
      modify (set_userInput []) ;;
      addMessageToHistory user (VStr text) ;;
      renderMessage user (VStr text) ;;
      auto <- gets (fun w => autoSpeak (st w)) ;;
      (when auto then_ speakText (VStr text)) ;;
      showLoading ;;
      fetchGroqCompletion_start ;;
      await.

Section Engine.

Variable E : engine.

(** [handleSend], from the [await] on, once the request is settled with
    outcome [o]. *)
Definition handleSend_resume (o : fetch_outcome) : M world unit :=
  try_catch
    (responseText <- lift (fetchGroqCompletion_result o) ;;
     removeLoading ;;
     addMessageToHistory assistant responseText ;;
     renderMessage assistant responseText ;;
     auto <- gets (fun w => autoSpeak (st w)) ;;
     when auto then_ speakText responseText)
    (fun error =>
       removeLoading ;;
       renderMessage system (VStr (js "Error: " ++ message_of E error))).

(** What can happen to the page. *)
Inductive event :=
| input_userInput (value : jsstring)
| input_apiKeyInput (value : jsstring)
| click_saveKeyBtn
| keydown_Enter_apiKeyInput
| change_modelSelect (option_index : nat)
| change_autoSpeakToggle (checked : bool)
| click_stopSpeechBtn
| click_sendBtn
| keydown_Enter_userInput
| click_speakBtn (child_index : nat)
| utterance_onstart
| utterance_onend
| utterance_onerror
| settle (o : fetch_outcome).

Definition has_spoken (w : world) : bool :=
  existsb (fun c => match c with SpeechSpeak _ _ => true | _ => false end)
          (speech w).

(** One event: [None] when it cannot happen in [w]. *)
Definition step (w : world) (e : event) : option world :=
  match e with
  | input_userInput v => Some (set_userInput v w)
  | input_apiKeyInput v => Some (set_apiKeyInput v w)
  | click_saveKeyBtn | keydown_Enter_apiKeyInput =>
      Some (run_handler saveApiKey w)
  | change_modelSelect i =>
      match nth_error MODELS i with
      | Some m =>
          Some (set_storage {| groq_api_key := groq_api_key (storage w);
                               groq_model := Some (id m) |}
                  (upd_state (set_model (id m)) w))
      | None => None
      end
  | change_autoSpeakToggle b => Some (upd_state (set_autoSpeak b) w)
  | click_stopSpeechBtn => Some (run_handler stopSpeaking w)
  | click_sendBtn | keydown_Enter_userInput => Some (run_handler handleSend w)
  | click_speakBtn i =>
      match nth_error (chatContainer w) i with
      | Some (MessageDiv _ content) => Some (run_handler (speakText content) w)
      | _ => None
      end
  | utterance_onstart =>
      if has_spoken w then Some (upd_state (set_isSpeaking true) w) else None
  | utterance_onend | utterance_onerror =>
      if has_spoken w then Some (upd_state (set_isSpeaking false) w) else None
  | settle o =>
      match pending w with
      | O => None
      | S n => Some (run_handler (handleSend_resume o) (set_pending n w))
      end
  end.

(** [init()] on a page whose local storage holds [ls]. *)
Definition init (ls : localStorage) : world :=
  let key := match groq_api_key ls with
             | Some k => if is_empty k then None else Some k
             | None => None
             end in
  let saved := match groq_model ls with
               | Some m => if is_empty m then None
                           else if known_model m then Some m else None
               | None => None
               end in
  {| st := {| apiKey := match key with Some k => k | None => [] end;
              model := match saved with Some m => m | None => default_model end;
              history := [];
              autoSpeak := true;
              isSpeaking := false |};
     userInput := [];
     apiKeyInput := match key with Some k => k | None => [] end;
     chatContainer := [];
     storage := ls;
     alerts := [];
     fetches := [];
     pending := 0;
     speech := [] |}.

(** The worlds a session goes through. *)
Inductive reachable : world -> Prop :=
| reachable_init ls : reachable (init ls)
| reachable_step w e w' :
    reachable w -> step w e = Some w' -> reachable w'.

Fixpoint run (w : world) (es : list event) : option world :=
  match es with
  | [] => Some w
  | e :: es' =>
      match step w e with
      | Some w' => run w' es'
      | None => None
      end
  end.

(** One whole turn: the text is typed, sent, and the request settles
    with [o] before anything else happens. *)
Definition submit (text : jsstring) (o : fetch_outcome) (w : world)
  : option world :=
  run w [input_userInput text; click_sendBtn; settle o].

End Engine.

End Simple.

(** ** The HTF instruction builder *)

Module Phase.

(** The grammar the assistant is taught. *)
Definition HTF_GRAMMAR : jsstring := js "
## HTF Grammar Definition (Holonic Text Format)
- Format: [KEY: Value {Attribute}]
- Hierarchy: 2つのスペースによるインデントで継承を示す。
- Layers:
  1. KERNEL: @GLOBAL (不変の法則)
  2. SCOPE: [ORDER], [AESTHETIC] (目的と美学)
  3. ENVIRONMENT: [WORLD_SETTING], [LAW] (環境と制約)
  4. ENTITY: [SUBJECT], [CLASS], [FUNCTION] (個体と機能)
  5. EVENT: [ACTION], [PHASE] (時間的秩序)
- Reference: &KEY で他のホロンを参照。
- Goal: 与えられた題目に対し、この文法を用いて「認知の枠組み（インストラクション）」を構築すること。
".

Inductive phase := TOPIC_SETTING | HTF_DISCUSSION | FINAL_RESULT.

(** The global [state] object. *)
Record state := {
  apiKey : jsstring;
  model : jsstring;
  phase_ : phase;
  topic : jsstring;
  currentHTF : jsstring;
  history : list message;
  autoSpeak : bool;
  isSpeaking : bool
}.

(** Which handler is suspended at an [await]. *)
Inductive awaiting := in_handleSend | in_handleDiscussionStart.

(** [state], the values of the input elements, the topic display, the
    chat container, the local storage, and the trace of what went out:
    alerts, [fetch] calls, calls on the speech synthesis; [pending] lists
    the handlers suspended at their [await]. *)
Record world := {
  st : state;
  userInput : jsstring;
  apiKeyInput : jsstring;
  topicDisplay : jsstring;
  chatContainer : list node;
  storage : localStorage;
  alerts : list jsstring;
  fetches : list fetch_call;
  pending : list awaiting;
  speech : list speech_call
}.

Definition set_apiKey (k : jsstring) (s : state) : state :=
  {| apiKey := k; model := model s; phase_ := phase_ s; topic := topic s;
     currentHTF := currentHTF s; history := history s;
     autoSpeak := autoSpeak s; isSpeaking := isSpeaking s |}.

Definition set_model (m : jsstring) (s : state) : state :=
  {| apiKey := apiKey s; model := m; phase_ := phase_ s; topic := topic s;
     currentHTF := currentHTF s; history := history s;
     autoSpeak := autoSpeak s; isSpeaking := isSpeaking s |}.

Definition set_phase (p : phase) (s : state) : state :=
  {| apiKey := apiKey s; model := model s; phase_ := p; topic := topic s;
     currentHTF := currentHTF s; history := history s;
     autoSpeak := autoSpeak s; isSpeaking := isSpeaking s |}.

Definition set_topic (t : jsstring) (s : state) : state :=
  {| apiKey := apiKey s; model := model s; phase_ := phase_ s; topic := t;
     currentHTF := currentHTF s; history := history s;
     autoSpeak := autoSpeak s; isSpeaking := isSpeaking s |}.

Definition set_history (h : list message) (s : state) : state :=
  {| apiKey := apiKey s; model := model s; phase_ := phase_ s;
     topic := topic s; currentHTF := currentHTF s; history := h;
     autoSpeak := autoSpeak s; isSpeaking := isSpeaking s |}.

Definition set_autoSpeak (b : bool) (s : state) : state :=
  {| apiKey := apiKey s; model := model s; phase_ := phase_ s;
     topic := topic s; currentHTF := currentHTF s; history := history s;
     autoSpeak := b; isSpeaking := isSpeaking s |}.

Definition upd_state (f : state -> state) (w : world) : world :=
  {| st := f (st w); userInput := userInput w; apiKeyInput := apiKeyInput w;
     topicDisplay := topicDisplay w; chatContainer := chatContainer w;
     storage := storage w; alerts := alerts w; fetches := fetches w;
     pending := pending w; speech := speech w |}.

Definition set_userInput (v : jsstring) (w : world) : world :=
  {| st := st w; userInput := v; apiKeyInput := apiKeyInput w;
     topicDisplay := topicDisplay w; chatContainer := chatContainer w;
     storage := storage w; alerts := alerts w; fetches := fetches w;
     pending := pending w; speech := speech w |}.

Definition set_apiKeyInput (v : jsstring) (w : world) : world :=
  {| st := st w; userInput := userInput w; apiKeyInput := v;
     topicDisplay := topicDisplay w; chatContainer := chatContainer w;
     storage := storage w; alerts := alerts w; fetches := fetches w;
     pending := pending w; speech := speech w |}.

Definition set_topicDisplay (v : jsstring) (w : world) : world :=
  {| st := st w; userInput := userInput w; apiKeyInput := apiKeyInput w;
     topicDisplay := v; chatContainer := chatContainer w;
     storage := storage w; alerts := alerts w; fetches := fetches w;
     pending := pending w; speech := speech w |}.

Definition upd_chat (f : list node -> list node) (w : world) : world :=
  {| st := st w; userInput := userInput w; apiKeyInput := apiKeyInput w;
     topicDisplay := topicDisplay w; chatContainer := f (chatContainer w);
     storage := storage w; alerts := alerts w; fetches := fetches w;
     pending := pending w; speech := speech w |}.

Definition set_storage (l : localStorage) (w : world) : world :=
  {| st := st w; userInput := userInput w; apiKeyInput := apiKeyInput w;
     topicDisplay := topicDisplay w; chatContainer := chatContainer w;
     storage := l; alerts := alerts w; fetches := fetches w;
     pending := pending w; speech := speech w |}.

Definition push_alert (a : jsstring) (w : world) : world :=
  {| st := st w; userInput := userInput w; apiKeyInput := apiKeyInput w;
     topicDisplay := topicDisplay w; chatContainer := chatContainer w;
     storage := storage w; alerts := alerts w ++ [a]; fetches := fetches w;
     pending := pending w; speech := speech w |}.

Definition push_fetch (c : fetch_call) (w : world) : world :=
  {| st := st w; userInput := userInput w; apiKeyInput := apiKeyInput w;
     topicDisplay := topicDisplay w; chatContainer := chatContainer w;
     storage := storage w; alerts := alerts w; fetches := fetches w ++ [c];
     pending := pending w; speech := speech w |}.

Definition set_pending (p : list awaiting) (w : world) : world :=
  {| st := st w; userInput := userInput w; apiKeyInput := apiKeyInput w;
     topicDisplay := topicDisplay w; chatContainer := chatContainer w;
     storage := storage w; alerts := alerts w; fetches := fetches w;
     pending := p; speech := speech w |}.

Definition push_speech (c : speech_call) (w : world) : world :=
  {| st := st w; userInput := userInput w; apiKeyInput := apiKeyInput w;
     topicDisplay := topicDisplay w; chatContainer := chatContainer w;
     storage := storage w; alerts := alerts w; fetches := fetches w;
     pending := pending w; speech := speech w ++ [c] |}.

Definition alert (a : jsstring) : M world unit := modify (push_alert a).

(** [state.history.push({ role, content })]. *)
Definition addMessageToHistory (r : role) (content : jsval) : M world unit :=
  modify (upd_state (fun s =>
    set_history (history s ++ [{| msg_role := r; msg_content := content |}]) s)).

Definition renderMessage (r : role) (content : jsval) : M world unit :=
  modify (upd_chat (fun c => c ++ [MessageDiv r content])).

Definition renderSystemMessage (content : jsval) : M world unit :=
  renderMessage system content.

Definition showLoading : M world unit :=
  modify (upd_chat (fun c => c ++ [LoadingDiv])).

Definition removeLoading : M world unit :=
  modify (upd_chat remove_first_loading).

Definition speakText (text : jsval) : M world unit :=
  modify (push_speech SpeechCancel) ;;
  s <- lift (replace_receiver text) ;;
  let cleanText := replace_markdown (replace_think s) in
  modify (push_speech (SpeechSpeak cleanText (lang_of cleanText))).

Definition stopSpeaking : M world unit :=
  modify (push_speech SpeechCancel).

Definition saveApiKey : M world unit :=
  key <- gets (fun w => trim (apiKeyInput w)) ;;
  if is_empty key then alert (js "Please enter a valid API Key.")
  else
    modify (upd_state (set_apiKey key)) ;;
    modify (fun w => set_storage {| groq_api_key := Some key;
                                    groq_model := groq_model (storage w) |} w) ;;
    alert (js "API Key saved locally.").

(** The system prompt, a template around the grammar and the topic:
    [prompt_head], [${HTF_GRAMMAR}], [prompt_middle], [${state.topic}],
    [prompt_tail]. *)
Definition prompt_head : jsstring :=
  js "あなたはHTF（Holonic Text Format）の専門家であり、ユーザーの課題解決を支援するコンサルタントです。
".

Definition prompt_middle : jsstring := js "
現在は「協議フェーズ」です。ユーザーの「題目：".

Definition prompt_tail : jsstring :=
  js "」に対し、最適な秩序を生成するためのHTF構造を提案してください。".

Definition systemContent (topic : jsstring) : jsstring :=
  prompt_head ++ HTF_GRAMMAR ++ prompt_middle ++ topic ++ prompt_tail.

(** The messages [fetchGroqCompletion] sends. *)
Definition request_messages (s : state) : list message :=
  {| msg_role := system; msg_content := VStr (systemContent (topic s)) |}
    :: history s.

(** The call [fetchGroqCompletion] makes, from the state it reads. *)
Definition fetchGroqCompletion_call (s : state) : fetch_call :=
  {| call_url := GROQ_API_URL;
     call_bearer := apiKey s;
     call_body := {| req_model := model s;
                     req_messages := request_messages s;
                     req_temperature := Qmake 7 10;
                     req_max_tokens := 2048 |} |}.

(** [fetchGroqCompletion()] up to [await fetch(...)]. *)
Definition fetchGroqCompletion_start : M world unit :=
  modify (fun w => push_fetch (fetchGroqCompletion_call (st w)) w).

(** The handler [k] suspends at its [await]. *)
Definition await (k : awaiting) : M world unit :=
  modify (fun w => set_pending (pending w ++ [k]) w).

(** [handleDiscussionStart], up to the [await]. *)
Definition handleDiscussionStart : M world unit :=
  showLoading ;;
  fetchGroqCompletion_start ;;
  await in_handleDiscussionStart.

Definition topic_announcement (text : jsstring) : jsstring :=
  js "題目: " ++ text.

Definition topic_notice (text : jsstring) : jsstring :=
  js "題目を「" ++ text ++ js "」に設定しました。これからこの課題を解決するためのHTFインストラクションを構築します。AIと相談しながら文脈を固めていきましょう。".

Definition consultation_opening (text : jsstring) : jsstring :=
  js "題目は「" ++ text ++ js "」です。この課題を解決するために、HTF文法を用いてどのような[SCOPE]や[ENVIRONMENT]、[ENTITY]を定義すべきか、私に質問しながら協議を開始してください。".

Definition setTopic (text : jsstring) : M world unit :=
  modify (upd_state (set_topic text)) ;;
  modify (upd_state (set_phase HTF_DISCUSSION)) ;;
  modify (set_topicDisplay (js "Topic: " ++ text)) ;;
  renderMessage user (VStr (topic_announcement text)) ;;
  renderSystemMessage (VStr (topic_notice text)) ;;
  addMessageToHistory user (VStr (consultation_opening text)) ;;
  handleDiscussionStart.

(** [handleSend], up to the [await]. *)
Definition handleSend : M world unit :=
  text <- gets (fun w => trim (userInput w)) ;;
  if is_empty text then ret tt
  else
    key <- gets (fun w => apiKey (st w)) ;;
    if is_empty key then alert (js "Groq APIキーを設定してください。")
    else
      modify (set_userInput []) ;;
      ph <- gets (fun w => phase_ (st w)) ;;
      match ph with
      | TOPIC_SETTING => setTopic text
      | _ =>
          addMessageToHistory user (VStr text) ;;
          renderMessage user (VStr text) ;;
          showLoading ;;
          fetchGroqCompletion_start ;;
          await in_handleSend
      end.

Section Engine.

Variable E : engine.

(** [handleSend], from the [await] on, once the request is settled with
    outcome [o]. *)
Definition handleSend_resume (o : fetch_outcome) : M world unit :=
  try_catch
    (responseText <- lift (fetchGroqCompletion_result o) ;;
     removeLoading ;;
     addMessageToHistory assistant responseText ;;
     renderMessage assistant responseText ;;
     auto <- gets (fun w => autoSpeak (st w)) ;;
     when auto then_ speakText responseText)
    (fun error =>
       removeLoading ;;
       renderMessage system (VStr (js "Error: " ++ message_of E error))).

(** [handleDiscussionStart], from the [await] on. *)
Definition handleDiscussionStart_resume (o : fetch_outcome) : M world unit :=
  try_catch
    (responseText <- lift (fetchGroqCompletion_result o) ;;
     removeLoading ;;
     addMessageToHistory assistant responseText ;;
     renderMessage assistant responseText ;;
     auto <- gets (fun w => autoSpeak (st w)) ;;
     when auto then_ speakText responseText)
    (fun error =>
       removeLoading ;;
       renderMessage system (VStr (js "Error: " ++ message_of E error))).

Definition resume (k : awaiting) (o : fetch_outcome) : M world unit :=
  match k with
  | in_handleSend => handleSend_resume o
  | in_handleDiscussionStart => handleDiscussionStart_resume o
  end.

(** What can happen to the page. *)
Inductive event :=
| input_userInput (value : jsstring)
| input_apiKeyInput (value : jsstring)
| click_saveKeyBtn
| change_modelSelect (option_index : nat)
| change_autoSpeakToggle (checked : bool)
| click_stopSpeechBtn
| click_sendBtn
| keydown_Enter_userInput
| click_speakBtn (child_index : nat)
| settle (request_index : nat) (o : fetch_outcome).

(** One event: [None] when it cannot happen in [w]. *)
Definition step (w : world) (e : event) : option world :=
  match e with
  | input_userInput v => Some (set_userInput v w)
  | input_apiKeyInput v => Some (set_apiKeyInput v w)
  | click_saveKeyBtn => Some (run_handler saveApiKey w)
  | change_modelSelect i =>
      match nth_error MODELS i with
      | Some m =>
          Some (set_storage {| groq_api_key := groq_api_key (storage w);
                               groq_model := Some (id m) |}
                  (upd_state (set_model (id m)) w))
      | None => None
      end
  | change_autoSpeakToggle b => Some (upd_state (set_autoSpeak b) w)
  | click_stopSpeechBtn => Some (run_handler stopSpeaking w)
  | click_sendBtn | keydown_Enter_userInput => Some (run_handler handleSend w)
  | click_speakBtn i =>
      match nth_error (chatContainer w) i with
      | Some (MessageDiv _ content) => Some (run_handler (speakText content) w)
      | _ => None
      end
  | settle i o =>
      match nth_error (pending w) i with
      | Some k =>
          Some (run_handler (resume k o)
                  (set_pending (remove_nth i (pending w)) w))
      | None => None
      end
  end.

Definition welcome : jsstring :=
  js "解決したい課題（題目）を入力してください。これをタイトルとしてプロジェクトを開始します。".

(** [init()] on a page whose local storage holds [ls]. *)
Definition init (ls : localStorage) : world :=
  let key := match groq_api_key ls with
             | Some k => if is_empty k then None else Some k
             | None => None
             end in
  let saved := match groq_model ls with
               | Some m => if is_empty m then None
                           else if known_model m then Some m else None
               | None => None
               end in
  {| st := {| apiKey := match key with Some k => k | None => [] end;
              model := match saved with Some m => m | None => default_model end;
              phase_ := TOPIC_SETTING;
              topic := [];
              currentHTF := [];
              history := [];
              autoSpeak := true;
              isSpeaking := false |};
     userInput := [];
     apiKeyInput := match key with Some k => k | None => [] end;
     topicDisplay := [];
     chatContainer := [MessageDiv system (VStr welcome)];
     storage := ls;
     alerts := [];
     fetches := [];
     pending := [];
     speech := [] |}.

(** The worlds a session goes through. *)
Inductive reachable : world -> Prop :=
| reachable_init ls : reachable (init ls)
| reachable_step w e w' :
    reachable w -> step w e = Some w' -> reachable w'.

Fixpoint run (w : world) (es : list event) : option world :=
  match es with
  | [] => Some w
  | e :: es' =>
      match step w e with
      | Some w' => run w' es'
      | None => None
      end
  end.

(** One whole turn: the text is typed, sent, and the request this
    starts settles with [o] before anything else happens. *)
Definition submit (text : jsstring) (o : fetch_outcome) (w : world)
  : option world :=
  run w [input_userInput text; click_sendBtn; settle (length (pending w)) o].

End Engine.

End Phase.

(** ** What one event does to the conversation *)

Definition user_msg (text : jsstring) : message :=
  {| msg_role := user; msg_content := VStr text |}.

Definition assistant_msg (v : jsval) : message :=
  {| msg_role := assistant; msg_content := v |}.

Definition system_msg (text : jsstring) : message :=
  {| msg_role := system; msg_content := VStr text |}.

Definition not_system (m : message) : Prop := msg_role m <> system.

(** [p] occurs in [s] as a run of consecutive code units. *)
Definition occurs (p s : jsstring) : Prop := exists a b, s = a ++ p ++ b.

(** The text the [catch] clauses show for an exception. *)
Definition error_text (E : engine) (e : js_error) : jsstring :=
  js "Error: " ++ message_of E e.

(** What is shown after a reply [v] has been rendered: nothing more,
    unless the reply is narrated and the narration raises. *)
Definition after_reply (E : engine) (auto : bool) (v : jsval) : list message :=
  match auto, replace_receiver v with
  | true, Throw e => [system_msg (error_text E e)]
  | _, _ => []
  end.

(** What the prompt narration adds to the calls on the synthesis. *)
Definition prompt_speech (auto : bool) (text : jsstring) : list speech_call :=
  if auto
  then [SpeechCancel;
        SpeechSpeak (replace_markdown text) (lang_of (replace_markdown text))]
  else [].

(** The shape of the messages of a request. *)
Definition system_then (content : jsstring) (c : fetch_call) : Prop :=
  exists h,
    req_messages (call_body c) = system_msg content :: h
    /\ Forall not_system h
    /\ count_role system (req_messages (call_body c)) = 1.

(** What every request of the phase variant carries. *)
Definition phase_parameters (c : fetch_call) : Prop :=
  call_url c = GROQ_API_URL
  /\ known_model (req_model (call_body c)) = true
  /\ req_temperature (call_body c) = Qmake 7 10
  /\ req_max_tokens (call_body c) = 2048%Z
  /\ exists t,
       hd_error (req_messages (call_body c))
       = Some (system_msg (Phase.prompt_head ++ Phase.HTF_GRAMMAR ++ Phase.prompt_middle
                           ++ t ++ Phase.prompt_tail)).

(** What every request of the simple client carries. *)
Definition simple_parameters (c : fetch_call) : Prop :=
  call_url c = GROQ_API_URL
  /\ known_model (req_model (call_body c)) = true
  /\ req_temperature (call_body c) = Qmake 7 10
  /\ req_max_tokens (call_body c) = 1024%Z
  /\ hd_error (req_messages (call_body c))
     = Some (system_msg Simple.system_prompt).

Module PhaseEffect.
Import Phase.

Definition is_send (e : event) : bool :=
  match e with
  | click_sendBtn | keydown_Enter_userInput => true
  | _ => false
  end.

(** A press on send that passes both guards of [handleSend]. *)
Definition accepted (w : world) (e : event) : bool :=
  is_send e && negb (is_empty (trim (userInput w)))
  && negb (is_empty (apiKey (st w))).

Section Engine.
Variable E : engine.

(** The five kinds of step, by what they do to the phase, the topic, the
    history, the requests sent, the handlers waiting and the messages
    shown. *)
Inductive effect (w w' : world) : event -> Prop :=
| effect_none e :
    accepted w e = false ->
    (forall i o, e <> settle i o) ->
    phase_ (st w') = phase_ (st w) ->
    topic (st w') = topic (st w) ->
    history (st w') = history (st w) ->
    fetches w' = fetches w ->
    pending w' = pending w ->
    shown (chatContainer w') = shown (chatContainer w) ->
    effect w w' e
| effect_topic e :
    accepted w e = true ->
    phase_ (st w) = TOPIC_SETTING ->
    st w' = set_history
              (history (st w)
               ++ [user_msg (consultation_opening (trim (userInput w)))])
              (set_phase HTF_DISCUSSION (set_topic (trim (userInput w)) (st w))) ->
    fetches w' = fetches w ++ [fetchGroqCompletion_call (st w')] ->
    pending w' = pending w ++ [in_handleDiscussionStart] ->
    shown (chatContainer w') =
      shown (chatContainer w)
      ++ [user_msg (topic_announcement (trim (userInput w)));
          system_msg (topic_notice (trim (userInput w)))] ->
    effect w w' e
| effect_turn e :
    accepted w e = true ->
    phase_ (st w) <> TOPIC_SETTING ->
    st w' = set_history (history (st w) ++ [user_msg (trim (userInput w))])
              (st w) ->
    fetches w' = fetches w ++ [fetchGroqCompletion_call (st w')] ->
    pending w' = pending w ++ [in_handleSend] ->
    shown (chatContainer w') =
      shown (chatContainer w) ++ [user_msg (trim (userInput w))] ->
    effect w w' e
| effect_reply i o k v :
    nth_error (pending w) i = Some k ->
    fetchGroqCompletion_result o = Normal v ->
    st w' = set_history (history (st w) ++ [assistant_msg v]) (st w) ->
    fetches w' = fetches w ->
    pending w' = remove_nth i (pending w) ->
    shown (chatContainer w') =
      shown (chatContainer w)
      ++ assistant_msg v :: after_reply E (autoSpeak (st w)) v ->
    effect w w' (settle i o)
| effect_error i o k err :
    nth_error (pending w) i = Some k ->
    fetchGroqCompletion_result o = Throw err ->
    st w' = st w ->
    fetches w' = fetches w ->
    pending w' = remove_nth i (pending w) ->
    shown (chatContainer w') =
      shown (chatContainer w) ++ [system_msg (error_text E err)] ->
    effect w w' (settle i o).

(** The number of times a run leaves topic setting. *)
Fixpoint transitions (w : world) (es : list event) : nat :=
  match es with
  | [] => 0
  | e :: es' =>
      match step E w e with
      | Some w' =>
          match phase_ (st w), phase_ (st w') with
          | TOPIC_SETTING, TOPIC_SETTING => transitions w' es'
          | TOPIC_SETTING, _ => S (transitions w' es')
          | _, _ => transitions w' es'
          end
      | None => 0
      end
  end.

End Engine.
End PhaseEffect.

Module SimpleEffect.
Import Simple.

Definition is_send (e : event) : bool :=
  match e with
  | click_sendBtn | keydown_Enter_userInput => true
  | _ => false
  end.

(** A press on send that passes both guards of [handleSend]. *)
Definition accepted (w : world) (e : event) : bool :=
  is_send e && negb (is_empty (trim (userInput w)))
  && negb (is_empty (apiKey (st w))).

Section Engine.
Variable E : engine.

(** The four kinds of step of the simple client. *)
Inductive effect (w w' : world) : event -> Prop :=
| effect_none e :
    accepted w e = false ->
    (forall o, e <> settle o) ->
    history (st w') = history (st w) ->
    fetches w' = fetches w ->
    pending w' = pending w ->
    shown (chatContainer w') = shown (chatContainer w) ->
    effect w w' e
| effect_turn e :
    accepted w e = true ->
    st w' = set_history (history (st w) ++ [user_msg (trim (userInput w))])
              (st w) ->
    fetches w' = fetches w ++ [fetchGroqCompletion_call (st w')] ->
    pending w' = S (pending w) ->
    shown (chatContainer w') =
      shown (chatContainer w) ++ [user_msg (trim (userInput w))] ->
    effect w w' e
| effect_reply o v :
    fetchGroqCompletion_result o = Normal v ->
    st w' = set_history (history (st w) ++ [assistant_msg v]) (st w) ->
    fetches w' = fetches w ->
    S (pending w') = pending w ->
    shown (chatContainer w') =
      shown (chatContainer w)
      ++ assistant_msg v :: after_reply E (autoSpeak (st w)) v ->
    effect w w' (settle o)
| effect_error o err :
    fetchGroqCompletion_result o = Throw err ->
    st w' = st w ->
    fetches w' = fetches w ->
    S (pending w') = pending w ->
    shown (chatContainer w') =
      shown (chatContainer w) ++ [system_msg (error_text E err)] ->
    effect w w' (settle o).

End Engine.
End SimpleEffect.

(** ** Observations on a world *)

Definition is_system (m : message) : bool :=
  match msg_role m with
  | system => true
  | _ => false
  end.

(** The messages of a list that belong to the conversation: all but the
    system ones. *)
Definition conversation (l : list message) : list message :=
  filter (fun m => negb (is_system m)) l.

(** The number of loading indicators in the chat container. *)
Fixpoint loading_count (c : list node) : nat :=
  match c with
  | [] => 0
  | LoadingDiv :: t => S (loading_count t)
  | MessageDiv _ _ :: t => loading_count t
  end.

(** A text without [*], [#] and backquote. *)
Definition no_marker (t : jsstring) : Prop :=
  Forall (fun c => isMarkdownMarker c = false) t.

(** The calls on the speech synthesis that [speakText] and
    [stopSpeaking] can leave behind: a cancel alone, or a cancel followed
    at once by an utterance of a cleaned text in the language chosen
    for it. *)
Inductive narrations : list speech_call -> Prop :=
| narrations_nil : narrations []
| narrations_cancel l : narrations l -> narrations (l ++ [SpeechCancel])
| narrations_speak l t :
    narrations l -> no_marker t ->
    narrations (l ++ [SpeechCancel; SpeechSpeak t (lang_of t)]).

(** A request that was sent with a key, whose messages are a system
    message followed by a beginning of the history [hist] that ends with
    a user message of non-empty text. *)
Definition sent_from (hist : list message) (c : fetch_call) : Prop :=
  call_bearer c <> []
  /\ exists s h u rest,
       req_messages (call_body c) = system_msg s :: h ++ [user_msg u]
       /\ u <> []
       /\ hist = h ++ user_msg u :: rest.

(** ** Sample sessions *)

(** A page without settings on which a key is saved and the second model
    is chosen. *)
Definition sample_settings : list Phase.event :=
  [Phase.input_apiKeyInput (js " gsk_sample "); Phase.click_saveKeyBtn;
   Phase.change_modelSelect 1].

(** An engine with V8's wording for its TypeErrors. *)
Definition sample_engine : engine :=
  {| TypeError_text := fun t =>
       match t with
       | ReadPropertyOf VNull p =>
           js "Cannot read properties of null (reading '" ++ p ++ js "')"
       | ReadPropertyOf _ p =>
           js "Cannot read properties of undefined (reading '" ++ p ++ js "')"
       | NotAFunction _ m => js "text." ++ m ++ js " is not a function"
       end;
     ToString_text := fun _ => js "[object Object]" |}.

Definition empty_storage : localStorage :=
  {| groq_api_key := None; groq_model := None |}.

Definition stored_key : localStorage :=
  {| groq_api_key := Some (js "gsk_sample"); groq_model := None |}.

(** A well-formed success body whose reply is [text]. *)
Definition reply (text : jsstring) : fetch_outcome :=
  FetchResponse true
    (JsonParsed
       (VObj [(js "choices",
               VArr [VObj [(js "message",
                            VObj [(js "role", VStr (js "assistant"));
                                  (js "content", VStr text)])]])])).

(** The error response [{ error: { message: 'invalid_api_key' } }]. *)
Definition invalid_api_key : fetch_outcome :=
  FetchResponse false
    (JsonParsed
       (VObj [(js "error", VObj [(js "message", VStr (js "invalid_api_key"))])])).

(** A success body whose message has no content field. *)
Definition reply_without_content : fetch_outcome :=
  FetchResponse true
    (JsonParsed
       (VObj [(js "choices",
               VArr [VObj [(js "message",
                            VObj [(js "role", VStr (js "assistant"))])]])])).

(** A session of the phase variant that has reached the discussion: the
    key is in the storage, the topic is sent and the opening request is
    answered. *)
Definition sample_discussion : Phase.world :=
  Eval vm_compute in
  match Phase.run sample_engine (Phase.init stored_key)
          [Phase.input_userInput (js "reduce onboarding drop-off");
           Phase.click_sendBtn;
           Phase.settle 0 (reply (js "Which users drop off?"))]
  with
  | Some w => w
  | None => Phase.init stored_key
  end.

(** A session of the simple client after one answered turn. *)
Definition sample_chat : Simple.world :=
  Eval vm_compute in
  match Simple.run sample_engine (Simple.init stored_key)
          [Simple.input_userInput (js "Hi");
           Simple.click_sendBtn;
           Simple.settle (reply (js "Hello!"))]
  with
  | Some w => w
  | None => Simple.init stored_key
  end.

(** * Properties *)

Unset Implicit Arguments.

(** ** The chat container *)

Lemma shown_app c d : shown (c ++ d) = shown c ++ shown d.
Proof.
  induction c as [|[r v|] c IH]; cbn;
    [reflexivity | f_equal; exact IH | exact IH].
Qed.

Lemma shown_remove_first_loading c : shown (remove_first_loading c) = shown c.
Proof.
  induction c as [|[r v|] c IH]; cbn;
    [reflexivity | f_equal; exact IH | reflexivity].
Qed.

Lemma count_role_app r l l' :
  count_role r (l ++ l') = count_role r l + count_role r l'.
Proof. unfold count_role. rewrite filter_app, length_app. reflexivity. Qed.

Lemma is_empty_false (s : jsstring) : is_empty s = false <-> s <> [].
Proof. destruct s; cbn; split; congruence. Qed.

Lemma is_empty_true (s : jsstring) : is_empty s = true <-> s = [].
Proof. destruct s; cbn; split; congruence. Qed.

Create Rewrite HintDb shown.
#[local] Hint Rewrite shown_app shown_remove_first_loading : shown.

(** ** The phase variant, handler by handler *)

Module PhaseProps.
Import Phase PhaseEffect.

Lemma phase_send_blank w :
  is_empty (trim (userInput w)) = true -> run_handler handleSend w = w.
Proof.
  intros H. unfold run_handler, handleSend, bind, gets. cbn. rewrite H.
  reflexivity.
Qed.

Lemma phase_send_keyless w :
  is_empty (trim (userInput w)) = false ->
  is_empty (apiKey (st w)) = true ->
  run_handler handleSend w = push_alert (js "Groq APIキーを設定してください。") w.
Proof.
  intros H K. unfold run_handler, handleSend, bind, gets. cbn. rewrite H.
  cbn. rewrite K. reflexivity.
Qed.

(** An accepted submission outside topic setting. *)
Lemma phase_send_turn w :
  is_empty (trim (userInput w)) = false ->
  is_empty (apiKey (st w)) = false ->
  phase_ (st w) <> TOPIC_SETTING ->
  let text := trim (userInput w) in
  let w' := run_handler handleSend w in
  st w' = set_history (history (st w) ++ [user_msg text]) (st w)
  /\ userInput w' = []
  /\ apiKeyInput w' = apiKeyInput w
  /\ topicDisplay w' = topicDisplay w
  /\ chatContainer w' =
       chatContainer w ++ [MessageDiv user (VStr text); LoadingDiv]
  /\ storage w' = storage w
  /\ alerts w' = alerts w
  /\ fetches w' = fetches w ++ [fetchGroqCompletion_call (st w')]
  /\ pending w' = pending w ++ [in_handleSend]
  /\ speech w' = speech w.
Proof.
  intros H K P. unfold run_handler, handleSend, bind, gets. cbn. rewrite H.
  cbn. rewrite K. cbn.
  destruct (phase_ (st w)) eqn:Hp; try congruence; cbn;
    rewrite <- app_assoc; repeat split; reflexivity.
Qed.

(** The accepted submission that sets the topic. *)
Lemma phase_send_topic w :
  is_empty (trim (userInput w)) = false ->
  is_empty (apiKey (st w)) = false ->
  phase_ (st w) = TOPIC_SETTING ->
  let text := trim (userInput w) in
  let w' := run_handler handleSend w in
  st w' = set_history
            (history (st w) ++ [user_msg (consultation_opening text)])
            (set_phase HTF_DISCUSSION (set_topic text (st w)))
  /\ userInput w' = []
  /\ apiKeyInput w' = apiKeyInput w
  /\ topicDisplay w' = js "Topic: " ++ text
  /\ chatContainer w' =
       chatContainer w ++ [MessageDiv user (VStr (topic_announcement text));
                           MessageDiv system (VStr (topic_notice text));
                           LoadingDiv]
  /\ storage w' = storage w
  /\ alerts w' = alerts w
  /\ fetches w' = fetches w ++ [fetchGroqCompletion_call (st w')]
  /\ pending w' = pending w ++ [in_handleDiscussionStart]
  /\ speech w' = speech w.
Proof.
  intros H K P. unfold run_handler, handleSend, bind, gets. cbn. rewrite H.
  cbn. rewrite K. cbn. rewrite P. cbn.
  rewrite <- !app_assoc. repeat split; reflexivity.
Qed.

Section Engine.
Variable E : engine.

(** Both continuations are the same text. *)
Lemma phase_resume_same k o w : resume E k o w = handleSend_resume E o w.
Proof. destruct k; reflexivity. Qed.

(** A request that fails. *)
Lemma phase_resume_failure k o e w :
  fetchGroqCompletion_result o = Throw e ->
  let w' := run_handler (resume E k o) w in
  st w' = st w
  /\ userInput w' = userInput w
  /\ apiKeyInput w' = apiKeyInput w
  /\ topicDisplay w' = topicDisplay w
  /\ chatContainer w' =
       remove_first_loading (chatContainer w)
       ++ [MessageDiv system (VStr (error_text E e))]
  /\ storage w' = storage w
  /\ alerts w' = alerts w
  /\ fetches w' = fetches w
  /\ pending w' = pending w
  /\ speech w' = speech w.
Proof.
  intros H. unfold run_handler. rewrite phase_resume_same.
  unfold handleSend_resume, try_catch, bind, lift. rewrite H. cbn.
  repeat split; reflexivity.
Qed.

(** A request that succeeds with [v]. *)
Lemma phase_resume_success k o v w :
  fetchGroqCompletion_result o = Normal v ->
  let w' := run_handler (resume E k o) w in
  st w' = set_history (history (st w) ++ [assistant_msg v]) (st w)
  /\ userInput w' = userInput w
  /\ apiKeyInput w' = apiKeyInput w
  /\ topicDisplay w' = topicDisplay w
  /\ shown (chatContainer w') =
       shown (chatContainer w)
       ++ assistant_msg v :: after_reply E (autoSpeak (st w)) v
  /\ storage w' = storage w
  /\ alerts w' = alerts w
  /\ fetches w' = fetches w
  /\ pending w' = pending w.
Proof.
  intros H. unfold run_handler. rewrite phase_resume_same.
  unfold handleSend_resume, try_catch, bind, lift, gets, after_reply.
  rewrite H. cbn.
  destruct (autoSpeak (st w)) eqn:Ha; cbn.
  - unfold speakText, bind, lift. cbn.
    destruct (replace_receiver v) eqn:Hv; cbn;
      repeat split; try reflexivity;
      autorewrite with shown; rewrite <- ?app_assoc; reflexivity.
  - repeat split; try reflexivity.
    autorewrite with shown. reflexivity.
Qed.

Lemma phase_send_effect w e :
  is_send e = true -> effect E w (run_handler handleSend w) e.
Proof.
  intros He.
  assert (forall i o, e <> settle i o) as Hs
    by (intros i o ->; discriminate).
  destruct (is_empty (trim (userInput w))) eqn:H.
  { rewrite (phase_send_blank w H).
    apply effect_none; auto. unfold accepted. rewrite H, He. reflexivity. }
  destruct (is_empty (apiKey (st w))) eqn:K.
  { rewrite (phase_send_keyless w H K).
    apply effect_none; auto. unfold accepted. rewrite H, K, He. reflexivity. }
  assert (accepted w e = true) as Ha
    by (unfold accepted; rewrite H, K, He; reflexivity).
  destruct (phase_ (st w)) eqn:P.
  - pose proof (phase_send_topic w H K P) as S. cbv zeta in S.
    destruct S as (S1 & _ & _ & _ & S5 & _ & _ & S8 & S9 & _).
    apply effect_topic; auto. rewrite S5, shown_app. reflexivity.
  - assert (phase_ (st w) <> TOPIC_SETTING) as P' by congruence.
    pose proof (phase_send_turn w H K P') as S. cbv zeta in S.
    destruct S as (S1 & _ & _ & _ & S5 & _ & _ & S8 & S9 & _).
    apply effect_turn; auto. rewrite S5, shown_app. reflexivity.
  - assert (phase_ (st w) <> TOPIC_SETTING) as P' by congruence.
    pose proof (phase_send_turn w H K P') as S. cbv zeta in S.
    destruct S as (S1 & _ & _ & _ & S5 & _ & _ & S8 & S9 & _).
    apply effect_turn; auto. rewrite S5, shown_app. reflexivity.
Qed.

(** Every step is one of the five effects. *)
Lemma phase_step_effect w e w' : step E w e = Some w' -> effect E w w' e.
Proof.
  assert (forall w1 (e0 : event),
             is_send e0 = false -> (forall i o, e0 <> settle i o) ->
             st w1 = st w \/ (exists k, st w1 = set_apiKey k (st w))
             \/ (exists m, st w1 = set_model m (st w))
             \/ (exists b, st w1 = set_autoSpeak b (st w)) ->
             fetches w1 = fetches w -> pending w1 = pending w ->
             chatContainer w1 = chatContainer w ->
             effect E w w1 e0) as quiet.
  { intros w1 e0 H1 H2 Hst Hf Hp Hc.
    apply effect_none; auto; try (rewrite Hc; reflexivity).
    - unfold accepted. rewrite H1. reflexivity.
    - destruct Hst as [-> | [[k ->] | [[m ->] | [b ->]]]]; reflexivity.
    - destruct Hst as [-> | [[k ->] | [[m ->] | [b ->]]]]; reflexivity.
    - destruct Hst as [-> | [[k ->] | [[m ->] | [b ->]]]]; reflexivity. }
  destruct e; cbn; intros H.
  - injection H as <-. apply quiet; auto; discriminate.
  - injection H as <-. apply quiet; auto; discriminate.
  - injection H as <-. unfold run_handler, saveApiKey, bind, gets. cbn.
    destruct (is_empty (trim (apiKeyInput w))); cbn;
      apply quiet; try discriminate; try reflexivity.
    + left. reflexivity.
    + right; left. eexists. reflexivity.
  - destruct (nth_error MODELS option_index) as [m|] eqn:Hm; [|discriminate].
    injection H as <-. apply quiet; try discriminate; try reflexivity.
    right; right; left. eexists. reflexivity.
  - injection H as <-. apply quiet; try discriminate; try reflexivity.
    right; right; right. eexists. reflexivity.
  - injection H as <-. apply quiet; auto; discriminate.
  - injection H as <-. apply phase_send_effect. reflexivity.
  - injection H as <-. apply phase_send_effect. reflexivity.
  - destruct (nth_error (chatContainer w) child_index) as [[r c|]|];
      try discriminate.
    injection H as <-. unfold run_handler, speakText, bind, lift. cbn.
    destruct (replace_receiver c); cbn; apply quiet; auto; discriminate.
  - destruct (nth_error (pending w) request_index) as [k|] eqn:Hk;
      [|discriminate].
    injection H as <-.
    destruct (fetchGroqCompletion_result o) as [v|err] eqn:Ho.
    + pose proof (phase_resume_success k o v
                    (set_pending (remove_nth request_index (pending w)) w) Ho)
        as S.
      cbv zeta in S. destruct S as (S1 & _ & _ & _ & S5 & _ & _ & S8 & S9).
      eapply effect_reply; eauto.
    + pose proof (phase_resume_failure k o err
                    (set_pending (remove_nth request_index (pending w)) w) Ho)
        as S.
      cbv zeta in S. destruct S as (S1 & _ & _ & _ & S5 & _ & _ & S8 & S9 & _).
      eapply effect_error; eauto.
      rewrite S5. autorewrite with shown. reflexivity.
Qed.

End Engine.
End PhaseProps.

(** ** Invariants of the phase variant *)

Module PhaseInv.
Import Phase PhaseEffect PhaseProps.

Section Engine.
Variable E : engine.

(** An induction over the steps of a session. *)
Lemma phase_reachable_ind (P : world -> Prop) :
  (forall ls, P (init ls)) ->
  (forall w e w', reachable E w -> P w -> effect E w w' e -> P w') ->
  forall w, reachable E w -> P w.
Proof.
  intros Hi Hs w R. induction R as [ls | w e w' R IH H].
  - apply Hi.
  - eapply Hs; eauto. apply phase_step_effect, H.
Qed.

(** No entry of the history has the system role. *)
Lemma phase_history_roles w :
  reachable E w -> Forall not_system (history (st w)).
Proof.
  revert w.
  refine (phase_reachable_ind (fun w => Forall not_system (history (st w))) _ _).
  - intros ls. constructor.
  - intros w e w' _ IH Hf.
    destruct Hf as [e _ _ _ _ Hh | e _ _ Hst | e _ _ Hst
                    | i o k v _ _ Hst | i o k err _ _ Hst].
    + rewrite Hh. exact IH.
    + rewrite Hst. cbn. apply Forall_app. split; [exact IH|].
      constructor; [discriminate | constructor].
    + rewrite Hst. cbn. apply Forall_app. split; [exact IH|].
      constructor; [discriminate | constructor].
    + rewrite Hst. cbn. apply Forall_app. split; [exact IH|].
      constructor; [discriminate | constructor].
    + rewrite Hst. exact IH.
Qed.

(** While the topic is being set nothing has been said, sent or asked. *)
Lemma phase_topic_setting_blank w :
  reachable E w ->
  phase_ (st w) = TOPIC_SETTING ->
  topic (st w) = [] /\ history (st w) = [] /\ pending w = []
  /\ fetches w = [].
Proof.
  revert w.
  refine (phase_reachable_ind
            (fun w => phase_ (st w) = TOPIC_SETTING ->
                      topic (st w) = [] /\ history (st w) = []
                      /\ pending w = [] /\ fetches w = []) _ _).
  - intros ls _. repeat split; reflexivity.
  - intros w e w' _ IH Hf.
    destruct Hf as [e _ _ Hp Ht Hh Hfe Hpe | e _ _ Hst | e _ P Hst
                    | i o k v Hk _ Hst | i o k err Hk _ Hst Hfe Hpe].
    + rewrite Hp, Ht, Hh, Hfe, Hpe. exact IH.
    + rewrite Hst. cbn. discriminate.
    + rewrite Hst. cbn. intros P'. contradiction.
    + rewrite Hst. cbn. intros P'. destruct (IH P') as (_ & _ & Hp & _).
      rewrite Hp in Hk. destruct i; discriminate.
    + rewrite Hst. intros P'. destruct (IH P') as (_ & _ & Hp & _).
      rewrite Hp in Hk. destruct i; discriminate.
Qed.

(** Once the topic is set, the phase and the topic stay. *)
Lemma phase_topic_stays w e w' :
  step E w e = Some w' ->
  phase_ (st w) <> TOPIC_SETTING ->
  phase_ (st w') = phase_ (st w) /\ topic (st w') = topic (st w).
Proof.
  intros H P. apply phase_step_effect in H.
  destruct H as [e _ _ Hp Ht | e _ P' | e _ _ Hst
                 | i o k v _ _ Hst | i o k err _ _ Hst].
  - split; assumption.
  - contradiction.
  - rewrite Hst. split; reflexivity.
  - rewrite Hst. split; reflexivity.
  - rewrite Hst. split; reflexivity.
Qed.

(** While the topic is being set, a step sets it exactly when it is an
    accepted press on send. *)
Lemma phase_topic_set w e w' :
  step E w e = Some w' ->
  reachable E w ->
  phase_ (st w) = TOPIC_SETTING ->
  if accepted w e
  then phase_ (st w') = HTF_DISCUSSION /\ topic (st w') = trim (userInput w)
  else phase_ (st w') = TOPIC_SETTING /\ topic (st w') = topic (st w).
Proof.
  intros H R P. apply phase_step_effect in H.
  destruct H as [e Ha _ Hp Ht | e Ha _ Hst | e _ P'
                 | i o k v Hk _ Hst | i o k err Hk _ Hst].
  - rewrite Ha. split; congruence.
  - rewrite Ha, Hst. split; reflexivity.
  - contradiction.
  - destruct (phase_topic_setting_blank _ R P) as (_ & _ & Hp & _).
    rewrite Hp in Hk. destruct i; discriminate.
  - destruct (phase_topic_setting_blank _ R P) as (_ & _ & Hp & _).
    rewrite Hp in Hk. destruct i; discriminate.
Qed.

Lemma phase_transitions_after w es :
  phase_ (st w) <> TOPIC_SETTING -> transitions E w es = 0.
Proof.
  revert w. induction es as [|e es IH]; intros w P; cbn; [reflexivity|].
  destruct (step E w e) as [w'|] eqn:H; [|reflexivity].
  destruct (phase_topic_stays _ _ _ H P) as [Hp _].
  assert (phase_ (st w') <> TOPIC_SETTING) as P' by congruence.
  rewrite (IH w' P').
  destruct (phase_ (st w)); try reflexivity. contradiction.
Qed.

(** A run leaves topic setting at most once. *)
Lemma phase_transitions_once w es : transitions E w es <= 1.
Proof.
  revert w. induction es as [|e es IH]; intros w; cbn; [lia|].
  destruct (step E w e) as [w'|] eqn:H; [|lia].
  destruct (phase_ (st w)) eqn:P.
  - destruct (phase_ (st w')) eqn:P'.
    + apply IH.
    + rewrite phase_transitions_after; [lia | congruence].
    + rewrite phase_transitions_after; [lia | congruence].
  - apply IH.
  - apply IH.
Qed.

(** Every step sends as many requests as it accepts submissions: one for
    an accepted press on send, none for anything else. *)
Lemma phase_fetches_step w e w' :
  step E w e = Some w' ->
  fetches w' =
  fetches w ++ (if accepted w e then [fetchGroqCompletion_call (st w')] else []).
Proof.
  intros H. apply phase_step_effect in H.
  destruct H as [e Ha _ _ _ _ Hfe | e Ha _ _ Hfe | e Ha _ _ Hfe
                 | i o k v _ _ _ Hfe | i o k err _ _ _ Hfe].
  - rewrite Ha, Hfe, app_nil_r. reflexivity.
  - rewrite Ha. exact Hfe.
  - rewrite Ha. exact Hfe.
  - rewrite Hfe, app_nil_r. reflexivity.
  - rewrite Hfe, app_nil_r. reflexivity.
Qed.

End Engine.
End PhaseInv.

(** ** The simple client, handler by handler *)

Module SimpleProps.
Import Simple SimpleEffect.

Lemma simple_send_blank w :
  is_empty (trim (userInput w)) = true -> run_handler handleSend w = w.
Proof.
  intros H. unfold run_handler, handleSend, bind, gets. cbn. rewrite H.
  reflexivity.
Qed.

Lemma simple_send_keyless w :
  is_empty (trim (userInput w)) = false ->
  is_empty (apiKey (st w)) = true ->
  run_handler handleSend w
  = push_alert (js "Please set your Groq API Key first.") w.
Proof.
  intros H K. unfold run_handler, handleSend, bind, gets. cbn. rewrite H.
  cbn. rewrite K. reflexivity.
Qed.

(** An accepted submission. *)
Lemma simple_send_turn w :
  is_empty (trim (userInput w)) = false ->
  is_empty (apiKey (st w)) = false ->
  let text := trim (userInput w) in
  let w' := run_handler handleSend w in
  st w' = set_history (history (st w) ++ [user_msg text]) (st w)
  /\ userInput w' = []
  /\ apiKeyInput w' = apiKeyInput w
  /\ chatContainer w' =
       chatContainer w ++ [MessageDiv user (VStr text); LoadingDiv]
  /\ storage w' = storage w
  /\ alerts w' = alerts w
  /\ fetches w' = fetches w ++ [fetchGroqCompletion_call (st w')]
  /\ pending w' = S (pending w)
  /\ speech w' = speech w ++ prompt_speech (autoSpeak (st w)) text.
Proof.
  intros H K. unfold run_handler, handleSend, bind, gets. cbn. rewrite H.
  cbn. rewrite K. cbn. unfold prompt_speech.
  destruct (autoSpeak (st w)) eqn:Ha; cbn;
    rewrite <- ?app_assoc, ?app_nil_r; repeat split; reflexivity.
Qed.

Section Engine.
Variable E : engine.

(** A request that fails. *)
Lemma simple_resume_failure o e w :
  fetchGroqCompletion_result o = Throw e ->
  let w' := run_handler (handleSend_resume E o) w in
  st w' = st w
  /\ userInput w' = userInput w
  /\ apiKeyInput w' = apiKeyInput w
  /\ chatContainer w' =
       remove_first_loading (chatContainer w)
       ++ [MessageDiv system (VStr (error_text E e))]
  /\ storage w' = storage w
  /\ alerts w' = alerts w
  /\ fetches w' = fetches w
  /\ pending w' = pending w
  /\ speech w' = speech w.
Proof.
  intros H. unfold run_handler.
  unfold handleSend_resume, try_catch, bind, lift. rewrite H. cbn.
  repeat split; reflexivity.
Qed.

(** A request that succeeds with [v]. *)
Lemma simple_resume_success o v w :
  fetchGroqCompletion_result o = Normal v ->
  let w' := run_handler (handleSend_resume E o) w in
  st w' = set_history (history (st w) ++ [assistant_msg v]) (st w)
  /\ userInput w' = userInput w
  /\ apiKeyInput w' = apiKeyInput w
  /\ shown (chatContainer w') =
       shown (chatContainer w)
       ++ assistant_msg v :: after_reply E (autoSpeak (st w)) v
  /\ storage w' = storage w
  /\ alerts w' = alerts w
  /\ fetches w' = fetches w
  /\ pending w' = pending w.
Proof.
  intros H. unfold run_handler.
  unfold handleSend_resume, try_catch, bind, lift, gets, after_reply.
  rewrite H. cbn.
  destruct (autoSpeak (st w)) eqn:Ha; cbn.
  - unfold speakText, bind, lift. cbn.
    destruct (replace_receiver v) eqn:Hv; cbn;
      repeat split; try reflexivity;
      autorewrite with shown; rewrite <- ?app_assoc; reflexivity.
  - repeat split; try reflexivity.
    autorewrite with shown. reflexivity.
Qed.

Lemma simple_send_effect w e :
  is_send e = true -> effect E w (run_handler handleSend w) e.
Proof.
  intros He.
  assert (forall o, e <> settle o) as Hs by (intros o ->; discriminate).
  destruct (is_empty (trim (userInput w))) eqn:H.
  { rewrite (simple_send_blank w H).
    apply effect_none; auto. unfold accepted. rewrite H, He. reflexivity. }
  destruct (is_empty (apiKey (st w))) eqn:K.
  { rewrite (simple_send_keyless w H K).
    apply effect_none; auto. unfold accepted. rewrite H, K, He. reflexivity. }
  assert (accepted w e = true) as Ha
    by (unfold accepted; rewrite H, K, He; reflexivity).
  pose proof (simple_send_turn w H K) as S. cbv zeta in S.
  destruct S as (S1 & _ & _ & S5 & _ & _ & S8 & S9 & _).
  apply effect_turn; auto. rewrite S5, shown_app. reflexivity.
Qed.

(** Every step is one of the four effects. *)
Lemma simple_step_effect w e w' : step E w e = Some w' -> effect E w w' e.
Proof.
  assert (forall w1 (e0 : event),
             is_send e0 = false -> (forall o, e0 <> settle o) ->
             history (st w1) = history (st w) ->
             fetches w1 = fetches w -> pending w1 = pending w ->
             chatContainer w1 = chatContainer w ->
             effect E w w1 e0) as quiet.
  { intros w1 e0 H1 H2 Hst Hf Hp Hc.
    apply effect_none; auto; try (rewrite Hc; reflexivity).
    unfold accepted. rewrite H1. reflexivity. }
  assert (forall e0, is_send e0 = false -> (forall o, e0 <> settle o) ->
                     effect E w (run_handler saveApiKey w) e0) as save.
  { intros e0 H1 H2. unfold run_handler, saveApiKey, bind, gets. cbn.
    destruct (is_empty (trim (apiKeyInput w))); cbn;
      apply quiet; auto. }
  destruct e; cbn; intros H.
  - injection H as <-. apply quiet; auto; discriminate.
  - injection H as <-. apply quiet; auto; discriminate.
  - injection H as <-. apply save; auto; discriminate.
  - injection H as <-. apply save; auto; discriminate.
  - destruct (nth_error MODELS option_index) as [m|] eqn:Hm; [|discriminate].
    injection H as <-. apply quiet; auto; discriminate.
  - injection H as <-. apply quiet; auto; discriminate.
  - injection H as <-. apply quiet; auto; discriminate.
  - injection H as <-. apply simple_send_effect. reflexivity.
  - injection H as <-. apply simple_send_effect. reflexivity.
  - destruct (nth_error (chatContainer w) child_index) as [[r c|]|];
      try discriminate.
    injection H as <-. unfold run_handler, speakText, bind, lift. cbn.
    destruct (replace_receiver c); cbn; apply quiet; auto; discriminate.
  - destruct (has_spoken w); [|discriminate].
    injection H as <-. apply quiet; auto; discriminate.
  - destruct (has_spoken w); [|discriminate].
    injection H as <-. apply quiet; auto; discriminate.
  - destruct (has_spoken w); [|discriminate].
    injection H as <-. apply quiet; auto; discriminate.
  - destruct (pending w) as [|n] eqn:Hp; [discriminate|].
    injection H as <-.
    destruct (fetchGroqCompletion_result o) as [v|err] eqn:Ho.
    + pose proof (simple_resume_success o v (set_pending n w) Ho) as S.
      cbv zeta in S. destruct S as (S1 & _ & _ & S5 & _ & _ & S8 & S9).
      eapply effect_reply; eauto. rewrite S9, Hp. reflexivity.
    + pose proof (simple_resume_failure o err (set_pending n w) Ho) as S.
      cbv zeta in S. destruct S as (S1 & _ & _ & S5 & _ & _ & S8 & S9 & _).
      eapply effect_error; eauto.
      * rewrite S9, Hp. reflexivity.
      * rewrite S5. autorewrite with shown. reflexivity.
Qed.

(** An induction over the steps of a session. *)
Lemma simple_reachable_ind (P : world -> Prop) :
  (forall ls, P (init ls)) ->
  (forall w e w', reachable E w -> P w -> effect E w w' e -> P w') ->
  forall w, reachable E w -> P w.
Proof.
  intros Hi Hs w R. induction R as [ls | w e w' R IH H].
  - apply Hi.
  - eapply Hs; eauto. apply simple_step_effect, H.
Qed.

(** No entry of the history has the system role. *)
Lemma simple_history_roles w :
  reachable E w -> Forall not_system (history (st w)).
Proof.
  revert w.
  refine (simple_reachable_ind
            (fun w => Forall not_system (history (st w))) _ _).
  - intros ls. constructor.
  - intros w e w' _ IH Hf.
    destruct Hf as [e _ _ Hh | e _ Hst | o v _ Hst | o err _ Hst].
    + rewrite Hh. exact IH.
    + rewrite Hst. cbn. apply Forall_app. split; [exact IH|].
      constructor; [discriminate | constructor].
    + rewrite Hst. cbn. apply Forall_app. split; [exact IH|].
      constructor; [discriminate | constructor].
    + rewrite Hst. exact IH.
Qed.

(** Every step sends one request for an accepted press on send, and none
    for anything else. *)
Lemma simple_fetches_step w e w' :
  step E w e = Some w' ->
  fetches w' =
  fetches w ++ (if accepted w e then [fetchGroqCompletion_call (st w')] else []).
Proof.
  intros H. apply simple_step_effect in H.
  destruct H as [e Ha _ _ Hfe | e Ha _ Hfe | o v _ _ Hfe | o err _ _ Hfe].
  - rewrite Ha, Hfe, app_nil_r. reflexivity.
  - rewrite Ha. exact Hfe.
  - rewrite Hfe, app_nil_r. reflexivity.
  - rewrite Hfe, app_nil_r. reflexivity.
Qed.

End Engine.
End SimpleProps.

(** ** Narration: the text that is spoken *)

Module Narration.

Lemma starts_with_app p s : starts_with p (p ++ s) = true.
Proof.
  induction p as [|a p IH]; cbn; [reflexivity|].
  rewrite N.eqb_refl. exact IH.
Qed.

(** A pattern that starts inside [u] and matches [u ++ s] either lies
    within [u] or runs over its end. *)
Lemma starts_with_over q u s :
  starts_with q (u ++ s) = true ->
  (exists v, u = q ++ v) \/ (exists q', q = u ++ q' /\ starts_with q' s = true).
Proof.
  revert u. induction q as [|a q IH]; intros u H.
  - left. exists u. reflexivity.
  - destruct u as [|b u].
    + right. exists (a :: q). split; [reflexivity | exact H].
    + cbn in H. apply andb_prop in H. destruct H as [Hab H].
      apply N.eqb_eq in Hab. subst b.
      destruct (IH u H) as [[v ->] | [q' [-> Hq]]].
      * left. exists v. reflexivity.
      * right. exists q'. split; [reflexivity | exact Hq].
Qed.

(** A tag whose first code unit does not come back later in it cannot
    start inside [u] and end inside a copy of itself that follows [u]. *)
Lemma no_overlap c p u s :
  ~ In c p -> u <> [] ->
  starts_with (c :: p) (u ++ (c :: p) ++ s) = true ->
  exists v, u = (c :: p) ++ v.
Proof.
  intros Hc Hu H. apply starts_with_over in H.
  destruct H as [H | [q' [Hq Hs]]]; [exact H|].
  destruct u as [|x u]; [contradiction|].
  injection Hq as -> Hp.
  destruct q' as [|y q'].
  - rewrite app_nil_r in Hp. subst p. exists []. rewrite app_nil_r.
    reflexivity.
  - cbn in Hs. apply andb_prop in Hs. destruct Hs as [Hy _].
    apply N.eqb_eq in Hy. subst y. exfalso. apply Hc. rewrite Hp.
    apply in_or_app. right. left. reflexivity.
Qed.

Lemma occurs_tail p x s : occurs p s -> occurs p (x :: s).
Proof. intros (a & b & ->). exists (x :: a), b. reflexivity. Qed.

(** The lazy body stops at the first closing tag. *)
Lemma after_close_first b c :
  ~ occurs think_close b ->
  after_close (b ++ think_close ++ c) = Some c.
Proof.
  induction b as [|x b IH]; intros Hb.
  - cbn [app]. unfold after_close.
    destruct (think_close ++ c) eqn:Hs; [discriminate|]. rewrite <- Hs.
    rewrite starts_with_app.
    rewrite skipn_app, Nat.sub_diag, skipn_all. reflexivity.
  - cbn [app]. unfold after_close; fold after_close.
    destruct (starts_with think_close (x :: b ++ think_close ++ c)) eqn:Hs.
    + exfalso. apply Hb.
      change (x :: b ++ think_close ++ c)
        with ((x :: b) ++ think_close ++ c) in Hs.
      apply (no_overlap 60%N (tl think_close)) in Hs.
      * destruct Hs as [v Hv]. exists [], v. exact Hv.
      * vm_compute. intuition discriminate.
      * discriminate.
    + apply IH. intros H. apply Hb. apply occurs_tail, H.
Qed.

(** The defining equation of [replace_think]. *)
Lemma replace_think_unfold s :
  replace_think s =
  match s with
  | [] => []
  | c :: t =>
      match match_think s with
      | Some r => replace_think r
      | None => c :: replace_think t
      end
  end.
Proof.
  funelim (replace_think s).
  - reflexivity.
  - match goal with H : match_think _ = Some _ |- _ => rewrite H end.
    reflexivity.
  - match goal with H : match_think _ = None |- _ => rewrite H end.
    reflexivity.
Qed.

(** A block at the head of the text goes, with what is inside it. *)
Lemma replace_think_head b c :
  ~ occurs think_close b ->
  replace_think (think_open ++ b ++ think_close ++ c) = replace_think c.
Proof.
  intros Hb. rewrite replace_think_unfold.
  destruct (think_open ++ b ++ think_close ++ c) as [|x t] eqn:Hs;
    [discriminate|]. rewrite <- Hs.
  unfold match_think. rewrite starts_with_app.
  rewrite skipn_app, Nat.sub_diag, skipn_all. cbn [skipn app].
  rewrite (after_close_first _ _ Hb). reflexivity.
Qed.

(** A block after a text [a] that holds no opening tag goes the same
    way, and [a] is kept. *)
Lemma replace_think_block a b c :
  ~ occurs think_open a ->
  ~ occurs think_close b ->
  replace_think (a ++ think_open ++ b ++ think_close ++ c)
  = a ++ replace_think c.
Proof.
  intros Ha Hb. induction a as [|x a IH].
  - apply replace_think_head, Hb.
  - rewrite replace_think_unfold. cbn [app].
    assert (match_think (x :: a ++ think_open ++ b ++ think_close ++ c) = None)
      as ->.
    { unfold match_think.
      destruct (starts_with think_open
                  (x :: a ++ think_open ++ b ++ think_close ++ c)) eqn:Hs;
        [|reflexivity].
      exfalso. apply Ha.
      change (x :: a ++ think_open ++ b ++ think_close ++ c)
        with ((x :: a) ++ think_open ++ (b ++ think_close ++ c)) in Hs.
      apply (no_overlap 60%N (tl think_open)) in Hs.
      - destruct Hs as [v Hv]. exists [], v. exact Hv.
      - vm_compute. intuition discriminate.
      - discriminate. }
    f_equal. apply IH. intros H. apply Ha, occurs_tail, H.
Qed.

Lemma isKana_spec c : isKana c = true <-> kana c.
Proof.
  unfold isKana, kana.
  rewrite orb_true_iff, !andb_true_iff, !N.leb_le. reflexivity.
Qed.

Lemma lang_of_japanese s :
  (exists c, In c s /\ kana c) -> lang_of s = js "ja-JP".
Proof.
  intros (c & Hin & Hk). unfold lang_of, hasJapanese.
  assert (existsb isKana s = true) as ->; [|reflexivity].
  apply existsb_exists. exists c. split; [exact Hin|].
  apply isKana_spec, Hk.
Qed.

Lemma lang_of_default s :
  ~ (exists c, In c s /\ kana c) -> lang_of s = js "en-US".
Proof.
  intros H. unfold lang_of, hasJapanese.
  destruct (existsb isKana s) eqn:Hs; [|reflexivity].
  exfalso. apply H. apply existsb_exists in Hs.
  destruct Hs as (c & Hin & Hk). exists c. split; [exact Hin|].
  apply isKana_spec, Hk.
Qed.

End Narration.

(** * The specification, statement by statement *)

Import PhaseProps PhaseInv SimpleProps.

Example sample_discussion_history :
  Phase.history (Phase.st sample_discussion)
  = [user_msg (Phase.consultation_opening (js "reduce onboarding drop-off"));
     assistant_msg (VStr (js "Which users drop off?"))]
  /\ Phase.phase_ (Phase.st sample_discussion) = Phase.HTF_DISCUSSION
  /\ Phase.topic (Phase.st sample_discussion) = js "reduce onboarding drop-off"
  /\ Phase.pending sample_discussion = [].
Proof. vm_compute. repeat split; reflexivity. Qed.

(** ** Whole turns *)

Lemma nth_error_last {A} (l : list A) (x : A) :
  nth_error (l ++ [x]) (length l) = Some x.
Proof. induction l as [|y l IH]; cbn; [reflexivity | exact IH]. Qed.

Lemma remove_nth_last {A} (l : list A) (x : A) :
  remove_nth (length l) (l ++ [x]) = l.
Proof. induction l as [|y l IH]; cbn; [reflexivity | f_equal; exact IH]. Qed.

Lemma phase_run_three E w e1 e2 e3 w1 w2 w3 :
  Phase.step E w e1 = Some w1 -> Phase.step E w1 e2 = Some w2 ->
  Phase.step E w2 e3 = Some w3 -> Phase.run E w [e1; e2; e3] = Some w3.
Proof. intros H1 H2 H3. cbn. rewrite H1, H2, H3. reflexivity. Qed.

(** A turn of the phase variant in the discussion: the world [w1] in
    which the request is out, and the world [w2] once it is settled. *)
Lemma phase_turn E w text o :
  Phase.phase_ (Phase.st w) <> Phase.TOPIC_SETTING ->
  trim text <> [] ->
  Phase.apiKey (Phase.st w) <> [] ->
  exists w1 w2,
    Phase.step E (Phase.set_userInput text w) Phase.click_sendBtn = Some w1
    /\ Phase.step E w1 (Phase.settle (length (Phase.pending w)) o) = Some w2
    /\ Phase.submit E text o w = Some w2
    /\ Phase.st w1 = Phase.set_history
                       (Phase.history (Phase.st w) ++ [user_msg (trim text)])
                       (Phase.st w)
    /\ Phase.fetches w1
       = Phase.fetches w ++ [Phase.fetchGroqCompletion_call (Phase.st w1)]
    /\ Phase.pending w1 = Phase.pending w ++ [Phase.in_handleSend]
    /\ Phase.userInput w2 = []
    /\ Phase.fetches w2 = Phase.fetches w1
    /\ Phase.pending w2 = Phase.pending w
    /\ match fetchGroqCompletion_result o with
       | Normal v =>
           Phase.st w2 = Phase.set_history
                           (Phase.history (Phase.st w1) ++ [assistant_msg v])
                           (Phase.st w1)
           /\ shown (Phase.chatContainer w2)
              = shown (Phase.chatContainer w)
                ++ user_msg (trim text) :: assistant_msg v
                   :: after_reply E (Phase.autoSpeak (Phase.st w)) v
       | Throw err =>
           Phase.st w2 = Phase.st w1
           /\ shown (Phase.chatContainer w2)
              = shown (Phase.chatContainer w)
                ++ [user_msg (trim text); system_msg (error_text E err)]
       end.
Proof.
  intros P T K.
  apply is_empty_false in T, K.
  pose proof (phase_send_turn (Phase.set_userInput text w) T K P) as S.
  cbv zeta in S. cbn [Phase.userInput Phase.set_userInput] in S.
  set (w1 := run_handler Phase.handleSend (Phase.set_userInput text w)) in *.
  destruct S as (S1 & S2 & _ & _ & S5 & _ & _ & S8 & S9 & _).
  cbn [Phase.st Phase.set_userInput Phase.chatContainer Phase.fetches
       Phase.pending] in S1, S5, S8, S9.
  set (w1' := Phase.set_pending
                (remove_nth (length (Phase.pending w)) (Phase.pending w1)) w1).
  exists w1, (run_handler (Phase.resume E Phase.in_handleSend o) w1').
  assert (Phase.step E w1 (Phase.settle (length (Phase.pending w)) o)
          = Some (run_handler (Phase.resume E Phase.in_handleSend o) w1'))
    as Hstep.
  { cbn. rewrite S9, nth_error_last. subst w1'. rewrite S9. reflexivity. }
  split; [reflexivity|]. split; [exact Hstep|].
  split.
  { unfold Phase.submit.
    apply (phase_run_three E w _ _ _ (Phase.set_userInput text w) w1);
      [reflexivity | reflexivity | exact Hstep]. }
  split; [exact S1|]. split; [exact S8|]. split; [exact S9|].
  destruct (fetchGroqCompletion_result o) as [v|err] eqn:Ho.
  - pose proof (phase_resume_success E Phase.in_handleSend o v w1' Ho) as R.
    cbv zeta in R. destruct R as (R1 & R2 & _ & _ & R5 & _ & _ & R8 & R9).
    subst w1'.
    cbn [Phase.st Phase.set_pending Phase.userInput Phase.chatContainer
         Phase.fetches Phase.pending] in R1, R2, R5, R8, R9.
    split; [rewrite R2; exact S2|]. split; [exact R8|].
    split; [rewrite R9, S9; apply remove_nth_last|].
    split; [exact R1|].
    rewrite R5, S5. autorewrite with shown. cbn. rewrite <- app_assoc.
    rewrite S1. reflexivity.
  - pose proof (phase_resume_failure E Phase.in_handleSend o err w1' Ho) as R.
    cbv zeta in R. destruct R as (R1 & R2 & _ & _ & R5 & _ & _ & R8 & R9 & _).
    subst w1'.
    cbn [Phase.st Phase.set_pending Phase.userInput Phase.chatContainer
         Phase.fetches Phase.pending] in R1, R2, R5, R8, R9.
    split; [rewrite R2; exact S2|]. split; [exact R8|].
    split; [rewrite R9, S9; apply remove_nth_last|].
    split; [exact R1|].
    rewrite R5, S5. autorewrite with shown. cbn. rewrite <- app_assoc.
    reflexivity.
Qed.

(** The turn that sets the topic: the request is the opening one. *)
Lemma phase_topic_turn E w text o :
  Phase.phase_ (Phase.st w) = Phase.TOPIC_SETTING ->
  trim text <> [] ->
  Phase.apiKey (Phase.st w) <> [] ->
  exists w1 w2,
    Phase.step E (Phase.set_userInput text w) Phase.click_sendBtn = Some w1
    /\ Phase.step E w1 (Phase.settle (length (Phase.pending w)) o) = Some w2
    /\ Phase.submit E text o w = Some w2
    /\ Phase.st w1 = Phase.set_history
                       (Phase.history (Phase.st w)
                        ++ [user_msg (Phase.consultation_opening (trim text))])
                       (Phase.set_phase Phase.HTF_DISCUSSION
                          (Phase.set_topic (trim text) (Phase.st w)))
    /\ Phase.fetches w1
       = Phase.fetches w ++ [Phase.fetchGroqCompletion_call (Phase.st w1)]
    /\ Phase.fetches w2 = Phase.fetches w1
    /\ Phase.phase_ (Phase.st w2) = Phase.HTF_DISCUSSION
    /\ Phase.topic (Phase.st w2) = trim text.
Proof.
  intros P T K.
  apply is_empty_false in T, K.
  pose proof (phase_send_topic (Phase.set_userInput text w) T K P) as S.
  cbv zeta in S. cbn [Phase.userInput Phase.set_userInput] in S.
  set (w1 := run_handler Phase.handleSend (Phase.set_userInput text w)) in *.
  destruct S as (S1 & S2 & _ & _ & S5 & _ & _ & S8 & S9 & _).
  cbn [Phase.st Phase.set_userInput Phase.chatContainer Phase.fetches
       Phase.pending] in S1, S5, S8, S9.
  set (w1' := Phase.set_pending
                (remove_nth (length (Phase.pending w)) (Phase.pending w1)) w1).
  exists w1, (run_handler (Phase.resume E Phase.in_handleDiscussionStart o) w1').
  assert (Phase.step E w1 (Phase.settle (length (Phase.pending w)) o)
          = Some (run_handler
                    (Phase.resume E Phase.in_handleDiscussionStart o) w1'))
    as Hstep.
  { cbn. rewrite S9, nth_error_last. subst w1'. rewrite S9. reflexivity. }
  split; [reflexivity|]. split; [exact Hstep|].
  split.
  { unfold Phase.submit.
    apply (phase_run_three E w _ _ _ (Phase.set_userInput text w) w1);
      [reflexivity | reflexivity | exact Hstep]. }
  split; [exact S1|]. split; [exact S8|].
  destruct (fetchGroqCompletion_result o) as [v|err] eqn:Ho.
  - pose proof (phase_resume_success E Phase.in_handleDiscussionStart o v w1' Ho)
      as R.
    cbv zeta in R. destruct R as (R1 & _ & _ & _ & _ & _ & _ & R8 & _).
    subst w1'. cbn [Phase.st Phase.set_pending Phase.fetches] in R1, R8.
    split; [exact R8|]. rewrite R1, S1. split; reflexivity.
  - pose proof (phase_resume_failure E Phase.in_handleDiscussionStart o err w1' Ho)
      as R.
    cbv zeta in R. destruct R as (R1 & _ & _ & _ & _ & _ & _ & R8 & _).
    subst w1'. cbn [Phase.st Phase.set_pending Phase.fetches] in R1, R8.
    split; [exact R8|]. rewrite R1, S1. split; reflexivity.
Qed.

Lemma simple_run_three E w e1 e2 e3 w1 w2 w3 :
  Simple.step E w e1 = Some w1 -> Simple.step E w1 e2 = Some w2 ->
  Simple.step E w2 e3 = Some w3 -> Simple.run E w [e1; e2; e3] = Some w3.
Proof. intros H1 H2 H3. cbn. rewrite H1, H2, H3. reflexivity. Qed.

(** A turn of the simple client. *)
Lemma simple_turn E w text o :
  trim text <> [] ->
  Simple.apiKey (Simple.st w) <> [] ->
  exists w1 w2,
    Simple.step E (Simple.set_userInput text w) Simple.click_sendBtn = Some w1
    /\ Simple.step E w1 (Simple.settle o) = Some w2
    /\ Simple.submit E text o w = Some w2
    /\ Simple.st w1 = Simple.set_history
                        (Simple.history (Simple.st w) ++ [user_msg (trim text)])
                        (Simple.st w)
    /\ Simple.fetches w1
       = Simple.fetches w ++ [Simple.fetchGroqCompletion_call (Simple.st w1)]
    /\ Simple.pending w1 = S (Simple.pending w)
    /\ Simple.userInput w2 = []
    /\ Simple.fetches w2 = Simple.fetches w1
    /\ Simple.pending w2 = Simple.pending w
    /\ match fetchGroqCompletion_result o with
       | Normal v =>
           Simple.st w2 = Simple.set_history
                            (Simple.history (Simple.st w1) ++ [assistant_msg v])
                            (Simple.st w1)
           /\ shown (Simple.chatContainer w2)
              = shown (Simple.chatContainer w)
                ++ user_msg (trim text) :: assistant_msg v
                   :: after_reply E (Simple.autoSpeak (Simple.st w)) v
       | Throw err =>
           Simple.st w2 = Simple.st w1
           /\ shown (Simple.chatContainer w2)
              = shown (Simple.chatContainer w)
                ++ [user_msg (trim text); system_msg (error_text E err)]
       end.
Proof.
  intros T K.
  apply is_empty_false in T, K.
  pose proof (simple_send_turn (Simple.set_userInput text w) T K) as S.
  cbv zeta in S. cbn [Simple.userInput Simple.set_userInput] in S.
  set (w1 := run_handler Simple.handleSend (Simple.set_userInput text w)) in *.
  destruct S as (S1 & S2 & _ & S5 & _ & _ & S8 & S9 & _).
  cbn [Simple.st Simple.set_userInput Simple.chatContainer Simple.fetches
       Simple.pending] in S1, S5, S8, S9.
  set (w1' := Simple.set_pending (Simple.pending w) w1).
  exists w1, (run_handler (Simple.handleSend_resume E o) w1').
  assert (Simple.step E w1 (Simple.settle o)
          = Some (run_handler (Simple.handleSend_resume E o) w1')) as Hstep.
  { cbn. rewrite S9. reflexivity. }
  split; [reflexivity|]. split; [exact Hstep|].
  split.
  { unfold Simple.submit.
    apply (simple_run_three E w _ _ _ (Simple.set_userInput text w) w1);
      [reflexivity | reflexivity | exact Hstep]. }
  split; [exact S1|]. split; [exact S8|]. split; [exact S9|].
  destruct (fetchGroqCompletion_result o) as [v|err] eqn:Ho.
  - pose proof (simple_resume_success E o v w1' Ho) as R.
    cbv zeta in R. destruct R as (R1 & R2 & _ & R5 & _ & _ & R8 & R9).
    subst w1'.
    cbn [Simple.st Simple.set_pending Simple.userInput Simple.chatContainer
         Simple.fetches Simple.pending] in R1, R2, R5, R8, R9.
    split; [rewrite R2; exact S2|]. split; [exact R8|].
    split; [exact R9|]. split; [exact R1|].
    rewrite R5, S5. autorewrite with shown. cbn. rewrite <- app_assoc.
    rewrite S1. reflexivity.
  - pose proof (simple_resume_failure E o err w1' Ho) as R.
    cbv zeta in R. destruct R as (R1 & R2 & _ & R5 & _ & _ & R8 & R9 & _).
    subst w1'.
    cbn [Simple.st Simple.set_pending Simple.userInput Simple.chatContainer
         Simple.fetches Simple.pending] in R1, R2, R5, R8, R9.
    split; [rewrite R2; exact S2|]. split; [exact R8|].
    split; [exact R9|]. split; [exact R1|].
    rewrite R5, S5. autorewrite with shown. cbn. rewrite <- app_assoc.
    reflexivity.
Qed.

(** ** Submissions that are refused *)

(** C9.  In both variants a press on send (the button or the Enter key)
    whose input is empty after trimming leaves the whole world as it is:
    no entry is added to the history, no request is sent, nothing is
    shown or alerted.  A press with a non-empty input while no API key is
    set raises one alert and nothing else: the state (and so the
    history) is unchanged, no request is sent and none is pending. *)
Theorem refused_send_is_silent_or_alerts (E : engine) :
  (forall (w : Phase.world) (e : Phase.event),
      PhaseEffect.is_send e = true ->
      (trim (Phase.userInput w) = [] -> Phase.step E w e = Some w)
      /\ (trim (Phase.userInput w) <> [] ->
          Phase.apiKey (Phase.st w) = [] ->
          exists w',
            Phase.step E w e = Some w'
            /\ Phase.alerts w' = Phase.alerts w ++ [js "Groq APIキーを設定してください。"]
            /\ Phase.st w' = Phase.st w
            /\ Phase.history (Phase.st w') = Phase.history (Phase.st w)
            /\ Phase.fetches w' = Phase.fetches w
            /\ Phase.pending w' = Phase.pending w
            /\ Phase.chatContainer w' = Phase.chatContainer w))
  /\ (forall (w : Simple.world) (e : Simple.event),
         SimpleEffect.is_send e = true ->
         (trim (Simple.userInput w) = [] -> Simple.step E w e = Some w)
         /\ (trim (Simple.userInput w) <> [] ->
             Simple.apiKey (Simple.st w) = [] ->
             exists w',
               Simple.step E w e = Some w'
               /\ Simple.alerts w' = Simple.alerts w ++ [js "Please set your Groq API Key first."]
               /\ Simple.st w' = Simple.st w
               /\ Simple.history (Simple.st w') = Simple.history (Simple.st w)
               /\ Simple.fetches w' = Simple.fetches w
               /\ Simple.pending w' = Simple.pending w
               /\ Simple.chatContainer w' = Simple.chatContainer w)).
Proof.
  split.
  - intros w e He. split.
    + intros T. apply is_empty_true in T.
      destruct e; try discriminate; cbn;
        rewrite (phase_send_blank w T); reflexivity.
    + intros T K. apply is_empty_false in T. apply is_empty_true in K.
      exists (Phase.push_alert (js "Groq APIキーを設定してください。") w).
      split; [|repeat split].
      destruct e; try discriminate; cbn;
        rewrite (phase_send_keyless w T K); reflexivity.
  - intros w e He. split.
    + intros T. apply is_empty_true in T.
      destruct e; try discriminate; cbn;
        rewrite (simple_send_blank w T); reflexivity.
    + intros T K. apply is_empty_false in T. apply is_empty_true in K.
      exists (Simple.push_alert (js "Please set your Groq API Key first.") w).
      split; [|repeat split].
      destruct e; try discriminate; cbn;
        rewrite (simple_send_keyless w T K); reflexivity.
Qed.

(** A blank press in the sample discussion, and a press without a key on
    freshly loaded pages. *)
Lemma refused_send_sample :
  Phase.step sample_engine (Phase.set_userInput (js "   ") sample_discussion)
    Phase.click_sendBtn
  = Some (Phase.set_userInput (js "   ") sample_discussion)
  /\ (exists w',
         Phase.step sample_engine
           (Phase.set_userInput (js "hello") (Phase.init empty_storage))
           Phase.keydown_Enter_userInput = Some w'
         /\ Phase.alerts w' = [js "Groq APIキーを設定してください。"]
         /\ Phase.fetches w' = [])
  /\ (exists w',
         Simple.step sample_engine
           (Simple.set_userInput (js "hello") (Simple.init empty_storage))
           Simple.click_sendBtn = Some w'
         /\ Simple.alerts w' = [js "Please set your Groq API Key first."]
         /\ Simple.fetches w' = []).
Proof.
  destruct (refused_send_is_silent_or_alerts sample_engine) as [HP HS].
  split; [|split].
  - apply (HP (Phase.set_userInput (js "   ") sample_discussion)
              Phase.click_sendBtn); reflexivity.
  - destruct (HP (Phase.set_userInput (js "hello") (Phase.init empty_storage))
                 Phase.keydown_Enter_userInput eq_refl) as [_ H].
    destruct H as (w' & H1 & H2 & _ & _ & H5 & _).
    + vm_compute. discriminate.
    + reflexivity.
    + exists w'. split; [exact H1|]. split; [exact H2 | exact H5].
  - destruct (HS (Simple.set_userInput (js "hello") (Simple.init empty_storage))
                 Simple.click_sendBtn eq_refl) as [_ H].
    destruct H as (w' & H1 & H2 & _ & _ & H5 & _).
    + vm_compute. discriminate.
    + reflexivity.
    + exists w'. split; [exact H1|]. split; [exact H2 | exact H5].
Defined.

(** ** A turn of the discussion *)

(** C4.  In the discussion (for the simple client: always), with an API
    key set, a submission whose trimmed text is not empty appends to the
    history this text as one user message and then, when the completion
    returns a reply, that reply as one assistant message, in this order,
    and nothing else; when the completion raises, the user message is
    all that is appended. *)
Theorem turn_appends_user_then_assistant (E : engine) :
  (forall (w : Phase.world) (text : jsstring) (o : fetch_outcome),
      Phase.phase_ (Phase.st w) = Phase.HTF_DISCUSSION ->
      trim text <> [] ->
      Phase.apiKey (Phase.st w) <> [] ->
      exists w',
        Phase.submit E text o w = Some w'
        /\ Phase.history (Phase.st w')
           = Phase.history (Phase.st w)
             ++ user_msg (trim text)
                :: match fetchGroqCompletion_result o with
                   | Normal v => [assistant_msg v]
                   | Throw _ => []
                   end)
  /\ (forall (w : Simple.world) (text : jsstring) (o : fetch_outcome),
         trim text <> [] ->
         Simple.apiKey (Simple.st w) <> [] ->
         exists w',
           Simple.submit E text o w = Some w'
           /\ Simple.history (Simple.st w')
              = Simple.history (Simple.st w)
                ++ user_msg (trim text)
                   :: match fetchGroqCompletion_result o with
                      | Normal v => [assistant_msg v]
                      | Throw _ => []
                      end)
  /\ (forall text, fetchGroqCompletion_result (reply text) = Normal (VStr text)).
Proof.
  split; [|split].
  - intros w text o P T K.
    assert (Phase.phase_ (Phase.st w) <> Phase.TOPIC_SETTING) as P'
      by (rewrite P; discriminate).
    destruct (phase_turn E w text o P' T K)
      as (w1 & w2 & _ & _ & Hsub & S1 & _ & _ & _ & _ & _ & R).
    exists w2. split; [exact Hsub|].
    destruct (fetchGroqCompletion_result o) as [v|err];
      destruct R as [R _]; rewrite R, S1; cbn.
    + rewrite <- app_assoc. reflexivity.
    + reflexivity.
  - intros w text o T K.
    destruct (simple_turn E w text o T K)
      as (w1 & w2 & _ & _ & Hsub & S1 & _ & _ & _ & _ & _ & R).
    exists w2. split; [exact Hsub|].
    destruct (fetchGroqCompletion_result o) as [v|err];
      destruct R as [R _]; rewrite R, S1; cbn.
    + rewrite <- app_assoc. reflexivity.
    + reflexivity.
  - intros text. reflexivity.
Qed.

(** An answered turn in each of the sample sessions. *)
Lemma turn_appends_sample :
  (exists w',
      Phase.submit sample_engine (js " What comes first? ")
        (reply (js "The [SCOPE].")) sample_discussion = Some w'
      /\ Phase.history (Phase.st w')
         = Phase.history (Phase.st sample_discussion)
           ++ [user_msg (js "What comes first?");
               assistant_msg (VStr (js "The [SCOPE]."))])
  /\ (exists w',
         Simple.submit sample_engine (js "And you?") invalid_api_key sample_chat
         = Some w'
         /\ Simple.history (Simple.st w')
            = Simple.history (Simple.st sample_chat)
              ++ [user_msg (js "And you?")]).
Proof.
  destruct (turn_appends_user_then_assistant sample_engine) as (HP & HS & _).
  split.
  - apply (HP sample_discussion (js " What comes first? ")
              (reply (js "The [SCOPE]."))).
    + reflexivity.
    + vm_compute. discriminate.
    + vm_compute. discriminate.
  - apply (HS sample_chat (js "And you?") invalid_api_key).
    + vm_compute. discriminate.
    + vm_compute. discriminate.
Defined.

(** ** A completion that fails *)

Lemma non_success_raises body :
  exists err, fetchGroqCompletion_result (FetchResponse false body) = Throw err.
Proof.
  destruct body as [m | err]; cbn; [eexists; reflexivity|].
  destruct (get err p_error) as [e|t]; cbn; [|eexists; reflexivity].
  destruct e as [| |b|q|s|items|props]; cbn; try (eexists; reflexivity).
  match goal with
  | |- context [find ?f props] => destruct (find f props)
  end; cbn; eexists; reflexivity.
Qed.

(** A success body without the content field is not a failure for the
    scripts: the reply is [undefined], and it is stored as the
    assistant's message.  With narration on, narrating it raises, so an
    error is shown after the entry was stored; with narration off
    nothing tells the user. *)
Lemma missing_content_is_stored :
  fetchGroqCompletion_result reply_without_content = Normal VUndefined
  /\ option_map (fun w => Phase.history (Phase.st w))
       (Phase.submit sample_engine (js "hello") reply_without_content
          sample_discussion)
     = Some (Phase.history (Phase.st sample_discussion)
             ++ [user_msg (js "hello"); assistant_msg VUndefined])
  /\ option_map (fun w => shown (Phase.chatContainer w))
       (Phase.submit sample_engine (js "hello") reply_without_content
          sample_discussion)
     = Some (shown (Phase.chatContainer sample_discussion)
             ++ [user_msg (js "hello"); assistant_msg VUndefined;
                 system_msg (js "Error: Cannot read properties of undefined (reading 'replace')")])
  /\ option_map (fun w => (Simple.history (Simple.st w),
                           shown (Simple.chatContainer w)))
       (Simple.run sample_engine sample_chat
          [Simple.change_autoSpeakToggle false;
           Simple.input_userInput (js "hello");
           Simple.click_sendBtn;
           Simple.settle reply_without_content])
     = Some (Simple.history (Simple.st sample_chat)
             ++ [user_msg (js "hello"); assistant_msg VUndefined],
             shown (Simple.chatContainer sample_chat)
             ++ [user_msg (js "hello"); assistant_msg VUndefined]).
Proof. vm_compute. repeat split; reflexivity. Qed.

(** C1, amended.  In the discussion (for the simple client: always), with
    an API key set and a non-empty trimmed text, when the completion
    raises [err] -- which it does whenever [fetch] rejects, the body
    cannot be parsed, the status is not a success, or the body of a
    success has no [choices] -- the turn shows
    exactly one more system message, ["Error: "] followed by the
    message of [err], after the user's text; the history stays as it was
    when the request was sent, that is the history before the submission
    followed by the user message of this turn, with no assistant entry;
    the phase and the topic are unchanged, the input is cleared, and a
    next non-empty submission is accepted. *)
Theorem failed_completion_shows_one_error (E : engine) :
  (forall (w : Phase.world) (text : jsstring) (o : fetch_outcome) err,
      Phase.phase_ (Phase.st w) = Phase.HTF_DISCUSSION ->
      trim text <> [] ->
      Phase.apiKey (Phase.st w) <> [] ->
      fetchGroqCompletion_result o = Throw err ->
      exists w1 w2,
        Phase.step E (Phase.set_userInput text w) Phase.click_sendBtn = Some w1
        /\ Phase.fetches w1
           = Phase.fetches w ++ [Phase.fetchGroqCompletion_call (Phase.st w1)]
        /\ Phase.step E w1 (Phase.settle (length (Phase.pending w)) o) = Some w2
        /\ Phase.submit E text o w = Some w2
        /\ Phase.history (Phase.st w2) = Phase.history (Phase.st w1)
        /\ Phase.history (Phase.st w1)
           = Phase.history (Phase.st w) ++ [user_msg (trim text)]
        /\ shown (Phase.chatContainer w2)
           = shown (Phase.chatContainer w)
             ++ [user_msg (trim text);
                 system_msg (js "Error: " ++ message_of E err)]
        /\ count_role system (shown (Phase.chatContainer w2))
           = S (count_role system (shown (Phase.chatContainer w)))
        /\ Phase.phase_ (Phase.st w2) = Phase.HTF_DISCUSSION
        /\ Phase.topic (Phase.st w2) = Phase.topic (Phase.st w)
        /\ Phase.userInput w2 = []
        /\ forall next, trim next <> [] ->
             PhaseEffect.accepted (Phase.set_userInput next w2)
               Phase.click_sendBtn = true)
  /\ (forall (w : Simple.world) (text : jsstring) (o : fetch_outcome) err,
         trim text <> [] ->
         Simple.apiKey (Simple.st w) <> [] ->
         fetchGroqCompletion_result o = Throw err ->
         exists w1 w2,
           Simple.step E (Simple.set_userInput text w) Simple.click_sendBtn
           = Some w1
           /\ Simple.fetches w1
              = Simple.fetches w
                ++ [Simple.fetchGroqCompletion_call (Simple.st w1)]
           /\ Simple.step E w1 (Simple.settle o) = Some w2
           /\ Simple.submit E text o w = Some w2
           /\ Simple.history (Simple.st w2) = Simple.history (Simple.st w1)
           /\ Simple.history (Simple.st w1)
              = Simple.history (Simple.st w) ++ [user_msg (trim text)]
           /\ shown (Simple.chatContainer w2)
              = shown (Simple.chatContainer w)
                ++ [user_msg (trim text);
                    system_msg (js "Error: " ++ message_of E err)]
           /\ count_role system (shown (Simple.chatContainer w2))
              = S (count_role system (shown (Simple.chatContainer w)))
           /\ Simple.userInput w2 = []
           /\ forall next, trim next <> [] ->
                SimpleEffect.accepted (Simple.set_userInput next w2)
                  Simple.click_sendBtn = true)
  /\ (forall m, fetchGroqCompletion_result (FetchRejected m)
                = Throw (HostError m))
  /\ (forall ok m, fetchGroqCompletion_result (FetchResponse ok (JsonRejected m))
                   = Throw (HostError m))
  /\ (forall body, exists err,
         fetchGroqCompletion_result (FetchResponse false body) = Throw err)
  /\ (forall props,
         find (fun p => jsstring_eqb (fst p) (js "choices")) props = None ->
         fetchGroqCompletion_result (FetchResponse true (JsonParsed (VObj props)))
         = Throw (TypeError_ (ReadPropertyOf VUndefined (js "0"))))
  /\ fetchGroqCompletion_result invalid_api_key
     = Throw (Error_ (VStr (js "invalid_api_key")))
  /\ js "Error: " ++ message_of E (Error_ (VStr (js "invalid_api_key")))
     = js "Error: invalid_api_key".
Proof.
  split; [|split; [|split; [|split; [|split; [|split; [|split]]]]]].
  - intros w text o err P T K Ho.
    assert (Phase.phase_ (Phase.st w) <> Phase.TOPIC_SETTING) as P'
      by (rewrite P; discriminate).
    destruct (phase_turn E w text o P' T K)
      as (w1 & w2 & H1 & H2 & Hsub & S1 & S8 & _ & U & _ & _ & R).
    rewrite Ho in R. destruct R as [R1 R5].
    exists w1, w2.
    split; [exact H1|]. split; [exact S8|]. split; [exact H2|].
    split; [exact Hsub|]. split; [rewrite R1; reflexivity|].
    split; [rewrite S1; reflexivity|]. split; [exact R5|].
    split; [rewrite R5, count_role_app; cbn; lia|].
    split; [rewrite R1, S1; exact P|].
    split; [rewrite R1, S1; reflexivity|].
    split; [exact U|].
    intros next Hn. unfold PhaseEffect.accepted. cbn.
    apply is_empty_false in Hn, K. rewrite Hn, R1, S1. cbn. rewrite K.
    reflexivity.
  - intros w text o err T K Ho.
    destruct (simple_turn E w text o T K)
      as (w1 & w2 & H1 & H2 & Hsub & S1 & S8 & _ & U & _ & _ & R).
    rewrite Ho in R. destruct R as [R1 R5].
    exists w1, w2.
    split; [exact H1|]. split; [exact S8|]. split; [exact H2|].
    split; [exact Hsub|]. split; [rewrite R1; reflexivity|].
    split; [rewrite S1; reflexivity|]. split; [exact R5|].
    split; [rewrite R5, count_role_app; cbn; lia|].
    split; [exact U|].
    intros next Hn. unfold SimpleEffect.accepted. cbn.
    apply is_empty_false in Hn, K. rewrite Hn, R1, S1. cbn. rewrite K.
    reflexivity.
  - reflexivity.
  - intros [|] m; reflexivity.
  - apply non_success_raises.
  - intros props H. unfold fetchGroqCompletion_result, bindc, get.
    change (key_name p_choices) with (js "choices"). rewrite H. reflexivity.
  - reflexivity.
  - reflexivity.
Qed.

(** The endpoint answers the sample discussion with the error body
    [{ error: { message: 'invalid_api_key' } }]. *)
Lemma failed_completion_sample :
  exists w1 w2,
    Phase.step sample_engine
      (Phase.set_userInput (js "hello") sample_discussion) Phase.click_sendBtn
    = Some w1
    /\ Phase.step sample_engine w1 (Phase.settle 0 invalid_api_key) = Some w2
    /\ length (Phase.history (Phase.st w1)) = 3
    /\ length (Phase.history (Phase.st w2)) = 3
    /\ shown (Phase.chatContainer w2)
       = shown (Phase.chatContainer sample_discussion)
         ++ [user_msg (js "hello"); system_msg (js "Error: invalid_api_key")]
    /\ Phase.phase_ (Phase.st w2) = Phase.HTF_DISCUSSION.
Proof.
  destruct (failed_completion_shows_one_error sample_engine) as (HP & _).
  destruct (HP sample_discussion (js "hello") invalid_api_key
               (Error_ (VStr (js "invalid_api_key"))))
    as (w1 & w2 & H1 & _ & H2 & _ & H4 & H5 & H6 & _ & H8 & _).
  - reflexivity.
  - vm_compute. discriminate.
  - vm_compute. discriminate.
  - reflexivity.
  - exists w1, w2. split; [exact H1|]. split; [exact H2|].
    split; [rewrite H5; reflexivity|].
    split; [rewrite H4, H5; reflexivity|].
    split; [exact H6 | exact H8].
Defined.

(** ** Requests per turn *)

(** On a freshly loaded page with a stored key, the submission that sets
    the topic sends one request, not two: the announcement and the
    notice are shown without any call, and the opening message is sent
    by the only call of that turn. *)
Lemma topic_turn_sends_one_request :
  Phase.phase_ (Phase.st (Phase.init stored_key)) = Phase.TOPIC_SETTING
  /\ Phase.fetches (Phase.init stored_key) = []
  /\ option_map (fun w => (Phase.phase_ (Phase.st w), length (Phase.fetches w)))
       (Phase.run sample_engine (Phase.init stored_key)
          [Phase.input_userInput (js "reduce onboarding drop-off");
           Phase.click_sendBtn])
     = Some (Phase.HTF_DISCUSSION, 1)
  /\ option_map (fun w => (Phase.phase_ (Phase.st w), length (Phase.fetches w)))
       (Phase.submit sample_engine (js "reduce onboarding drop-off")
          (reply (js "Which users drop off?")) (Phase.init stored_key))
     = Some (Phase.HTF_DISCUSSION, 1).
Proof. vm_compute. repeat split; reflexivity. Qed.

(** C3, amended.  Every step sends exactly one request when it is a
    press on send that passes both guards (non-empty trimmed input, API
    key set) and none otherwise; so every accepted turn makes exactly one
    call to the endpoint, in the discussion and for the submission that
    sets the topic alike.  In the latter the announcement and the notice
    are only shown, and the single call carries the opening message. *)
Theorem one_request_per_accepted_send (E : engine) :
  (forall (w : Phase.world) (e : Phase.event) (w' : Phase.world),
      Phase.step E w e = Some w' ->
      length (Phase.fetches w')
      = length (Phase.fetches w) + (if PhaseEffect.accepted w e then 1 else 0))
  /\ (forall (w : Phase.world) (text : jsstring) (o : fetch_outcome),
         trim text <> [] ->
         Phase.apiKey (Phase.st w) <> [] ->
         exists w',
           Phase.submit E text o w = Some w'
           /\ length (Phase.fetches w') = S (length (Phase.fetches w)))
  /\ (forall (w : Phase.world) (text : jsstring) (o : fetch_outcome),
         Phase.phase_ (Phase.st w) = Phase.TOPIC_SETTING ->
         trim text <> [] ->
         Phase.apiKey (Phase.st w) <> [] ->
         exists w' c,
           Phase.submit E text o w = Some w'
           /\ Phase.phase_ (Phase.st w') = Phase.HTF_DISCUSSION
           /\ Phase.fetches w' = Phase.fetches w ++ [c]
           /\ req_messages (call_body c)
              = system_msg (Phase.systemContent (trim text))
                :: Phase.history (Phase.st w)
                ++ [user_msg (Phase.consultation_opening (trim text))])
  /\ (forall (w : Simple.world) (e : Simple.event) (w' : Simple.world),
         Simple.step E w e = Some w' ->
         length (Simple.fetches w')
         = length (Simple.fetches w)
           + (if SimpleEffect.accepted w e then 1 else 0))
  /\ (forall (w : Simple.world) (text : jsstring) (o : fetch_outcome),
         trim text <> [] ->
         Simple.apiKey (Simple.st w) <> [] ->
         exists w',
           Simple.submit E text o w = Some w'
           /\ length (Simple.fetches w') = S (length (Simple.fetches w))).
Proof.
  split; [|split; [|split; [|split]]].
  - intros w e w' H. rewrite (phase_fetches_step E w e w' H), length_app.
    destruct (PhaseEffect.accepted w e); reflexivity.
  - intros w text o T K.
    destruct (Phase.phase_ (Phase.st w)) eqn:P.
    + destruct (phase_topic_turn E w text o P T K)
        as (w1 & w2 & _ & _ & Hsub & _ & S8 & R8 & _).
      exists w2. split; [exact Hsub|].
      rewrite R8, S8, length_app. cbn. lia.
    + assert (Phase.phase_ (Phase.st w) <> Phase.TOPIC_SETTING) as P'
        by (rewrite P; discriminate).
      destruct (phase_turn E w text o P' T K)
        as (w1 & w2 & _ & _ & Hsub & _ & S8 & _ & _ & R8 & _).
      exists w2. split; [exact Hsub|].
      rewrite R8, S8, length_app. cbn. lia.
    + assert (Phase.phase_ (Phase.st w) <> Phase.TOPIC_SETTING) as P'
        by (rewrite P; discriminate).
      destruct (phase_turn E w text o P' T K)
        as (w1 & w2 & _ & _ & Hsub & _ & S8 & _ & _ & R8 & _).
      exists w2. split; [exact Hsub|].
      rewrite R8, S8, length_app. cbn. lia.
  - intros w text o P T K.
    destruct (phase_topic_turn E w text o P T K)
      as (w1 & w2 & _ & _ & Hsub & S1 & S8 & R8 & Hp & _).
    exists w2, (Phase.fetchGroqCompletion_call (Phase.st w1)).
    split; [exact Hsub|]. split; [exact Hp|].
    split; [rewrite R8; exact S8|].
    rewrite S1. reflexivity.
  - intros w e w' H. rewrite (simple_fetches_step E w e w' H), length_app.
    destruct (SimpleEffect.accepted w e); reflexivity.
  - intros w text o T K.
    destruct (simple_turn E w text o T K)
      as (w1 & w2 & _ & _ & Hsub & _ & S8 & _ & _ & R8 & _).
    exists w2. split; [exact Hsub|].
    rewrite R8, S8, length_app. cbn. lia.
Qed.

(** The turn that sets the topic on a freshly loaded page, and a turn of
    the simple client. *)
Lemma one_request_sample :
  (exists w' c,
      Phase.submit sample_engine (js "reduce onboarding drop-off")
        (reply (js "Which users drop off?")) (Phase.init stored_key) = Some w'
      /\ Phase.phase_ (Phase.st w') = Phase.HTF_DISCUSSION
      /\ Phase.fetches w' = [c]
      /\ req_messages (call_body c)
         = [system_msg (Phase.systemContent (js "reduce onboarding drop-off"));
            user_msg (Phase.consultation_opening
                        (js "reduce onboarding drop-off"))])
  /\ (exists w',
         Simple.submit sample_engine (js "Hi") (reply (js "Hello!"))
           (Simple.init stored_key) = Some w'
         /\ length (Simple.fetches w') = 1).
Proof.
  destruct (one_request_per_accepted_send sample_engine)
    as (_ & _ & HT & _ & HS).
  split.
  - apply (HT (Phase.init stored_key) (js "reduce onboarding drop-off")
              (reply (js "Which users drop off?"))).
    + reflexivity.
    + vm_compute. discriminate.
    + vm_compute. discriminate.
  - apply (HS (Simple.init stored_key) (js "Hi") (reply (js "Hello!"))).
    + vm_compute. discriminate.
    + vm_compute. discriminate.
Defined.

(** ** The topic *)

(** C6.  In every world a session of the phase variant reaches, while
    the phase is topic setting the topic is the empty string and the
    history is empty: it holds no assistant message, and no message at
    all; no request has been sent and none is pending. *)
Theorem topic_setting_has_no_topic_no_history (E : engine) (w : Phase.world) :
  Phase.reachable E w ->
  Phase.phase_ (Phase.st w) = Phase.TOPIC_SETTING ->
  Phase.topic (Phase.st w) = []
  /\ count_role assistant (Phase.history (Phase.st w)) = 0
  /\ Phase.history (Phase.st w) = []
  /\ Phase.fetches w = []
  /\ Phase.pending w = [].
Proof.
  intros R P.
  destruct (phase_topic_setting_blank E w R P) as (Ht & Hh & Hp & Hf).
  rewrite Hh. repeat split; assumption.
Qed.

Lemma keyless_world_reachable :
  Phase.reachable sample_engine
    (Phase.push_alert (js "Groq APIキーを設定してください。")
       (Phase.set_userInput (js "first") (Phase.init empty_storage))).
Proof.
  eapply Phase.reachable_step
    with (w := Phase.set_userInput (js "first") (Phase.init empty_storage))
         (e := Phase.click_sendBtn).
  - eapply Phase.reachable_step
      with (e := Phase.input_userInput (js "first")).
    + apply Phase.reachable_init.
    + reflexivity.
  - reflexivity.
Defined.

(** A page without a key on which a first text was sent in vain. *)
Lemma topic_setting_sample :
  Phase.topic
    (Phase.st (Phase.push_alert (js "Groq APIキーを設定してください。")
                 (Phase.set_userInput (js "first") (Phase.init empty_storage))))
  = []
  /\ Phase.history
       (Phase.st (Phase.push_alert (js "Groq APIキーを設定してください。")
                    (Phase.set_userInput (js "first")
                       (Phase.init empty_storage))))
     = [].
Proof.
  destruct (topic_setting_has_no_topic_no_history sample_engine _
              keyless_world_reachable eq_refl) as (H1 & _ & H3 & _).
  split; [exact H1 | exact H3].
Defined.

Lemma phase_run_reachable E w es w' :
  Phase.reachable E w -> Phase.run E w es = Some w' -> Phase.reachable E w'.
Proof.
  revert w. induction es as [|e es IH]; intros w R H; cbn in H.
  - injection H as <-. exact R.
  - destruct (Phase.step E w e) as [w1|] eqn:Hs; [|discriminate].
    apply (IH w1); [|exact H]. eapply Phase.reachable_step; eassumption.
Qed.

Lemma phase_run_stays E w es w' :
  Phase.phase_ (Phase.st w) <> Phase.TOPIC_SETTING ->
  Phase.run E w es = Some w' ->
  Phase.phase_ (Phase.st w') = Phase.phase_ (Phase.st w)
  /\ Phase.topic (Phase.st w') = Phase.topic (Phase.st w).
Proof.
  revert w. induction es as [|e es IH]; intros w P H; cbn in H.
  - injection H as <-. split; reflexivity.
  - destruct (Phase.step E w e) as [w1|] eqn:Hs; [|discriminate].
    destruct (phase_topic_stays E w e w1 Hs P) as [Hp Ht].
    assert (Phase.phase_ (Phase.st w1) <> Phase.TOPIC_SETTING) as P1
      by congruence.
    destruct (IH w1 P1 H) as [Hp' Ht']. split; congruence.
Qed.

(** A run that has left topic setting did so at the first accepted press
    on send, and its topic is the text sent then. *)
Lemma phase_first_accepted E w es w' :
  Phase.reachable E w ->
  Phase.phase_ (Phase.st w) = Phase.TOPIC_SETTING ->
  Phase.run E w es = Some w' ->
  Phase.phase_ (Phase.st w') <> Phase.TOPIC_SETTING ->
  exists es1 e es2 w1,
    es = es1 ++ e :: es2
    /\ Phase.run E w es1 = Some w1
    /\ Phase.phase_ (Phase.st w1) = Phase.TOPIC_SETTING
    /\ PhaseEffect.accepted w1 e = true
    /\ Phase.phase_ (Phase.st w') = Phase.HTF_DISCUSSION
    /\ Phase.topic (Phase.st w') = trim (Phase.userInput w1)
    /\ forall es0 e0 es0' w0,
         es1 = es0 ++ e0 :: es0' ->
         Phase.run E w es0 = Some w0 ->
         PhaseEffect.accepted w0 e0 = false.
Proof.
  revert w. induction es as [|e es IH]; intros w R P H P'; cbn in H.
  - injection H as <-. contradiction.
  - destruct (Phase.step E w e) as [w1|] eqn:Hs; [|discriminate].
    pose proof (phase_topic_set E w e w1 Hs R P) as T.
    destruct (PhaseEffect.accepted w e) eqn:Ha.
    + destruct T as [Tp Tt].
      assert (Phase.phase_ (Phase.st w1) <> Phase.TOPIC_SETTING) as P1
        by (rewrite Tp; discriminate).
      destruct (phase_run_stays E w1 es w' P1 H) as [Hp Ht].
      exists [], e, es, w. repeat split; try assumption; try congruence.
      intros es0 e0 es0' w0 Hes. destruct es0; discriminate.
    + destruct T as [Tp Tt].
      assert (Phase.reachable E w1) as R1
        by (eapply Phase.reachable_step; eassumption).
      destruct (IH w1 R1 Tp H P')
        as (es1 & e1 & es2 & w2 & -> & Hr & Hp & Hacc & Hd & Ht & Hfirst).
      exists (e :: es1), e1, es2, w2.
      split; [reflexivity|]. split; [cbn; rewrite Hs; exact Hr|].
      split; [exact Hp|]. split; [exact Hacc|]. split; [exact Hd|].
      split; [exact Ht|].
      intros es0 e0 es0' w0 Hes Hrun. destruct es0 as [|x es0].
      * cbn in Hes, Hrun. injection Hes as <- _. injection Hrun as <-.
        exact Ha.
      * cbn in Hes. injection Hes as -> Hes. cbn in Hrun. rewrite Hs in Hrun.
        eapply Hfirst; eassumption.
Qed.

(** On a page without a key the first non-empty submission is refused
    with an alert and the phase stays; once a key is saved, the second
    one sets the topic. *)
Lemma keyless_first_submission_sets_no_topic :
  trim (js "first") <> []
  /\ option_map (fun w => (Phase.phase_ (Phase.st w), Phase.topic (Phase.st w)))
       (Phase.run sample_engine (Phase.init empty_storage)
          [Phase.input_userInput (js "first"); Phase.click_sendBtn])
     = Some (Phase.TOPIC_SETTING, [])
  /\ option_map (fun w => (Phase.phase_ (Phase.st w), Phase.topic (Phase.st w)))
       (Phase.run sample_engine (Phase.init empty_storage)
          [Phase.input_userInput (js "first"); Phase.click_sendBtn;
           Phase.input_apiKeyInput (js "gsk_sample"); Phase.click_saveKeyBtn;
           Phase.input_userInput (js "second"); Phase.click_sendBtn])
     = Some (Phase.HTF_DISCUSSION, js "second").
Proof.
  split; [vm_compute; discriminate|]. vm_compute. split; reflexivity.
Qed.

(** C5, amended.  In the phase variant a step leaves topic setting
    exactly when it is a press on send that passes both guards
    (non-empty trimmed input and an API key set), and it then stores the
    trimmed input as the topic; afterwards no step changes the phase or
    the topic.  So a session leaves topic setting at most once, at its
    first accepted submission, whose text is the topic for the rest of
    the session. *)
Theorem topic_set_once_by_first_accepted_send (E : engine) :
  (forall (w : Phase.world) (e : Phase.event) (w' : Phase.world),
      Phase.reachable E w ->
      Phase.step E w e = Some w' ->
      Phase.phase_ (Phase.st w) = Phase.TOPIC_SETTING ->
      if PhaseEffect.accepted w e
      then Phase.phase_ (Phase.st w') = Phase.HTF_DISCUSSION
           /\ Phase.topic (Phase.st w') = trim (Phase.userInput w)
      else Phase.phase_ (Phase.st w') = Phase.TOPIC_SETTING
           /\ Phase.topic (Phase.st w') = Phase.topic (Phase.st w))
  /\ (forall (w : Phase.world) (e : Phase.event) (w' : Phase.world),
         Phase.step E w e = Some w' ->
         Phase.phase_ (Phase.st w) <> Phase.TOPIC_SETTING ->
         Phase.phase_ (Phase.st w') = Phase.phase_ (Phase.st w)
         /\ Phase.topic (Phase.st w') = Phase.topic (Phase.st w))
  /\ (forall (ls : localStorage) (es : list Phase.event),
         PhaseEffect.transitions E (Phase.init ls) es <= 1)
  /\ (forall (ls : localStorage) (es : list Phase.event) (w : Phase.world),
         Phase.run E (Phase.init ls) es = Some w ->
         Phase.phase_ (Phase.st w) <> Phase.TOPIC_SETTING ->
         exists es1 e es2 w1,
           es = es1 ++ e :: es2
           /\ Phase.run E (Phase.init ls) es1 = Some w1
           /\ Phase.phase_ (Phase.st w1) = Phase.TOPIC_SETTING
           /\ PhaseEffect.accepted w1 e = true
           /\ Phase.phase_ (Phase.st w) = Phase.HTF_DISCUSSION
           /\ Phase.topic (Phase.st w) = trim (Phase.userInput w1)
           /\ forall es0 e0 es0' w0,
                es1 = es0 ++ e0 :: es0' ->
                Phase.run E (Phase.init ls) es0 = Some w0 ->
                PhaseEffect.accepted w0 e0 = false).
Proof.
  split; [|split; [|split]].
  - intros w e w' R H P. exact (phase_topic_set E w e w' H R P).
  - intros w e w' H P. exact (phase_topic_stays E w e w' H P).
  - intros ls es. apply phase_transitions_once.
  - intros ls es w H P.
    apply (phase_first_accepted E (Phase.init ls) es w);
      [apply Phase.reachable_init | reflexivity | exact H | exact P].
Qed.

(** The sample discussion: its topic is the text of the first accepted
    submission, and a later turn leaves it alone. *)
Lemma topic_set_sample :
  (Phase.phase_ (Phase.st sample_discussion) = Phase.HTF_DISCUSSION
   /\ Phase.topic (Phase.st sample_discussion)
      = js "reduce onboarding drop-off")
  /\ (Phase.phase_
        (Phase.st (run_handler Phase.handleSend
                     (Phase.set_userInput (js "another topic")
                        sample_discussion)))
      = Phase.HTF_DISCUSSION
      /\ Phase.topic
           (Phase.st (run_handler Phase.handleSend
                        (Phase.set_userInput (js "another topic")
                           sample_discussion)))
         = js "reduce onboarding drop-off").
Proof.
  destruct (topic_set_once_by_first_accepted_send sample_engine)
    as (_ & Hstay & _ & Hfirst).
  split.
  - destruct (Hfirst stored_key
                [Phase.input_userInput (js "reduce onboarding drop-off");
                 Phase.click_sendBtn;
                 Phase.settle 0 (reply (js "Which users drop off?"))]
                sample_discussion)
      as (es1 & e & es2 & w1 & _ & _ & _ & _ & Hd & _).
    + vm_compute. reflexivity.
    + vm_compute. discriminate.
    + split; [exact Hd | vm_compute; reflexivity].
  - assert (Phase.step sample_engine
              (Phase.set_userInput (js "another topic") sample_discussion)
              Phase.click_sendBtn
            = Some (run_handler Phase.handleSend
                      (Phase.set_userInput (js "another topic")
                         sample_discussion))) as Hs by reflexivity.
    destruct (Hstay _ _ _ Hs) as [Hp Ht].
    + vm_compute. discriminate.
    + split.
      * rewrite Hp. vm_compute. reflexivity.
      * rewrite Ht. vm_compute. reflexivity.
Defined.

(** ** The model selected *)

Lemma known_model_catalogue m : In m MODELS -> known_model (id m) = true.
Proof.
  intros H. unfold known_model. apply existsb_exists. exists m.
  split; [exact H|]. unfold jsstring_eqb.
  destruct (list_eq_dec N.eq_dec (id m) (id m)); [reflexivity | contradiction].
Qed.

Lemma phase_send_model w :
  Phase.model (Phase.st (run_handler Phase.handleSend w))
  = Phase.model (Phase.st w).
Proof.
  unfold run_handler, Phase.handleSend, bind, gets. cbn.
  destruct (is_empty (trim (Phase.userInput w))); cbn; [reflexivity|].
  destruct (is_empty (Phase.apiKey (Phase.st w))); cbn; [reflexivity|].
  destruct (Phase.phase_ (Phase.st w)); reflexivity.
Qed.

Lemma phase_model_step E w e w' :
  Phase.step E w e = Some w' ->
  known_model (Phase.model (Phase.st w)) = true ->
  known_model (Phase.model (Phase.st w')) = true.
Proof.
  destruct e; cbn; intros H K.
  - injection H as <-. exact K.
  - injection H as <-. exact K.
  - injection H as <-. unfold run_handler, Phase.saveApiKey, bind, gets. cbn.
    destruct (is_empty (trim (Phase.apiKeyInput w))); exact K.
  - destruct (nth_error MODELS option_index) as [m|] eqn:Hm; [|discriminate].
    injection H as <-. cbn. apply known_model_catalogue.
    eapply nth_error_In; eassumption.
  - injection H as <-. exact K.
  - injection H as <-. exact K.
  - injection H as <-. rewrite phase_send_model. exact K.
  - injection H as <-. rewrite phase_send_model. exact K.
  - destruct (nth_error (Phase.chatContainer w) child_index) as [[r c|]|];
      try discriminate.
    injection H as <-. unfold run_handler, Phase.speakText, bind, lift. cbn.
    destruct (replace_receiver c); exact K.
  - destruct (nth_error (Phase.pending w) request_index) as [k|];
      [|discriminate].
    injection H as <-.
    destruct (fetchGroqCompletion_result o) as [v|err] eqn:Ho.
    + destruct (phase_resume_success E k o v
                  (Phase.set_pending
                     (remove_nth request_index (Phase.pending w)) w) Ho)
        as (S1 & _).
      rewrite S1. exact K.
    + destruct (phase_resume_failure E k o err
                  (Phase.set_pending
                     (remove_nth request_index (Phase.pending w)) w) Ho)
        as (S1 & _).
      rewrite S1. exact K.
Qed.

Lemma init_model_known (ls : localStorage) :
  known_model
    match
      match groq_model ls with
      | Some m => if is_empty m then None
                  else if known_model m then Some m else None
      | None => None
      end
    with
    | Some m => m
    | None => default_model
    end = true.
Proof.
  destruct (groq_model ls) as [m|]; [|reflexivity].
  destruct (is_empty m); [reflexivity|].
  destruct (known_model m) eqn:K; [exact K | reflexivity].
Qed.

(** The model of the state is always one of the catalogue. *)
Lemma phase_model_known E w :
  Phase.reachable E w -> known_model (Phase.model (Phase.st w)) = true.
Proof.
  induction 1 as [ls | w e w' R IH H].
  - apply init_model_known.
  - eapply phase_model_step; eassumption.
Qed.

Lemma simple_send_model w :
  Simple.model (Simple.st (run_handler Simple.handleSend w))
  = Simple.model (Simple.st w).
Proof.
  unfold run_handler, Simple.handleSend, bind, gets. cbn.
  destruct (is_empty (trim (Simple.userInput w))); cbn; [reflexivity|].
  destruct (is_empty (Simple.apiKey (Simple.st w))); cbn; [reflexivity|].
  destruct (Simple.autoSpeak (Simple.st w)); reflexivity.
Qed.

Lemma simple_model_step E w e w' :
  Simple.step E w e = Some w' ->
  known_model (Simple.model (Simple.st w)) = true ->
  known_model (Simple.model (Simple.st w')) = true.
Proof.
  assert (Simple.model (Simple.st (run_handler Simple.saveApiKey w))
          = Simple.model (Simple.st w)) as Hsave.
  { unfold run_handler, Simple.saveApiKey, bind, gets. cbn.
    destruct (is_empty (trim (Simple.apiKeyInput w))); reflexivity. }
  destruct e; cbn; intros H K.
  - injection H as <-. exact K.
  - injection H as <-. exact K.
  - injection H as <-. rewrite Hsave. exact K.
  - injection H as <-. rewrite Hsave. exact K.
  - destruct (nth_error MODELS option_index) as [m|] eqn:Hm; [|discriminate].
    injection H as <-. cbn. apply known_model_catalogue.
    eapply nth_error_In; eassumption.
  - injection H as <-. exact K.
  - injection H as <-. exact K.
  - injection H as <-. rewrite simple_send_model. exact K.
  - injection H as <-. rewrite simple_send_model. exact K.
  - destruct (nth_error (Simple.chatContainer w) child_index) as [[r c|]|];
      try discriminate.
    injection H as <-. unfold run_handler, Simple.speakText, bind, lift. cbn.
    destruct (replace_receiver c); exact K.
  - destruct (Simple.has_spoken w); [|discriminate].
    injection H as <-. exact K.
  - destruct (Simple.has_spoken w); [|discriminate].
    injection H as <-. exact K.
  - destruct (Simple.has_spoken w); [|discriminate].
    injection H as <-. exact K.
  - destruct (Simple.pending w) as [|n]; [discriminate|].
    injection H as <-.
    destruct (fetchGroqCompletion_result o) as [v|err] eqn:Ho.
    + destruct (simple_resume_success E o v (Simple.set_pending n w) Ho)
        as (S1 & _).
      rewrite S1. exact K.
    + destruct (simple_resume_failure E o err (Simple.set_pending n w) Ho)
        as (S1 & _).
      rewrite S1. exact K.
Qed.

Lemma simple_model_known E w :
  Simple.reachable E w -> known_model (Simple.model (Simple.st w)) = true.
Proof.
  induction 1 as [ls | w e w' R IH H].
  - apply init_model_known.
  - eapply simple_model_step; eassumption.
Qed.

(** ** Roles *)

Lemma not_system_count l : Forall not_system l -> count_role system l = 0.
Proof.
  induction 1 as [|m l Hm _ IH]; [reflexivity|].
  unfold count_role in *. cbn. unfold not_system in Hm.
  destruct (msg_role m); [contradiction | exact IH | exact IH].
Qed.

Lemma not_system_user_or_assistant l :
  Forall not_system l ->
  Forall (fun m => msg_role m = user \/ msg_role m = assistant) l.
Proof.
  apply Forall_impl. intros m H. unfold not_system in H.
  destruct (msg_role m); [contradiction | left | right]; reflexivity.
Qed.

Lemma announcement_is_not_opening text :
  user_msg (Phase.topic_announcement text)
  <> user_msg (Phase.consultation_opening text).
Proof.
  unfold user_msg, Phase.topic_announcement, Phase.consultation_opening.
  intros H. injection H as H. vm_compute in H. discriminate.
Qed.

Lemma phase_settle_error E w i o err w' :
  Phase.step E w (Phase.settle i o) = Some w' ->
  fetchGroqCompletion_result o = Throw err ->
  Phase.st w' = Phase.st w
  /\ shown (Phase.chatContainer w')
     = shown (Phase.chatContainer w) ++ [system_msg (error_text E err)].
Proof.
  cbn. destruct (nth_error (Phase.pending w) i) as [k|]; [|discriminate].
  intros H Ho. injection H as <-.
  destruct (phase_resume_failure E k o err
              (Phase.set_pending (remove_nth i (Phase.pending w)) w) Ho)
    as (S1 & _ & _ & _ & S5 & _).
  split; [exact S1|]. rewrite S5. autorewrite with shown. reflexivity.
Qed.

Lemma simple_settle_error E w o err w' :
  Simple.step E w (Simple.settle o) = Some w' ->
  fetchGroqCompletion_result o = Throw err ->
  Simple.st w' = Simple.st w
  /\ shown (Simple.chatContainer w')
     = shown (Simple.chatContainer w) ++ [system_msg (error_text E err)].
Proof.
  cbn. destruct (Simple.pending w) as [|n]; [discriminate|].
  intros H Ho. injection H as <-.
  destruct (simple_resume_failure E o err (Simple.set_pending n w) Ho)
    as (S1 & _ & _ & S5 & _).
  split; [exact S1|]. rewrite S5. autorewrite with shown. reflexivity.
Qed.

(** C10.  In both variants every entry of the history has the role
    [user] or [assistant] in every world a session reaches.  An error is
    only shown: the step that shows it leaves the state as it is.  In the
    phase variant the submission that sets the topic shows the
    announcement and the notice and stores neither: the history then
    holds the opening message alone; the notice shown when the page
    loads is not stored either. *)
Theorem history_holds_only_user_and_assistant (E : engine) :
  (forall w : Phase.world,
      Phase.reachable E w ->
      Forall (fun m => msg_role m = user \/ msg_role m = assistant)
        (Phase.history (Phase.st w)))
  /\ (forall w : Simple.world,
         Simple.reachable E w ->
         Forall (fun m => msg_role m = user \/ msg_role m = assistant)
           (Simple.history (Simple.st w)))
  /\ (forall (w : Phase.world) i o err w',
         Phase.step E w (Phase.settle i o) = Some w' ->
         fetchGroqCompletion_result o = Throw err ->
         Phase.history (Phase.st w') = Phase.history (Phase.st w)
         /\ shown (Phase.chatContainer w')
            = shown (Phase.chatContainer w)
              ++ [system_msg (js "Error: " ++ message_of E err)])
  /\ (forall (w : Simple.world) o err w',
         Simple.step E w (Simple.settle o) = Some w' ->
         fetchGroqCompletion_result o = Throw err ->
         Simple.history (Simple.st w') = Simple.history (Simple.st w)
         /\ shown (Simple.chatContainer w')
            = shown (Simple.chatContainer w)
              ++ [system_msg (js "Error: " ++ message_of E err)])
  /\ (forall (w : Phase.world) (e : Phase.event) (w' : Phase.world),
         Phase.reachable E w ->
         Phase.step E w e = Some w' ->
         Phase.phase_ (Phase.st w) = Phase.TOPIC_SETTING ->
         PhaseEffect.accepted w e = true ->
         shown (Phase.chatContainer w')
         = shown (Phase.chatContainer w)
           ++ [user_msg (Phase.topic_announcement (trim (Phase.userInput w)));
               system_msg (Phase.topic_notice (trim (Phase.userInput w)))]
         /\ Phase.history (Phase.st w')
            = [user_msg (Phase.consultation_opening (trim (Phase.userInput w)))]
         /\ ~ In (user_msg (Phase.topic_announcement (trim (Phase.userInput w))))
                (Phase.history (Phase.st w'))
         /\ ~ In (system_msg (Phase.topic_notice (trim (Phase.userInput w))))
                (Phase.history (Phase.st w')))
  /\ (forall ls : localStorage,
         shown (Phase.chatContainer (Phase.init ls))
         = [system_msg Phase.welcome]
         /\ Phase.history (Phase.st (Phase.init ls)) = []).
Proof.
  split; [|split; [|split; [|split; [|split]]]]; [| | | | |split; reflexivity].
  - intros w R. apply not_system_user_or_assistant, (phase_history_roles E w R).
  - intros w R. apply not_system_user_or_assistant, (simple_history_roles E w R).
  - intros w i o err w' H Ho.
    destruct (phase_settle_error E w i o err w' H Ho) as [S1 S5].
    rewrite S1. split; [reflexivity | exact S5].
  - intros w o err w' H Ho.
    destruct (simple_settle_error E w o err w' H Ho) as [S1 S5].
    rewrite S1. split; [reflexivity | exact S5].
  - intros w e w' R H P A.
    destruct (phase_topic_setting_blank E w R P) as (_ & Hh & _).
    apply phase_step_effect in H.
    destruct H as [e A' | e _ _ Hst _ _ Hsh | e _ P'
                   | i o k v | i o k err].
    + rewrite A in A'. discriminate.
    + rewrite Hst, Hsh, Hh. cbn. split; [reflexivity|].
      split; [reflexivity|]. split.
      * intros [Hin | []]. symmetry in Hin.
        exact (announcement_is_not_opening _ Hin).
      * intros [Hin | []]. discriminate.
    + contradiction.
    + discriminate.
    + discriminate.
Qed.

(** The sample sessions: their histories, and an error answer. *)
Lemma history_roles_sample :
  Forall (fun m => msg_role m = user \/ msg_role m = assistant)
    (Phase.history (Phase.st sample_discussion))
  /\ (exists w',
         Phase.step sample_engine
           (run_handler Phase.handleSend
              (Phase.set_userInput (js "hello") sample_discussion))
           (Phase.settle 0 invalid_api_key) = Some w'
         /\ length (Phase.history (Phase.st w')) = 3).
Proof.
  destruct (history_holds_only_user_and_assistant sample_engine)
    as (HP & _ & HE & _).
  split.
  - apply HP.
    apply (phase_run_reachable sample_engine (Phase.init stored_key)
             [Phase.input_userInput (js "reduce onboarding drop-off");
              Phase.click_sendBtn;
              Phase.settle 0 (reply (js "Which users drop off?"))]).
    + apply Phase.reachable_init.
    + vm_compute. reflexivity.
  - eexists. split; [vm_compute; reflexivity|].
    match goal with
    | |- length (Phase.history (Phase.st ?w')) = _ =>
        destruct (HE (run_handler Phase.handleSend
                        (Phase.set_userInput (js "hello") sample_discussion))
                     0 invalid_api_key (Error_ (VStr (js "invalid_api_key")))
                     w') as [Hh _]
    end.
    + vm_compute. reflexivity.
    + reflexivity.
    + rewrite Hh. vm_compute. reflexivity.
Defined.

(** ** What a request carries *)

Lemma phase_reachable_step_history E w e w' :
  Phase.reachable E w -> Phase.step E w e = Some w' ->
  Forall not_system (Phase.history (Phase.st w')).
Proof.
  intros R H. apply (phase_history_roles E).
  eapply Phase.reachable_step; eassumption.
Qed.

Lemma simple_reachable_step_history E w e w' :
  Simple.reachable E w -> Simple.step E w e = Some w' ->
  Forall not_system (Simple.history (Simple.st w')).
Proof.
  intros R H. apply (simple_history_roles E).
  eapply Simple.reachable_step; eassumption.
Qed.

Lemma system_then_intro content h c :
  req_messages (call_body c) = system_msg content :: h ->
  Forall not_system h -> system_then content c.
Proof.
  intros Hm Hh. exists h. split; [exact Hm|]. split; [exact Hh|].
  rewrite Hm. change (system_msg content :: h) with ([system_msg content] ++ h).
  rewrite count_role_app, (not_system_count h Hh). reflexivity.
Qed.

(** C2.  In both variants, whenever a step sends a request, its messages
    are the synthesized system message followed by the whole history as
    it is at that moment; the system message comes first and is the only
    message of the system role in the request, since no entry of the
    history has that role: the synthesized message is never stored.
    The same holds of every request a session has sent. *)
Theorem request_is_system_message_then_history (E : engine) :
  (forall (w : Phase.world) (e : Phase.event) (w' : Phase.world),
      Phase.reachable E w ->
      Phase.step E w e = Some w' ->
      Forall not_system (Phase.history (Phase.st w'))
      /\ (Phase.fetches w' = Phase.fetches w
          \/ exists c,
               Phase.fetches w' = Phase.fetches w ++ [c]
               /\ req_messages (call_body c)
                  = system_msg (Phase.systemContent (Phase.topic (Phase.st w')))
                    :: Phase.history (Phase.st w')
               /\ count_role system (req_messages (call_body c)) = 1))
  /\ (forall w : Phase.world,
         Phase.reachable E w ->
         Forall (fun c => exists t, system_then (Phase.systemContent t) c)
           (Phase.fetches w))
  /\ (forall (w : Simple.world) (e : Simple.event) (w' : Simple.world),
         Simple.reachable E w ->
         Simple.step E w e = Some w' ->
         Forall not_system (Simple.history (Simple.st w'))
         /\ (Simple.fetches w' = Simple.fetches w
             \/ exists c,
                  Simple.fetches w' = Simple.fetches w ++ [c]
                  /\ req_messages (call_body c)
                     = system_msg Simple.system_prompt
                       :: Simple.history (Simple.st w')
                  /\ count_role system (req_messages (call_body c)) = 1))
  /\ (forall w : Simple.world,
         Simple.reachable E w ->
         Forall (system_then Simple.system_prompt) (Simple.fetches w)).
Proof.
  split; [|split; [|split]].
  - intros w e w' R H.
    pose proof (phase_reachable_step_history E w e w' R H) as Hh.
    split; [exact Hh|].
    rewrite (phase_fetches_step E w e w' H).
    destruct (PhaseEffect.accepted w e).
    + right. exists (Phase.fetchGroqCompletion_call (Phase.st w')).
      split; [reflexivity|]. split; [reflexivity|].
      destruct (system_then_intro
                  (Phase.systemContent (Phase.topic (Phase.st w')))
                  (Phase.history (Phase.st w'))
                  (Phase.fetchGroqCompletion_call (Phase.st w'))
                  eq_refl Hh) as (h & _ & _ & Hc).
      exact Hc.
    + left. apply app_nil_r.
  - induction 1 as [ls | w e w' R IH H]; [constructor|].
    rewrite (phase_fetches_step E w e w' H).
    apply Forall_app. split; [exact IH|].
    destruct (PhaseEffect.accepted w e); [|constructor].
    constructor; [|constructor].
    exists (Phase.topic (Phase.st w')).
    apply (system_then_intro _ (Phase.history (Phase.st w')));
      [reflexivity|].
    apply (phase_reachable_step_history E w e w' R H).
  - intros w e w' R H.
    pose proof (simple_reachable_step_history E w e w' R H) as Hh.
    split; [exact Hh|].
    rewrite (simple_fetches_step E w e w' H).
    destruct (SimpleEffect.accepted w e).
    + right. exists (Simple.fetchGroqCompletion_call (Simple.st w')).
      split; [reflexivity|]. split; [reflexivity|].
      destruct (system_then_intro Simple.system_prompt
                  (Simple.history (Simple.st w'))
                  (Simple.fetchGroqCompletion_call (Simple.st w'))
                  eq_refl Hh) as (h & _ & _ & Hc).
      exact Hc.
    + left. apply app_nil_r.
  - induction 1 as [ls | w e w' R IH H]; [constructor|].
    rewrite (simple_fetches_step E w e w' H).
    apply Forall_app. split; [exact IH|].
    destruct (SimpleEffect.accepted w e); [|constructor].
    constructor; [|constructor].
    apply (system_then_intro _ (Simple.history (Simple.st w')));
      [reflexivity|].
    apply (simple_reachable_step_history E w e w' R H).
Qed.

Lemma sample_discussion_reachable :
  Phase.reachable sample_engine sample_discussion.
Proof.
  apply (phase_run_reachable sample_engine (Phase.init stored_key)
           [Phase.input_userInput (js "reduce onboarding drop-off");
            Phase.click_sendBtn;
            Phase.settle 0 (reply (js "Which users drop off?"))]).
  - apply Phase.reachable_init.
  - vm_compute. reflexivity.
Defined.

(** The request of the sample discussion. *)
Lemma request_sample :
  Forall (fun c => exists t, system_then (Phase.systemContent t) c)
    (Phase.fetches sample_discussion).
Proof.
  destruct (request_is_system_message_then_history sample_engine)
    as (_ & HP & _).
  apply HP. exact sample_discussion_reachable.
Defined.

(** C7.  In the phase variant the system message of a request is the
    fixed template in which the grammar text stands verbatim and the
    topic of the state at that moment is inserted.  In both variants the
    body carries the model of the state, which is one of the catalogue,
    the temperature 0.7 and a fixed token cap: 2048 in the phase variant
    and 1024, which is smaller, in the simple one. *)
Theorem request_parameters (E : engine) :
  (forall t : jsstring,
      Phase.systemContent t
      = Phase.prompt_head ++ Phase.HTF_GRAMMAR ++ Phase.prompt_middle ++ t ++ Phase.prompt_tail
      /\ occurs Phase.HTF_GRAMMAR (Phase.systemContent t)
      /\ occurs t (Phase.systemContent t))
  /\ (forall (w : Phase.world) (e : Phase.event) (w' : Phase.world),
         Phase.reachable E w ->
         Phase.step E w e = Some w' ->
         PhaseEffect.accepted w e = true ->
         exists c,
           Phase.fetches w' = Phase.fetches w ++ [c]
           /\ hd_error (req_messages (call_body c))
              = Some (system_msg
                        (Phase.systemContent (Phase.topic (Phase.st w'))))
           /\ req_model (call_body c) = Phase.model (Phase.st w')
           /\ call_bearer c = Phase.apiKey (Phase.st w')
           /\ phase_parameters c)
  /\ (forall w : Phase.world,
         Phase.reachable E w -> Forall phase_parameters (Phase.fetches w))
  /\ (forall (w : Simple.world) (e : Simple.event) (w' : Simple.world),
         Simple.reachable E w ->
         Simple.step E w e = Some w' ->
         SimpleEffect.accepted w e = true ->
         exists c,
           Simple.fetches w' = Simple.fetches w ++ [c]
           /\ req_model (call_body c) = Simple.model (Simple.st w')
           /\ call_bearer c = Simple.apiKey (Simple.st w')
           /\ simple_parameters c)
  /\ (forall w : Simple.world,
         Simple.reachable E w -> Forall simple_parameters (Simple.fetches w))
  /\ (forall (s : Simple.state) (p : Phase.state),
         (req_max_tokens (call_body (Simple.fetchGroqCompletion_call s))
          < req_max_tokens (call_body (Phase.fetchGroqCompletion_call p)))%Z).
Proof.
  assert (forall w, Phase.reachable E w ->
                    phase_parameters (Phase.fetchGroqCompletion_call (Phase.st w)))
    as HP.
  { intros w R. split; [reflexivity|].
    split; [exact (phase_model_known E w R)|].
    split; [reflexivity|]. split; [reflexivity|].
    exists (Phase.topic (Phase.st w)). reflexivity. }
  assert (forall w, Simple.reachable E w ->
                    simple_parameters
                      (Simple.fetchGroqCompletion_call (Simple.st w)))
    as HS.
  { intros w R. split; [reflexivity|].
    split; [exact (simple_model_known E w R)|].
    repeat split; reflexivity. }
  split; [|split; [|split; [|split; [|split]]]].
  - intros t. split; [reflexivity|]. split.
    + exists Phase.prompt_head, (Phase.prompt_middle ++ t ++ Phase.prompt_tail). reflexivity.
    + exists (Phase.prompt_head ++ Phase.HTF_GRAMMAR ++ Phase.prompt_middle), Phase.prompt_tail.
      unfold Phase.systemContent. rewrite <- !app_assoc. reflexivity.
  - intros w e w' R H A.
    exists (Phase.fetchGroqCompletion_call (Phase.st w')).
    split; [rewrite (phase_fetches_step E w e w' H), A; reflexivity|].
    split; [reflexivity|]. split; [reflexivity|]. split; [reflexivity|].
    apply HP. eapply Phase.reachable_step; eassumption.
  - induction 1 as [ls | w e w' R IH H]; [constructor|].
    rewrite (phase_fetches_step E w e w' H).
    apply Forall_app. split; [exact IH|].
    destruct (PhaseEffect.accepted w e); [|constructor].
    constructor; [|constructor].
    apply HP. eapply Phase.reachable_step; eassumption.
  - intros w e w' R H A.
    exists (Simple.fetchGroqCompletion_call (Simple.st w')).
    split; [rewrite (simple_fetches_step E w e w' H), A; reflexivity|].
    split; [reflexivity|]. split; [reflexivity|].
    apply HS. eapply Simple.reachable_step; eassumption.
  - induction 1 as [ls | w e w' R IH H]; [constructor|].
    rewrite (simple_fetches_step E w e w' H).
    apply Forall_app. split; [exact IH|].
    destruct (SimpleEffect.accepted w e); [|constructor].
    constructor; [|constructor].
    apply HS. eapply Simple.reachable_step; eassumption.
  - intros s p. reflexivity.
Qed.

(** The request the sample discussion sends for a further turn. *)
Lemma request_parameters_sample :
  exists c,
    Phase.fetches (run_handler Phase.handleSend
                     (Phase.set_userInput (js "hello") sample_discussion))
    = Phase.fetches sample_discussion ++ [c]
    /\ hd_error (req_messages (call_body c))
       = Some (system_msg
                 (Phase.systemContent (js "reduce onboarding drop-off")))
    /\ req_model (call_body c) = js "llama-3.3-70b-versatile"
    /\ req_max_tokens (call_body c) = 2048%Z.
Proof.
  destruct (request_parameters sample_engine) as (_ & HP & _).
  destruct (HP (Phase.set_userInput (js "hello") sample_discussion)
               Phase.click_sendBtn
               (run_handler Phase.handleSend
                  (Phase.set_userInput (js "hello") sample_discussion)))
    as (c & H1 & H2 & H3 & _ & (_ & _ & _ & H4 & _)).
  - eapply Phase.reachable_step with (e := Phase.input_userInput (js "hello"));
      [exact sample_discussion_reachable | reflexivity].
  - reflexivity.
  - vm_compute. reflexivity.
  - exists c. split; [exact H1|].
    split; [rewrite H2; vm_compute; reflexivity|].
    split; [rewrite H3; vm_compute; reflexivity | exact H4].
Defined.

(** ** Narration *)

Lemma replace_markdown_In s c :
  In c (replace_markdown s)
  <-> In c s /\ c <> 42%N /\ c <> 35%N /\ c <> 96%N.
Proof.
  unfold replace_markdown. rewrite filter_In. unfold isMarkdownMarker.
  rewrite negb_true_iff, !orb_false_iff, !N.eqb_neq. tauto.
Qed.

(** C8.  [speakText] on a string cancels the narration under way and
    speaks a cleaned copy of the text: in the phase variant every
    [<think>...</think>] block is first removed together with what it
    holds (the block after a text without opening tag, up to the first
    closing tag), and in both variants every [*], [#] and backquote is
    removed and nothing else.  The language is [ja-JP] when the cleaned
    text holds a code unit of the Hiragana or Katakana range and [en-US]
    otherwise.  The state, and so the history, and the chat container
    are left as they are.  The phase variant narrates
    [<think>secret</think>Hello] as [Hello]; the simple client does not
    remove the block. *)
Theorem narration_cleans_text_and_picks_language (text : jsstring) :
  (forall w : Phase.world,
      Phase.speech (run_handler (Phase.speakText (VStr text)) w)
      = Phase.speech w
        ++ [SpeechCancel;
            SpeechSpeak (replace_markdown (replace_think text))
              (lang_of (replace_markdown (replace_think text)))]
      /\ Phase.st (run_handler (Phase.speakText (VStr text)) w) = Phase.st w
      /\ Phase.chatContainer (run_handler (Phase.speakText (VStr text)) w)
         = Phase.chatContainer w)
  /\ (forall w : Simple.world,
         Simple.speech (run_handler (Simple.speakText (VStr text)) w)
         = Simple.speech w
           ++ [SpeechCancel;
               SpeechSpeak (replace_markdown text)
                 (lang_of (replace_markdown text))]
         /\ Simple.st (run_handler (Simple.speakText (VStr text)) w)
            = Simple.st w
         /\ Simple.chatContainer (run_handler (Simple.speakText (VStr text)) w)
            = Simple.chatContainer w)
  /\ (forall c, In c (replace_markdown text)
                <-> In c text /\ c <> 42%N /\ c <> 35%N /\ c <> 96%N)
  /\ (forall a b c,
         text = a ++ think_open ++ b ++ think_close ++ c ->
         ~ occurs think_open a ->
         ~ occurs think_close b ->
         replace_think text = a ++ replace_think c)
  /\ (forall cleaned,
         (exists c, In c cleaned /\ kana c) ->
         lang_of cleaned = js "ja-JP")
  /\ (forall cleaned,
         ~ (exists c, In c cleaned /\ kana c) ->
         lang_of cleaned = js "en-US")
  /\ replace_markdown (replace_think (js "<think>secret</think>Hello"))
     = js "Hello"
  /\ replace_markdown (js "<think>secret</think>Hello")
     = js "<think>secret</think>Hello".
Proof.
  split; [|split; [|split; [|split; [|split; [|split; [|split]]]]]].
  - intros w. unfold run_handler, Phase.speakText, bind, lift. cbn.
    rewrite <- app_assoc. repeat split; reflexivity.
  - intros w. unfold run_handler, Simple.speakText, bind, lift. cbn.
    rewrite <- app_assoc. repeat split; reflexivity.
  - intros c. apply replace_markdown_In.
  - intros a b c -> Ha Hb. apply Narration.replace_think_block; assumption.
  - apply Narration.lang_of_japanese.
  - apply Narration.lang_of_default.
  - vm_compute. reflexivity.
  - vm_compute. reflexivity.
Qed.

Lemma no_tag_in_sample :
  ~ occurs think_open (js "Answer: ") /\ ~ occurs think_close (js "secret").
Proof.
  split.
  - intros (a & b & H).
    assert (exists r, skipn (length a) (js "Answer: ") = 60%N :: r) as [r Hr].
    { rewrite H, skipn_app, Nat.sub_diag, skipn_all. eexists. reflexivity. }
    assert (length a <= 8) as Hl.
    { apply (f_equal (@length _)) in H. rewrite !length_app in H.
      change (length (js "Answer: ")) with 8 in H. lia. }
    do 9 (destruct a as [|? a]; [vm_compute in Hr; discriminate|]);
      cbn in Hl; lia.
  - intros (a & b & H).
    assert (exists r, skipn (length a) (js "secret") = 60%N :: r) as [r Hr].
    { rewrite H, skipn_app, Nat.sub_diag, skipn_all. eexists. reflexivity. }
    assert (length a <= 6) as Hl.
    { apply (f_equal (@length _)) in H. rewrite !length_app in H.
      change (length (js "secret")) with 6 in H. lia. }
    do 7 (destruct a as [|? a]; [vm_compute in Hr; discriminate|]);
      cbn in Hl; lia.
Defined.

(** A reply in Japanese with a thinking block and markdown markers. *)
Lemma narration_sample :
  replace_think (js "Answer: <think>secret</think>**こんにちは**")
  = js "Answer: " ++ replace_think (js "**こんにちは**")
  /\ lang_of (js "Answer: こんにちは") = js "ja-JP"
  /\ lang_of (js "Answer: hello") = js "en-US".
Proof.
  split; [|split].
  - destruct (narration_cleans_text_and_picks_language
                (js "Answer: <think>secret</think>**こんにちは**"))
      as (_ & _ & _ & H & _).
    apply (H (js "Answer: ") (js "secret") (js "**こんにちは**")).
    + vm_compute. reflexivity.
    + exact (proj1 no_tag_in_sample).
    + exact (proj2 no_tag_in_sample).
  - destruct (narration_cleans_text_and_picks_language
                (js "Answer: <think>secret</think>**こんにちは**"))
      as (_ & _ & _ & _ & H & _).
    apply H. exists 0x3053%N. split.
    + vm_compute. tauto.
    + left. split; discriminate.
  - destruct (narration_cleans_text_and_picks_language
                (js "Answer: <think>secret</think>**こんにちは**"))
      as (_ & _ & _ & _ & _ & H & _).
    apply H. intros (c & Hin & Hk).
    vm_compute in Hin.
    repeat (destruct Hin as [<- | Hin];
            [destruct Hk as [[Hk _] | [Hk _]]; apply Hk; reflexivity|]).
    exact Hin.
Defined.

(** * Further properties of the two scripts *)

(** ** Replies, in full *)

(** The cleaned text each variant narrates. *)
Lemma phase_resume_reply E k o v w :
  fetchGroqCompletion_result o = Normal v ->
  match Phase.autoSpeak (Phase.st w), replace_receiver v with
  | true, Normal s =>
      Phase.chatContainer (run_handler (Phase.resume E k o) w)
      = remove_first_loading (Phase.chatContainer w) ++ [MessageDiv assistant v]
      /\ Phase.speech (run_handler (Phase.resume E k o) w)
         = Phase.speech w
           ++ [SpeechCancel;
               SpeechSpeak (replace_markdown (replace_think s))
                 (lang_of (replace_markdown (replace_think s)))]
  | true, Throw e =>
      Phase.chatContainer (run_handler (Phase.resume E k o) w)
      = remove_first_loading
          (remove_first_loading (Phase.chatContainer w)
           ++ [MessageDiv assistant v])
        ++ [MessageDiv system (VStr (error_text E e))]
      /\ Phase.speech (run_handler (Phase.resume E k o) w)
         = Phase.speech w ++ [SpeechCancel]
  | false, _ =>
      Phase.chatContainer (run_handler (Phase.resume E k o) w)
      = remove_first_loading (Phase.chatContainer w) ++ [MessageDiv assistant v]
      /\ Phase.speech (run_handler (Phase.resume E k o) w) = Phase.speech w
  end.
Proof.
  intros H. unfold run_handler. rewrite phase_resume_same.
  unfold Phase.handleSend_resume, try_catch, bind, lift, gets.
  rewrite H. cbn.
  destruct (Phase.autoSpeak (Phase.st w)) eqn:Ha; cbn.
  - unfold Phase.speakText, bind, lift. cbn.
    destruct (replace_receiver v) eqn:Hv; cbn;
      rewrite <- ?app_assoc; split; reflexivity.
  - split; reflexivity.
Qed.

Lemma simple_resume_reply E o v w :
  fetchGroqCompletion_result o = Normal v ->
  match Simple.autoSpeak (Simple.st w), replace_receiver v with
  | true, Normal s =>
      Simple.chatContainer (run_handler (Simple.handleSend_resume E o) w)
      = remove_first_loading (Simple.chatContainer w)
        ++ [MessageDiv assistant v]
      /\ Simple.speech (run_handler (Simple.handleSend_resume E o) w)
         = Simple.speech w
           ++ [SpeechCancel;
               SpeechSpeak (replace_markdown s) (lang_of (replace_markdown s))]
  | true, Throw e =>
      Simple.chatContainer (run_handler (Simple.handleSend_resume E o) w)
      = remove_first_loading
          (remove_first_loading (Simple.chatContainer w)
           ++ [MessageDiv assistant v])
        ++ [MessageDiv system (VStr (error_text E e))]
      /\ Simple.speech (run_handler (Simple.handleSend_resume E o) w)
         = Simple.speech w ++ [SpeechCancel]
  | false, _ =>
      Simple.chatContainer (run_handler (Simple.handleSend_resume E o) w)
      = remove_first_loading (Simple.chatContainer w)
        ++ [MessageDiv assistant v]
      /\ Simple.speech (run_handler (Simple.handleSend_resume E o) w)
         = Simple.speech w
  end.
Proof.
  intros H. unfold run_handler.
  unfold Simple.handleSend_resume, try_catch, bind, lift, gets.
  rewrite H. cbn.
  destruct (Simple.autoSpeak (Simple.st w)) eqn:Ha; cbn.
  - unfold Simple.speakText, bind, lift. cbn.
    destruct (replace_receiver v) eqn:Hv; cbn;
      rewrite <- ?app_assoc; split; reflexivity.
  - split; reflexivity.
Qed.

(** ** Settings and reload *)

(** What a step does to the key and the model, in the state and in the
    storage: nothing, or the same new value in both. *)
Lemma phase_step_settings E w e w' :
  Phase.step E w e = Some w' ->
  ((Phase.apiKey (Phase.st w') = Phase.apiKey (Phase.st w)
    /\ groq_api_key (Phase.storage w') = groq_api_key (Phase.storage w))
   \/ (exists k, k <> [] /\ Phase.apiKey (Phase.st w') = k
                 /\ groq_api_key (Phase.storage w') = Some k))
  /\ ((Phase.model (Phase.st w') = Phase.model (Phase.st w)
       /\ groq_model (Phase.storage w') = groq_model (Phase.storage w))
      \/ (exists m, In m MODELS /\ Phase.model (Phase.st w') = id m
                    /\ groq_model (Phase.storage w') = Some (id m))).
Proof.
  assert (forall w1 : Phase.world,
             Phase.st w1 = Phase.st w \/
             (exists h, Phase.st w1 = Phase.set_history h (Phase.st w)) \/
             (exists h t, Phase.st w1
                          = Phase.set_history h
                              (Phase.set_phase Phase.HTF_DISCUSSION
                                 (Phase.set_topic t (Phase.st w)))) \/
             (exists b, Phase.st w1 = Phase.set_autoSpeak b (Phase.st w)) ->
             Phase.storage w1 = Phase.storage w ->
             ((Phase.apiKey (Phase.st w1) = Phase.apiKey (Phase.st w)
               /\ groq_api_key (Phase.storage w1) = groq_api_key (Phase.storage w))
              \/ (exists k, k <> [] /\ Phase.apiKey (Phase.st w1) = k
                            /\ groq_api_key (Phase.storage w1) = Some k))
             /\ ((Phase.model (Phase.st w1) = Phase.model (Phase.st w)
                  /\ groq_model (Phase.storage w1) = groq_model (Phase.storage w))
                 \/ (exists m, In m MODELS /\ Phase.model (Phase.st w1) = id m
                               /\ groq_model (Phase.storage w1) = Some (id m))))
    as same.
  { intros w1 Hst Hsto. rewrite Hsto.
    destruct Hst as [-> | [[h ->] | [(h & t & ->) | [b ->]]]];
      split; left; split; reflexivity. }
  destruct e; intros H; cbn in H.
  - injection H as <-. apply same; auto.
  - injection H as <-. apply same; auto.
  - injection H as <-. unfold run_handler, Phase.saveApiKey, bind, gets. cbn.
    destruct (is_empty (trim (Phase.apiKeyInput w))) eqn:Hk; cbn.
    + apply same; auto.
    + split.
      * right. exists (trim (Phase.apiKeyInput w)).
        split; [apply is_empty_false, Hk|]. split; reflexivity.
      * left. split; reflexivity.
  - destruct (nth_error MODELS option_index) as [m|] eqn:Hm; [|discriminate].
    injection H as <-. split.
    + left. split; reflexivity.
    + right. exists m. split; [eapply nth_error_In; eassumption|].
      split; reflexivity.
  - injection H as <-. apply same; [|reflexivity].
    right; right; right. eexists. reflexivity.
  - injection H as <-. apply same; auto.
  - injection H as <-.
    destruct (is_empty (trim (Phase.userInput w))) eqn:T.
    { rewrite (phase_send_blank w T). apply same; auto. }
    destruct (is_empty (Phase.apiKey (Phase.st w))) eqn:K.
    { rewrite (phase_send_keyless w T K). apply same; auto. }
    destruct (Phase.phase_ (Phase.st w)) eqn:P.
    + destruct (phase_send_topic w T K P) as (S1 & _ & _ & _ & _ & S6 & _).
      apply same; [|exact S6]. right; right; left. eauto.
    + assert (Phase.phase_ (Phase.st w) <> Phase.TOPIC_SETTING) as P'
        by congruence.
      destruct (phase_send_turn w T K P') as (S1 & _ & _ & _ & _ & S6 & _).
      apply same; [|exact S6]. right; left. eauto.
    + assert (Phase.phase_ (Phase.st w) <> Phase.TOPIC_SETTING) as P'
        by congruence.
      destruct (phase_send_turn w T K P') as (S1 & _ & _ & _ & _ & S6 & _).
      apply same; [|exact S6]. right; left. eauto.
  - injection H as <-.
    destruct (is_empty (trim (Phase.userInput w))) eqn:T.
    { rewrite (phase_send_blank w T). apply same; auto. }
    destruct (is_empty (Phase.apiKey (Phase.st w))) eqn:K.
    { rewrite (phase_send_keyless w T K). apply same; auto. }
    destruct (Phase.phase_ (Phase.st w)) eqn:P.
    + destruct (phase_send_topic w T K P) as (S1 & _ & _ & _ & _ & S6 & _).
      apply same; [|exact S6]. right; right; left. eauto.
    + assert (Phase.phase_ (Phase.st w) <> Phase.TOPIC_SETTING) as P'
        by congruence.
      destruct (phase_send_turn w T K P') as (S1 & _ & _ & _ & _ & S6 & _).
      apply same; [|exact S6]. right; left. eauto.
    + assert (Phase.phase_ (Phase.st w) <> Phase.TOPIC_SETTING) as P'
        by congruence.
      destruct (phase_send_turn w T K P') as (S1 & _ & _ & _ & _ & S6 & _).
      apply same; [|exact S6]. right; left. eauto.
  - destruct (nth_error (Phase.chatContainer w) child_index) as [[r c|]|];
      try discriminate.
    injection H as <-. unfold run_handler, Phase.speakText, bind, lift. cbn.
    destruct (replace_receiver c); cbn; apply same; auto.
  - destruct (nth_error (Phase.pending w) request_index) as [k|];
      [|discriminate].
    injection H as <-.
    destruct (fetchGroqCompletion_result o) as [v|err] eqn:Ho.
    + destruct (phase_resume_success E k o v
                  (Phase.set_pending
                     (remove_nth request_index (Phase.pending w)) w) Ho)
        as (S1 & _ & _ & _ & _ & S6 & _).
      apply same; [|exact S6]. right; left. eexists. exact S1.
    + destruct (phase_resume_failure E k o err
                  (Phase.set_pending
                     (remove_nth request_index (Phase.pending w)) w) Ho)
        as (S1 & _ & _ & _ & _ & S6 & _).
      apply same; [|exact S6]. left. exact S1.
Qed.

Lemma simple_step_settings E w e w' :
  Simple.step E w e = Some w' ->
  ((Simple.apiKey (Simple.st w') = Simple.apiKey (Simple.st w)
    /\ groq_api_key (Simple.storage w') = groq_api_key (Simple.storage w))
   \/ (exists k, k <> [] /\ Simple.apiKey (Simple.st w') = k
                 /\ groq_api_key (Simple.storage w') = Some k))
  /\ ((Simple.model (Simple.st w') = Simple.model (Simple.st w)
       /\ groq_model (Simple.storage w') = groq_model (Simple.storage w))
      \/ (exists m, In m MODELS /\ Simple.model (Simple.st w') = id m
                    /\ groq_model (Simple.storage w') = Some (id m))).
Proof.
  assert (forall w1 : Simple.world,
             Simple.st w1 = Simple.st w \/
             (exists h, Simple.st w1 = Simple.set_history h (Simple.st w)) \/
             (exists b, Simple.st w1 = Simple.set_isSpeaking b (Simple.st w)) \/
             (exists b, Simple.st w1 = Simple.set_autoSpeak b (Simple.st w)) ->
             Simple.storage w1 = Simple.storage w ->
             ((Simple.apiKey (Simple.st w1) = Simple.apiKey (Simple.st w)
               /\ groq_api_key (Simple.storage w1)
                  = groq_api_key (Simple.storage w))
              \/ (exists k, k <> [] /\ Simple.apiKey (Simple.st w1) = k
                            /\ groq_api_key (Simple.storage w1) = Some k))
             /\ ((Simple.model (Simple.st w1) = Simple.model (Simple.st w)
                  /\ groq_model (Simple.storage w1)
                     = groq_model (Simple.storage w))
                 \/ (exists m, In m MODELS /\ Simple.model (Simple.st w1) = id m
                               /\ groq_model (Simple.storage w1) = Some (id m))))
    as same.
  { intros w1 Hst Hsto. rewrite Hsto.
    destruct Hst as [-> | [[h ->] | [[b ->] | [b ->]]]];
      split; left; split; reflexivity. }
  assert (((Simple.apiKey (Simple.st (run_handler Simple.saveApiKey w))
            = Simple.apiKey (Simple.st w)
            /\ groq_api_key (Simple.storage (run_handler Simple.saveApiKey w))
               = groq_api_key (Simple.storage w))
           \/ (exists k, k <> []
                         /\ Simple.apiKey
                              (Simple.st (run_handler Simple.saveApiKey w)) = k
                         /\ groq_api_key
                              (Simple.storage (run_handler Simple.saveApiKey w))
                            = Some k))
          /\ ((Simple.model (Simple.st (run_handler Simple.saveApiKey w))
               = Simple.model (Simple.st w)
               /\ groq_model (Simple.storage (run_handler Simple.saveApiKey w))
                  = groq_model (Simple.storage w))
              \/ (exists m, In m MODELS
                            /\ Simple.model
                                 (Simple.st (run_handler Simple.saveApiKey w))
                               = id m
                            /\ groq_model
                                 (Simple.storage
                                    (run_handler Simple.saveApiKey w))
                               = Some (id m)))) as save.
  { unfold run_handler, Simple.saveApiKey, bind, gets. cbn.
    destruct (is_empty (trim (Simple.apiKeyInput w))) eqn:Hk; cbn.
    + apply same; auto.
    + split.
      * right. exists (trim (Simple.apiKeyInput w)).
        split; [apply is_empty_false, Hk|]. split; reflexivity.
      * left. split; reflexivity. }
  assert (forall w1, w1 = run_handler Simple.handleSend w ->
                     Simple.st w1 = Simple.st w \/
                     (exists h, Simple.st w1
                                = Simple.set_history h (Simple.st w)) \/
                     (exists b, Simple.st w1
                                = Simple.set_isSpeaking b (Simple.st w)) \/
                     (exists b, Simple.st w1
                                = Simple.set_autoSpeak b (Simple.st w)))
    as send_st.
  { intros w1 ->.
    destruct (is_empty (trim (Simple.userInput w))) eqn:T.
    { rewrite (simple_send_blank w T). auto. }
    destruct (is_empty (Simple.apiKey (Simple.st w))) eqn:K.
    { rewrite (simple_send_keyless w T K). auto. }
    destruct (simple_send_turn w T K) as (S1 & _). right; left. eauto. }
  assert (Simple.storage (run_handler Simple.handleSend w) = Simple.storage w)
    as send_sto.
  { destruct (is_empty (trim (Simple.userInput w))) eqn:T.
    { rewrite (simple_send_blank w T). reflexivity. }
    destruct (is_empty (Simple.apiKey (Simple.st w))) eqn:K.
    { rewrite (simple_send_keyless w T K). reflexivity. }
    destruct (simple_send_turn w T K) as (_ & _ & _ & _ & S6 & _). exact S6. }
  destruct e; intros H; cbn in H.
  - injection H as <-. apply same; auto.
  - injection H as <-. apply same; auto.
  - injection H as <-. exact save.
  - injection H as <-. exact save.
  - destruct (nth_error MODELS option_index) as [m|] eqn:Hm; [|discriminate].
    injection H as <-. split.
    + left. split; reflexivity.
    + right. exists m. split; [eapply nth_error_In; eassumption|].
      split; reflexivity.
  - injection H as <-. apply same; [|reflexivity].
    right; right; right. eexists. reflexivity.
  - injection H as <-. apply same; [|reflexivity].
    right; right; left. eexists. reflexivity.
  - injection H as <-. apply same; [apply send_st; reflexivity | exact send_sto].
  - injection H as <-. apply same; [apply send_st; reflexivity | exact send_sto].
  - destruct (nth_error (Simple.chatContainer w) child_index) as [[r c|]|];
      try discriminate.
    injection H as <-. unfold run_handler, Simple.speakText, bind, lift. cbn.
    destruct (replace_receiver c); cbn; apply same; auto.
  - destruct (Simple.has_spoken w); [|discriminate].
    injection H as <-. apply same; [|reflexivity].
    right; right; left. eexists. reflexivity.
  - destruct (Simple.has_spoken w); [|discriminate].
    injection H as <-. apply same; [|reflexivity].
    right; right; left. eexists. reflexivity.
  - destruct (Simple.has_spoken w); [|discriminate].
    injection H as <-. apply same; [|reflexivity].
    right; right; left. eexists. reflexivity.
  - destruct (Simple.pending w) as [|n]; [discriminate|].
    injection H as <-.
    destruct (fetchGroqCompletion_result o) as [v|err] eqn:Ho.
    + destruct (simple_resume_success E o v (Simple.set_pending n w) Ho)
        as (S1 & _ & _ & _ & S6 & _).
      apply same; [|exact S6]. right; left. eexists. exact S1.
    + destruct (simple_resume_failure E o err (Simple.set_pending n w) Ho)
        as (S1 & _ & _ & _ & S6 & _).
      apply same; [|exact S6]. left. exact S1.
Qed.

Lemma phase_init_key ls :
  Phase.apiKey (Phase.st (Phase.init ls))
  = match groq_api_key ls with Some k => k | None => [] end.
Proof.
  cbn. destruct (groq_api_key ls) as [[|c k]|]; reflexivity.
Qed.

Lemma simple_init_key ls :
  Simple.apiKey (Simple.st (Simple.init ls))
  = match groq_api_key ls with Some k => k | None => [] end.
Proof.
  cbn. destruct (groq_api_key ls) as [[|c k]|]; reflexivity.
Qed.

Lemma phase_init_model ls :
  Phase.model (Phase.st (Phase.init ls))
  = match groq_model ls with
    | Some m => if known_model m then m else default_model
    | None => default_model
    end.
Proof.
  cbn. destruct (groq_model ls) as [[|c m]|]; cbn; try reflexivity.
  destruct (known_model (c :: m)); reflexivity.
Qed.

Lemma simple_init_model ls :
  Simple.model (Simple.st (Simple.init ls))
  = match groq_model ls with
    | Some m => if known_model m then m else default_model
    | None => default_model
    end.
Proof.
  cbn. destruct (groq_model ls) as [[|c m]|]; cbn; try reflexivity.
  destruct (known_model (c :: m)); reflexivity.
Qed.

(** X1.  In every world a session reaches, loading the page again from
    the local storage as it is gives back the API key and the model of
    the state, and an empty conversation: the key and the model are the
    only things that survive a reload.  A saved model that the
    catalogue does not know is ignored in favour of the first one. *)
Theorem settings_survive_reload (E : engine) :
  (forall w : Phase.world,
      Phase.reachable E w ->
      Phase.apiKey (Phase.st (Phase.init (Phase.storage w)))
      = Phase.apiKey (Phase.st w)
      /\ Phase.model (Phase.st (Phase.init (Phase.storage w)))
         = Phase.model (Phase.st w)
      /\ Phase.history (Phase.st (Phase.init (Phase.storage w))) = []
      /\ Phase.phase_ (Phase.st (Phase.init (Phase.storage w)))
         = Phase.TOPIC_SETTING)
  /\ (forall w : Simple.world,
         Simple.reachable E w ->
         Simple.apiKey (Simple.st (Simple.init (Simple.storage w)))
         = Simple.apiKey (Simple.st w)
         /\ Simple.model (Simple.st (Simple.init (Simple.storage w)))
            = Simple.model (Simple.st w)
         /\ Simple.history (Simple.st (Simple.init (Simple.storage w))) = [])
  /\ (forall ls m,
         groq_model ls = Some m -> known_model m = false ->
         Phase.model (Phase.st (Phase.init ls)) = default_model
         /\ Simple.model (Simple.st (Simple.init ls)) = default_model).
Proof.
  split; [|split].
  - intros w R.
    assert (Phase.apiKey (Phase.st (Phase.init (Phase.storage w)))
            = Phase.apiKey (Phase.st w)
            /\ Phase.model (Phase.st (Phase.init (Phase.storage w)))
               = Phase.model (Phase.st w)) as [H1 H2];
      [|repeat split; assumption].
    induction R as [ls | w e w' R [IHk IHm] H]; [split; reflexivity|].
    rewrite phase_init_key in *. rewrite phase_init_model in *.
    destruct (phase_step_settings E w e w' H) as [Hk Hm]. split.
    + destruct Hk as [[Hk1 Hk2] | (k & Hk0 & Hk1 & Hk2)].
      * rewrite Hk1, Hk2. exact IHk.
      * rewrite Hk1, Hk2. reflexivity.
    + destruct Hm as [[Hm1 Hm2] | (m & Hm0 & Hm1 & Hm2)].
      * rewrite Hm1, Hm2. exact IHm.
      * rewrite Hm1, Hm2, (known_model_catalogue m Hm0). reflexivity.
  - intros w R.
    assert (Simple.apiKey (Simple.st (Simple.init (Simple.storage w)))
            = Simple.apiKey (Simple.st w)
            /\ Simple.model (Simple.st (Simple.init (Simple.storage w)))
               = Simple.model (Simple.st w)) as [H1 H2];
      [|repeat split; assumption].
    induction R as [ls | w e w' R [IHk IHm] H]; [split; reflexivity|].
    rewrite simple_init_key in *. rewrite simple_init_model in *.
    destruct (simple_step_settings E w e w' H) as [Hk Hm]. split.
    + destruct Hk as [[Hk1 Hk2] | (k & Hk0 & Hk1 & Hk2)].
      * rewrite Hk1, Hk2. exact IHk.
      * rewrite Hk1, Hk2. reflexivity.
    + destruct Hm as [[Hm1 Hm2] | (m & Hm0 & Hm1 & Hm2)].
      * rewrite Hm1, Hm2. exact IHm.
      * rewrite Hm1, Hm2, (known_model_catalogue m Hm0). reflexivity.
  - intros ls m Hm K. rewrite phase_init_model, simple_init_model, Hm, K.
    split; reflexivity.
Qed.

(** A key is saved and a model chosen on a page without settings. *)
Lemma settings_reload_sample :
  exists w,
    Phase.run sample_engine (Phase.init empty_storage) sample_settings = Some w
    /\ Phase.apiKey (Phase.st (Phase.init (Phase.storage w))) = js "gsk_sample"
    /\ Phase.model (Phase.st (Phase.init (Phase.storage w)))
       = js "llama-3.1-8b-instant".
Proof.
  destruct (Phase.run sample_engine (Phase.init empty_storage) sample_settings)
    as [w|] eqn:Hr; [|vm_compute in Hr; discriminate].
  exists w. split; [reflexivity|].
  destruct (settings_survive_reload sample_engine) as (HP & _).
  destruct (HP w) as (Hk & Hm & _).
  - apply (phase_run_reachable sample_engine (Phase.init empty_storage)
             sample_settings); [apply Phase.reachable_init | exact Hr].
  - rewrite Hk, Hm. vm_compute in Hr. injection Hr as <-.
    split; vm_compute; reflexivity.
Defined.

(** ** Growth of the conversation *)

Lemma phase_step_grows E w e w' :
  Phase.step E w e = Some w' ->
  (exists l, Phase.history (Phase.st w') = Phase.history (Phase.st w) ++ l)
  /\ (exists l, shown (Phase.chatContainer w')
                = shown (Phase.chatContainer w) ++ l)
  /\ (exists l, Phase.fetches w' = Phase.fetches w ++ l).
Proof.
  intros H. pose proof (phase_fetches_step E w e w' H) as Hf.
  apply phase_step_effect in H.
  split; [|split]; [| |eexists; exact Hf].
  - destruct H as [e _ _ _ _ Hh | e _ _ Hst | e _ _ Hst
                   | i o k v _ _ Hst | i o k err _ _ Hst].
    + exists []. rewrite app_nil_r. exact Hh.
    + rewrite Hst. eexists. reflexivity.
    + rewrite Hst. eexists. reflexivity.
    + rewrite Hst. eexists. reflexivity.
    + rewrite Hst. exists []. rewrite app_nil_r. reflexivity.
  - destruct H as [e _ _ _ _ _ _ _ Hs | e _ _ _ _ _ Hs | e _ _ _ _ _ Hs
                   | i o k v _ _ _ _ _ Hs | i o k err _ _ _ _ _ Hs].
    + exists []. rewrite app_nil_r. exact Hs.
    + eexists. exact Hs.
    + eexists. exact Hs.
    + eexists. exact Hs.
    + eexists. exact Hs.
Qed.

Lemma simple_step_grows E w e w' :
  Simple.step E w e = Some w' ->
  (exists l, Simple.history (Simple.st w') = Simple.history (Simple.st w) ++ l)
  /\ (exists l, shown (Simple.chatContainer w')
                = shown (Simple.chatContainer w) ++ l)
  /\ (exists l, Simple.fetches w' = Simple.fetches w ++ l).
Proof.
  intros H. pose proof (simple_fetches_step E w e w' H) as Hf.
  apply simple_step_effect in H.
  split; [|split]; [| |eexists; exact Hf].
  - destruct H as [e _ _ Hh | e _ Hst | o v _ Hst | o err _ Hst].
    + exists []. rewrite app_nil_r. exact Hh.
    + rewrite Hst. eexists. reflexivity.
    + rewrite Hst. eexists. reflexivity.
    + rewrite Hst. exists []. rewrite app_nil_r. reflexivity.
  - destruct H as [e _ _ _ _ _ Hs | e _ _ _ _ Hs
                   | o v _ _ _ _ Hs | o err _ _ _ _ Hs].
    + exists []. rewrite app_nil_r. exact Hs.
    + eexists. exact Hs.
    + eexists. exact Hs.
    + eexists. exact Hs.
Qed.

(** X2.  Along any run of events, in both variants, the history, the
    messages shown and the requests sent only grow at the end: no entry
    is ever removed, replaced or reordered (removing the loading
    indicator leaves the messages alone). *)
Theorem conversation_only_grows (E : engine) :
  (forall (w : Phase.world) (es : list Phase.event) (w' : Phase.world),
      Phase.run E w es = Some w' ->
      (exists l, Phase.history (Phase.st w') = Phase.history (Phase.st w) ++ l)
      /\ (exists l, shown (Phase.chatContainer w')
                    = shown (Phase.chatContainer w) ++ l)
      /\ (exists l, Phase.fetches w' = Phase.fetches w ++ l))
  /\ (forall (w : Simple.world) (es : list Simple.event) (w' : Simple.world),
         Simple.run E w es = Some w' ->
         (exists l, Simple.history (Simple.st w')
                    = Simple.history (Simple.st w) ++ l)
         /\ (exists l, shown (Simple.chatContainer w')
                       = shown (Simple.chatContainer w) ++ l)
         /\ (exists l, Simple.fetches w' = Simple.fetches w ++ l)).
Proof.
  split.
  - intros w es. revert w. induction es as [|e es IH]; intros w w' H; cbn in H.
    + injection H as <-. repeat split; exists []; rewrite app_nil_r; reflexivity.
    + destruct (Phase.step E w e) as [w1|] eqn:Hs; [|discriminate].
      destruct (phase_step_grows E w e w1 Hs) as ([l1 H1] & [l2 H2] & [l3 H3]).
      destruct (IH w1 w' H) as ([m1 G1] & [m2 G2] & [m3 G3]).
      rewrite G1, G2, G3, H1, H2, H3, <- !app_assoc.
      repeat split; eexists; reflexivity.
  - intros w es. revert w. induction es as [|e es IH]; intros w w' H; cbn in H.
    + injection H as <-. repeat split; exists []; rewrite app_nil_r; reflexivity.
    + destruct (Simple.step E w e) as [w1|] eqn:Hs; [|discriminate].
      destruct (simple_step_grows E w e w1 Hs) as ([l1 H1] & [l2 H2] & [l3 H3]).
      destruct (IH w1 w' H) as ([m1 G1] & [m2 G2] & [m3 G3]).
      rewrite G1, G2, G3, H1, H2, H3, <- !app_assoc.
      repeat split; eexists; reflexivity.
Qed.

(** A failed turn after the sample discussion. *)
Lemma conversation_grows_sample :
  exists w',
    Phase.submit sample_engine (js "hello") invalid_api_key sample_discussion
    = Some w'
    /\ exists l, Phase.history (Phase.st w')
                 = Phase.history (Phase.st sample_discussion) ++ l.
Proof.
  destruct (Phase.submit sample_engine (js "hello") invalid_api_key
              sample_discussion) as [w'|] eqn:Hr;
    [|vm_compute in Hr; discriminate].
  exists w'. split; [reflexivity|].
  destruct (conversation_only_grows sample_engine) as (HP & _).
  destruct (HP sample_discussion _ w' Hr) as (H & _). exact H.
Defined.

(** ** The conversation and what is shown *)

Lemma conversation_app l l' :
  conversation (l ++ l') = conversation l ++ conversation l'.
Proof. apply filter_app. Qed.

Lemma conversation_after_reply E auto v : conversation (after_reply E auto v) = [].
Proof.
  unfold after_reply. destruct auto; [|reflexivity].
  destruct (replace_receiver v); reflexivity.
Qed.

Lemma conversation_reply E auto v :
  conversation (assistant_msg v :: after_reply E auto v) = [assistant_msg v].
Proof.
  change (assistant_msg v :: after_reply E auto v)
    with ([assistant_msg v] ++ after_reply E auto v).
  rewrite conversation_app, conversation_after_reply. reflexivity.
Qed.

(** X3.  What is sent and what is shown agree.  In the simple client
    the history is, in every world a session reaches, exactly the list of
    the messages shown without the system ones.  In the phase variant
    the same holds from the second entry on: once the topic is set, the
    first entry of the history is the opening request written for the
    topic, the first message shown for the conversation is the
    announcement of that topic, and the rest of the two lists is the
    same; before that both are empty. *)
Theorem history_matches_display (E : engine) :
  (forall w : Simple.world,
      Simple.reachable E w ->
      Simple.history (Simple.st w)
      = conversation (shown (Simple.chatContainer w)))
  /\ (forall w : Phase.world,
         Phase.reachable E w ->
         match Phase.phase_ (Phase.st w) with
         | Phase.TOPIC_SETTING =>
             Phase.history (Phase.st w) = []
             /\ conversation (shown (Phase.chatContainer w)) = []
         | _ =>
             exists rest,
               Phase.history (Phase.st w)
               = user_msg (Phase.consultation_opening (Phase.topic (Phase.st w)))
                 :: rest
               /\ conversation (shown (Phase.chatContainer w))
                  = user_msg (Phase.topic_announcement
                                (Phase.topic (Phase.st w)))
                    :: rest
         end).
Proof.
  split.
  - refine (simple_reachable_ind E
              (fun w => Simple.history (Simple.st w)
                        = conversation (shown (Simple.chatContainer w))) _ _).
    + intros ls. reflexivity.
    + intros w e w' _ IH Hf.
      destruct Hf as [e _ _ Hh _ _ Hs | e _ Hst _ _ Hs
                      | o v _ Hst _ _ Hs | o err _ Hst _ _ Hs].
      * rewrite Hh, Hs. exact IH.
      * rewrite Hst, Hs, conversation_app, <- IH. reflexivity.
      * rewrite Hst, Hs, conversation_app, conversation_reply, <- IH.
        reflexivity.
      * rewrite Hst, Hs, conversation_app, <- IH. cbn. rewrite app_nil_r.
        reflexivity.
  - refine (phase_reachable_ind E
              (fun w =>
                 match Phase.phase_ (Phase.st w) with
                 | Phase.TOPIC_SETTING =>
                     Phase.history (Phase.st w) = []
                     /\ conversation (shown (Phase.chatContainer w)) = []
                 | _ =>
                     exists rest,
                       Phase.history (Phase.st w)
                       = user_msg (Phase.consultation_opening
                                     (Phase.topic (Phase.st w))) :: rest
                       /\ conversation (shown (Phase.chatContainer w))
                          = user_msg (Phase.topic_announcement
                                        (Phase.topic (Phase.st w))) :: rest
                 end) _ _).
    + intros ls. split; reflexivity.
    + intros w e w' R IH Hf.
      assert (forall l,
                 Phase.phase_ (Phase.st w) <> Phase.TOPIC_SETTING ->
                 Phase.phase_ (Phase.st w') = Phase.phase_ (Phase.st w) ->
                 Phase.topic (Phase.st w') = Phase.topic (Phase.st w) ->
                 Phase.history (Phase.st w') = Phase.history (Phase.st w) ++ l ->
                 conversation (shown (Phase.chatContainer w'))
                 = conversation (shown (Phase.chatContainer w)) ++ l ->
                 match Phase.phase_ (Phase.st w') with
                 | Phase.TOPIC_SETTING =>
                     Phase.history (Phase.st w') = []
                     /\ conversation (shown (Phase.chatContainer w')) = []
                 | _ =>
                     exists rest,
                       Phase.history (Phase.st w')
                       = user_msg (Phase.consultation_opening
                                     (Phase.topic (Phase.st w'))) :: rest
                       /\ conversation (shown (Phase.chatContainer w'))
                          = user_msg (Phase.topic_announcement
                                        (Phase.topic (Phase.st w'))) :: rest
                 end) as later.
      { intros l P Hp Ht Hh Hs. rewrite Hp, Ht, Hh, Hs.
        destruct (Phase.phase_ (Phase.st w)); [contradiction| |];
          destruct IH as (rest & -> & ->); exists (rest ++ l);
          split; reflexivity. }
      assert (forall i k, nth_error (Phase.pending w) i = Some k ->
                          Phase.phase_ (Phase.st w) <> Phase.TOPIC_SETTING)
        as busy.
      { intros i k Hk P.
        destruct (phase_topic_setting_blank E w R P) as (_ & _ & Hp & _).
        rewrite Hp in Hk. destruct i; discriminate. }
      destruct Hf as [e _ _ Hp Ht Hh _ _ Hs | e _ P Hst _ _ Hs
                      | e _ P Hst _ _ Hs
                      | i o k v Hk _ Hst _ _ Hs | i o k err Hk _ Hst _ _ Hs].
      * rewrite Hp, Ht, Hh, Hs. exact IH.
      * rewrite P in IH. destruct IH as [IH1 IH2].
        rewrite Hst, Hs, conversation_app, IH1, IH2. cbn.
        exists []. split; reflexivity.
      * apply (later [user_msg (trim (Phase.userInput w))]); try assumption;
          try (rewrite Hst; reflexivity).
        rewrite Hs, conversation_app. reflexivity.
      * apply (later [assistant_msg v]); try (rewrite Hst; reflexivity).
        -- exact (busy i k Hk).
        -- rewrite Hs, conversation_app, conversation_reply. reflexivity.
      * apply (later []); try (rewrite Hst; reflexivity).
        -- exact (busy i k Hk).
        -- rewrite Hst, app_nil_r. reflexivity.
        -- rewrite Hs, conversation_app. reflexivity.
Qed.

Lemma simple_run_reachable E w es w' :
  Simple.reachable E w -> Simple.run E w es = Some w' -> Simple.reachable E w'.
Proof.
  revert w. induction es as [|e es IH]; intros w R H; cbn in H.
  - injection H as <-. exact R.
  - destruct (Simple.step E w e) as [w1|] eqn:Hs; [|discriminate].
    apply (IH w1); [|exact H]. eapply Simple.reachable_step; eassumption.
Qed.

Lemma sample_chat_reachable : Simple.reachable sample_engine sample_chat.
Proof.
  apply (simple_run_reachable sample_engine (Simple.init stored_key)
           [Simple.input_userInput (js "Hi"); Simple.click_sendBtn;
            Simple.settle (reply (js "Hello!"))]).
  - apply Simple.reachable_init.
  - vm_compute. reflexivity.
Defined.

(** The sample sessions. *)
Lemma history_matches_display_sample :
  Simple.history (Simple.st sample_chat)
  = conversation (shown (Simple.chatContainer sample_chat))
  /\ exists rest,
       Phase.history (Phase.st sample_discussion)
       = user_msg (Phase.consultation_opening (js "reduce onboarding drop-off"))
         :: rest
       /\ conversation (shown (Phase.chatContainer sample_discussion))
          = user_msg (Phase.topic_announcement (js "reduce onboarding drop-off"))
            :: rest.
Proof.
  destruct (history_matches_display sample_engine) as (HS & HP).
  split.
  - apply HS. exact sample_chat_reachable.
  - pose proof (HP sample_discussion sample_discussion_reachable) as H.
    vm_compute in H. vm_compute. exact H.
Defined.

(** ** What was sent *)

Lemma phase_accepted_guards w e :
  PhaseEffect.accepted w e = true ->
  trim (Phase.userInput w) <> [] /\ Phase.apiKey (Phase.st w) <> [].
Proof.
  unfold PhaseEffect.accepted. intros H.
  apply andb_prop in H. destruct H as [H K].
  apply andb_prop in H. destruct H as [_ T].
  apply negb_true_iff in T, K.
  split; apply is_empty_false; assumption.
Qed.

Lemma simple_accepted_guards w e :
  SimpleEffect.accepted w e = true ->
  trim (Simple.userInput w) <> [] /\ Simple.apiKey (Simple.st w) <> [].
Proof.
  unfold SimpleEffect.accepted. intros H.
  apply andb_prop in H. destruct H as [H K].
  apply andb_prop in H. destruct H as [_ T].
  apply negb_true_iff in T, K.
  split; apply is_empty_false; assumption.
Qed.

Lemma consultation_opening_not_empty text :
  Phase.consultation_opening text <> [].
Proof.
  unfold Phase.consultation_opening. intros H.
  apply (f_equal (@length _)) in H. rewrite length_app in H.
  change (length (js "題目は「")) with 4 in H. cbn in H. lia.
Qed.

Lemma sent_from_grows hist l c : sent_from hist c -> sent_from (hist ++ l) c.
Proof.
  intros (Hb & s & h & u & rest & Hm & Hu & ->).
  split; [exact Hb|]. exists s, h, u, (rest ++ l).
  split; [exact Hm|]. split; [exact Hu|].
  rewrite <- app_assoc. reflexivity.
Qed.

(** X4.  In both variants, of every request a session has sent: it
    carried a non-empty API key; its messages are the system message
    followed by a history that ends with a user message of non-empty
    text; and that history is a beginning of the history as it is now.
    So no request leaves without a key or without a user turn at its
    end, and what was sent is never rewritten afterwards. *)
Theorem requests_end_with_user_turn (E : engine) :
  (forall w : Phase.world,
      Phase.reachable E w ->
      Forall (sent_from (Phase.history (Phase.st w))) (Phase.fetches w))
  /\ (forall w : Simple.world,
         Simple.reachable E w ->
         Forall (sent_from (Simple.history (Simple.st w))) (Simple.fetches w)).
Proof.
  split.
  - induction 1 as [ls | w e w' R IH H]; [constructor|].
    destruct (phase_step_grows E w e w' H) as ([l Hl] & _).
    rewrite (phase_fetches_step E w e w' H).
    apply Forall_app. split.
    + rewrite Hl. eapply Forall_impl; [|exact IH].
      intros c. apply sent_from_grows.
    + destruct (PhaseEffect.accepted w e) eqn:A; [|constructor].
      constructor; [|constructor].
      destruct (phase_accepted_guards w e A) as [T K].
      apply phase_step_effect in H.
      destruct H as [e A' | e _ _ Hst | e _ _ Hst | i o k v | i o k err];
        try discriminate.
      * rewrite A in A'. discriminate.
      * split; [rewrite Hst; exact K|].
        exists (Phase.systemContent (Phase.topic (Phase.st w'))),
          (Phase.history (Phase.st w)),
          (Phase.consultation_opening (trim (Phase.userInput w))), [].
        split; [cbn; rewrite Hst; reflexivity|].
        split; [apply consultation_opening_not_empty|].
        rewrite Hst. reflexivity.
      * split; [rewrite Hst; exact K|].
        exists (Phase.systemContent (Phase.topic (Phase.st w'))),
          (Phase.history (Phase.st w)), (trim (Phase.userInput w)), [].
        split; [cbn; rewrite Hst; reflexivity|].
        split; [exact T|]. rewrite Hst. reflexivity.
  - induction 1 as [ls | w e w' R IH H]; [constructor|].
    destruct (simple_step_grows E w e w' H) as ([l Hl] & _).
    rewrite (simple_fetches_step E w e w' H).
    apply Forall_app. split.
    + rewrite Hl. eapply Forall_impl; [|exact IH].
      intros c. apply sent_from_grows.
    + destruct (SimpleEffect.accepted w e) eqn:A; [|constructor].
      constructor; [|constructor].
      destruct (simple_accepted_guards w e A) as [T K].
      apply simple_step_effect in H.
      destruct H as [e A' | e _ Hst | o v | o err]; try discriminate.
      * rewrite A in A'. discriminate.
      * split; [rewrite Hst; exact K|].
        exists Simple.system_prompt, (Simple.history (Simple.st w)),
          (trim (Simple.userInput w)), [].
        split; [cbn; rewrite Hst; reflexivity|].
        split; [exact T|]. rewrite Hst. reflexivity.
Qed.

(** The requests of the sample sessions. *)
Lemma requests_sample :
  Forall (sent_from (Phase.history (Phase.st sample_discussion)))
    (Phase.fetches sample_discussion)
  /\ Forall (sent_from (Simple.history (Simple.st sample_chat)))
       (Simple.fetches sample_chat).
Proof.
  destruct (requests_end_with_user_turn sample_engine) as (HP & HS).
  split.
  - apply HP. exact sample_discussion_reachable.
  - apply HS. exact sample_chat_reachable.
Defined.

(** ** The loading indicator *)

Lemma loading_count_app c d :
  loading_count (c ++ d) = loading_count c + loading_count d.
Proof.
  induction c as [|[r v|] c IH]; cbn; [reflexivity | exact IH | f_equal; exact IH].
Qed.

Lemma loading_count_remove c :
  loading_count (remove_first_loading c) = pred (loading_count c).
Proof.
  induction c as [|[r v|] c IH]; cbn; [reflexivity | exact IH | reflexivity].
Qed.

Lemma loading_count_none c : loading_count c = 0 -> ~ In LoadingDiv c.
Proof.
  induction c as [|[r v|] c IH]; cbn; intros H Hin.
  - exact Hin.
  - destruct Hin as [Hin | Hin]; [discriminate | exact (IH H Hin)].
  - discriminate.
Qed.

Lemma length_remove_nth {A} (l : list A) i x :
  nth_error l i = Some x -> length (remove_nth i l) = pred (length l).
Proof.
  revert i. induction l as [|y l IH]; intros [|i] H; cbn in *;
    try discriminate; try reflexivity.
  rewrite (IH i H). destruct l; [destruct i; discriminate | reflexivity].
Qed.

Lemma phase_step_loading E w e w' :
  Phase.step E w e = Some w' ->
  loading_count (Phase.chatContainer w) <= length (Phase.pending w) ->
  loading_count (Phase.chatContainer w') <= length (Phase.pending w').
Proof.
  assert (loading_count (Phase.chatContainer w) <= length (Phase.pending w) ->
          loading_count (Phase.chatContainer (run_handler Phase.handleSend w))
          <= length (Phase.pending (run_handler Phase.handleSend w))) as send.
  { intros L.
    destruct (is_empty (trim (Phase.userInput w))) eqn:T.
    { rewrite (phase_send_blank w T). exact L. }
    destruct (is_empty (Phase.apiKey (Phase.st w))) eqn:K.
    { rewrite (phase_send_keyless w T K). exact L. }
    destruct (Phase.phase_ (Phase.st w)) eqn:P.
    - destruct (phase_send_topic w T K P)
        as (_ & _ & _ & _ & S5 & _ & _ & _ & S9 & _).
      rewrite S5, S9, loading_count_app, length_app. cbn. lia.
    - assert (Phase.phase_ (Phase.st w) <> Phase.TOPIC_SETTING) as P'
        by congruence.
      destruct (phase_send_turn w T K P')
        as (_ & _ & _ & _ & S5 & _ & _ & _ & S9 & _).
      rewrite S5, S9, loading_count_app, length_app. cbn. lia.
    - assert (Phase.phase_ (Phase.st w) <> Phase.TOPIC_SETTING) as P'
        by congruence.
      destruct (phase_send_turn w T K P')
        as (_ & _ & _ & _ & S5 & _ & _ & _ & S9 & _).
      rewrite S5, S9, loading_count_app, length_app. cbn. lia. }
  destruct e; intros H L; cbn in H.
  - injection H as <-. exact L.
  - injection H as <-. exact L.
  - injection H as <-. unfold run_handler, Phase.saveApiKey, bind, gets. cbn.
    destruct (is_empty (trim (Phase.apiKeyInput w))); exact L.
  - destruct (nth_error MODELS option_index); [|discriminate].
    injection H as <-. exact L.
  - injection H as <-. exact L.
  - injection H as <-. exact L.
  - injection H as <-. exact (send L).
  - injection H as <-. exact (send L).
  - destruct (nth_error (Phase.chatContainer w) child_index) as [[r c|]|];
      try discriminate.
    injection H as <-. unfold run_handler, Phase.speakText, bind, lift. cbn.
    destruct (replace_receiver c); exact L.
  - destruct (nth_error (Phase.pending w) request_index) as [k|] eqn:Hk;
      [|discriminate].
    injection H as <-.
    pose proof (length_remove_nth _ _ _ Hk) as Hlen.
    assert (length (Phase.pending w) <> 0) as Hne
      by (destruct (Phase.pending w); [destruct request_index; discriminate
                                      | discriminate]).
    set (w0 := Phase.set_pending
                 (remove_nth request_index (Phase.pending w)) w) in *.
    destruct (fetchGroqCompletion_result o) as [v|err] eqn:Ho.
    + destruct (phase_resume_success E k o v w0 Ho)
        as (_ & _ & _ & _ & _ & _ & _ & _ & S9).
      rewrite S9. pose proof (phase_resume_reply E k o v w0 Ho) as R.
      subst w0. cbn [Phase.pending Phase.set_pending Phase.chatContainer
                      Phase.st Phase.speech] in *.
      rewrite Hlen.
      destruct (Phase.autoSpeak (Phase.st w));
        [destruct (replace_receiver v)|]; destruct R as [R _]; rewrite R;
        repeat (rewrite loading_count_app || rewrite loading_count_remove);
        cbn; lia.
    + destruct (phase_resume_failure E k o err w0 Ho)
        as (_ & _ & _ & _ & S5 & _ & _ & _ & S9 & _).
      rewrite S5, S9. subst w0.
      cbn [Phase.pending Phase.set_pending Phase.chatContainer].
      rewrite Hlen, loading_count_app, loading_count_remove. cbn. lia.
Qed.

Lemma simple_step_loading E w e w' :
  Simple.step E w e = Some w' ->
  loading_count (Simple.chatContainer w) <= Simple.pending w ->
  loading_count (Simple.chatContainer w') <= Simple.pending w'.
Proof.
  assert (loading_count (Simple.chatContainer w) <= Simple.pending w ->
          loading_count (Simple.chatContainer (run_handler Simple.handleSend w))
          <= Simple.pending (run_handler Simple.handleSend w)) as send.
  { intros L.
    destruct (is_empty (trim (Simple.userInput w))) eqn:T.
    { rewrite (simple_send_blank w T). exact L. }
    destruct (is_empty (Simple.apiKey (Simple.st w))) eqn:K.
    { rewrite (simple_send_keyless w T K). exact L. }
    destruct (simple_send_turn w T K) as (_ & _ & _ & S5 & _ & _ & _ & S9 & _).
    rewrite S5, S9, loading_count_app. cbn. lia. }
  assert (loading_count (Simple.chatContainer w) <= Simple.pending w ->
          loading_count (Simple.chatContainer (run_handler Simple.saveApiKey w))
          <= Simple.pending (run_handler Simple.saveApiKey w)) as save.
  { intros L. unfold run_handler, Simple.saveApiKey, bind, gets. cbn.
    destruct (is_empty (trim (Simple.apiKeyInput w))); exact L. }
  destruct e; intros H L; cbn in H.
  - injection H as <-. exact L.
  - injection H as <-. exact L.
  - injection H as <-. exact (save L).
  - injection H as <-. exact (save L).
  - destruct (nth_error MODELS option_index); [|discriminate].
    injection H as <-. exact L.
  - injection H as <-. exact L.
  - injection H as <-. exact L.
  - injection H as <-. exact (send L).
  - injection H as <-. exact (send L).
  - destruct (nth_error (Simple.chatContainer w) child_index) as [[r c|]|];
      try discriminate.
    injection H as <-. unfold run_handler, Simple.speakText, bind, lift. cbn.
    destruct (replace_receiver c); exact L.
  - destruct (Simple.has_spoken w); [|discriminate].
    injection H as <-. exact L.
  - destruct (Simple.has_spoken w); [|discriminate].
    injection H as <-. exact L.
  - destruct (Simple.has_spoken w); [|discriminate].
    injection H as <-. exact L.
  - destruct (Simple.pending w) as [|n] eqn:Hp; [discriminate|].
    injection H as <-.
    set (w0 := Simple.set_pending n w) in *.
    destruct (fetchGroqCompletion_result o) as [v|err] eqn:Ho.
    + destruct (simple_resume_success E o v w0 Ho)
        as (_ & _ & _ & _ & _ & _ & _ & S9).
      rewrite S9. pose proof (simple_resume_reply E o v w0 Ho) as R.
      subst w0. cbn [Simple.pending Simple.set_pending Simple.chatContainer
                      Simple.st Simple.speech] in *.
      destruct (Simple.autoSpeak (Simple.st w));
        [destruct (replace_receiver v)|]; destruct R as [R _]; rewrite R;
        repeat (rewrite loading_count_app || rewrite loading_count_remove);
        cbn; lia.
    + destruct (simple_resume_failure E o err w0 Ho)
        as (_ & _ & _ & S5 & _ & _ & _ & S9 & _).
      rewrite S5, S9. subst w0.
      cbn [Simple.pending Simple.set_pending Simple.chatContainer].
      rewrite loading_count_app, loading_count_remove. cbn. lia.
Qed.

(** X5.  In both variants, in every world a session reaches, the chat
    container holds at most as many loading indicators as there are
    requests not yet settled.  So once every request is settled no
    indicator is left on the page, whatever the order in which the
    requests were sent and settled. *)
Theorem no_indicator_without_request (E : engine) :
  (forall w : Phase.world,
      Phase.reachable E w ->
      loading_count (Phase.chatContainer w) <= length (Phase.pending w)
      /\ (Phase.pending w = [] -> ~ In LoadingDiv (Phase.chatContainer w)))
  /\ (forall w : Simple.world,
         Simple.reachable E w ->
         loading_count (Simple.chatContainer w) <= Simple.pending w
         /\ (Simple.pending w = 0 -> ~ In LoadingDiv (Simple.chatContainer w))).
Proof.
  split.
  - intros w R.
    assert (loading_count (Phase.chatContainer w) <= length (Phase.pending w))
      as L.
    { induction R as [ls | w e w' R IH H]; [cbn; lia|].
      exact (phase_step_loading E w e w' H IH). }
    split; [exact L|]. intros Hp. rewrite Hp in L.
    apply loading_count_none. cbn in L. lia.
  - intros w R.
    assert (loading_count (Simple.chatContainer w) <= Simple.pending w) as L.
    { induction R as [ls | w e w' R IH H]; [cbn; lia|].
      exact (simple_step_loading E w e w' H IH). }
    split; [exact L|]. intros Hp. rewrite Hp in L.
    apply loading_count_none. lia.
Qed.

(** The sample sessions have settled their requests. *)
Lemma no_indicator_sample :
  ~ In LoadingDiv (Phase.chatContainer sample_discussion)
  /\ ~ In LoadingDiv (Simple.chatContainer sample_chat).
Proof.
  destruct (no_indicator_without_request sample_engine) as (HP & HS).
  split.
  - apply (HP sample_discussion sample_discussion_reachable). reflexivity.
  - apply (HS sample_chat sample_chat_reachable). reflexivity.
Defined.

(** ** A second press on send *)

(** X6.  In both variants an accepted press on send clears the input,
    so a second press right after it (a double click, Enter held down)
    changes nothing: one submission, one request. *)
Theorem second_press_does_nothing (E : engine) :
  (forall (w : Phase.world) (e e' : Phase.event) (w' : Phase.world),
      PhaseEffect.accepted w e = true ->
      PhaseEffect.is_send e' = true ->
      Phase.step E w e = Some w' ->
      Phase.userInput w' = [] /\ Phase.step E w' e' = Some w')
  /\ (forall (w : Simple.world) (e e' : Simple.event) (w' : Simple.world),
         SimpleEffect.accepted w e = true ->
         SimpleEffect.is_send e' = true ->
         Simple.step E w e = Some w' ->
         Simple.userInput w' = [] /\ Simple.step E w' e' = Some w').
Proof.
  split.
  - intros w e e' w' A He' H.
    assert (Phase.userInput w' = []) as U.
    { unfold PhaseEffect.accepted in A.
      apply andb_prop in A. destruct A as [A K].
      apply andb_prop in A. destruct A as [He T].
      apply negb_true_iff in T, K.
      assert (w' = run_handler Phase.handleSend w) as ->
        by (destruct e; try discriminate; cbn in H; congruence).
      destruct (Phase.phase_ (Phase.st w)) eqn:P.
      - destruct (phase_send_topic w T K P) as (_ & S2 & _). exact S2.
      - assert (Phase.phase_ (Phase.st w) <> Phase.TOPIC_SETTING) as P'
          by congruence.
        destruct (phase_send_turn w T K P') as (_ & S2 & _). exact S2.
      - assert (Phase.phase_ (Phase.st w) <> Phase.TOPIC_SETTING) as P'
          by congruence.
        destruct (phase_send_turn w T K P') as (_ & S2 & _). exact S2. }
    split; [exact U|].
    assert (is_empty (trim (Phase.userInput w')) = true) as T'
      by (rewrite U; reflexivity).
    destruct e'; try discriminate; cbn;
      rewrite (phase_send_blank w' T'); reflexivity.
  - intros w e e' w' A He' H.
    assert (Simple.userInput w' = []) as U.
    { unfold SimpleEffect.accepted in A.
      apply andb_prop in A. destruct A as [A K].
      apply andb_prop in A. destruct A as [He T].
      apply negb_true_iff in T, K.
      assert (w' = run_handler Simple.handleSend w) as ->
        by (destruct e; try discriminate; cbn in H; congruence).
      destruct (simple_send_turn w T K) as (_ & S2 & _). exact S2. }
    split; [exact U|].
    assert (is_empty (trim (Simple.userInput w')) = true) as T'
      by (rewrite U; reflexivity).
    destruct e'; try discriminate; cbn;
      rewrite (simple_send_blank w' T'); reflexivity.
Qed.

(** A double click in the sample discussion. *)
Lemma second_press_sample :
  Phase.step sample_engine
    (run_handler Phase.handleSend
       (Phase.set_userInput (js "hello") sample_discussion))
    Phase.click_sendBtn
  = Some (run_handler Phase.handleSend
            (Phase.set_userInput (js "hello") sample_discussion)).
Proof.
  destruct (second_press_does_nothing sample_engine) as (HP & _).
  apply (HP (Phase.set_userInput (js "hello") sample_discussion)
            Phase.click_sendBtn Phase.click_sendBtn).
  - vm_compute. reflexivity.
  - reflexivity.
  - reflexivity.
Defined.

(** ** The message of a failed request *)

(** X7.  What [err.error?.message || 'API Request Failed'] makes of an
    error response.  A non-empty string under [error.message] is the
    message of the exception, and is shown after ["Error: "]; a body
    without [error] (or with [null] there), and an [error] whose
    [message] is absent or falsy -- the empty string among them -- give
    the fixed text [API Request Failed]; the body [null] raises a
    TypeError of the engine instead. *)
Theorem error_message_falls_back (E : engine) :
  (forall props p eprops q m,
      find (fun x => jsstring_eqb (fst x) (js "error")) props = Some p ->
      snd p = VObj eprops ->
      find (fun x => jsstring_eqb (fst x) (js "message")) eprops = Some q ->
      snd q = VStr m ->
      m <> [] ->
      fetchGroqCompletion_result
        (FetchResponse false (JsonParsed (VObj props)))
      = Throw (Error_ (VStr m))
      /\ error_text E (Error_ (VStr m)) = js "Error: " ++ m)
  /\ (forall err e,
         get err p_error = Normal e ->
         e = VUndefined \/ e = VNull
         \/ (exists m, get e p_message = Normal m /\ truthy m = false) ->
         fetchGroqCompletion_result (FetchResponse false (JsonParsed err))
         = Throw (Error_ (VStr (js "API Request Failed"))))
  /\ (forall props,
         find (fun x => jsstring_eqb (fst x) (js "error")) props = None ->
         fetchGroqCompletion_result
           (FetchResponse false (JsonParsed (VObj props)))
         = Throw (Error_ (VStr (js "API Request Failed"))))
  /\ fetchGroqCompletion_result (FetchResponse false (JsonParsed VNull))
     = Throw (TypeError_ (ReadPropertyOf VNull (js "error")))
  /\ error_text E (Error_ (VStr (js "API Request Failed")))
     = js "Error: API Request Failed".
Proof.
  split; [|split; [|split; [|split]]].
  - intros props p eprops q m Hp Hsp Hq Hsq Hm.
    split; [|reflexivity].
    unfold fetchGroqCompletion_result, bindc, get.
    change (key_name p_error) with (js "error"). rewrite Hp, Hsp.
    change (key_name p_message) with (js "message"). rewrite Hq, Hsq.
    destruct m; [contradiction | reflexivity].
  - intros err e He Hcase.
    unfold fetchGroqCompletion_result, bindc. rewrite He.
    destruct Hcase as [-> | [-> | (m & Hm & Ht)]]; try reflexivity.
    destruct e; try (cbn in Hm; discriminate); rewrite Hm, Ht; reflexivity.
  - intros props Hp.
    unfold fetchGroqCompletion_result, bindc, get.
    change (key_name p_error) with (js "error"). rewrite Hp. reflexivity.
  - reflexivity.
  - reflexivity.
Qed.

(** The body [{ error: { message: 'invalid_api_key' } }], and an empty
    object. *)
Lemma error_message_sample :
  fetchGroqCompletion_result invalid_api_key
  = Throw (Error_ (VStr (js "invalid_api_key")))
  /\ fetchGroqCompletion_result (FetchResponse false (JsonParsed (VObj [])))
     = Throw (Error_ (VStr (js "API Request Failed"))).
Proof.
  destruct (error_message_falls_back sample_engine) as (H1 & _ & H3 & _).
  split.
  - apply (H1 _ (js "error", VObj [(js "message", VStr (js "invalid_api_key"))])
              [(js "message", VStr (js "invalid_api_key"))]
              (js "message", VStr (js "invalid_api_key"))
              (js "invalid_api_key")).
    + vm_compute. reflexivity.
    + reflexivity.
    + vm_compute. reflexivity.
    + reflexivity.
    + vm_compute. discriminate.
  - apply H3. reflexivity.
Defined.

(** ** Texts the narration leaves alone *)

Lemma match_think_tags t r :
  match_think t = Some r ->
  occurs think_open t /\ occurs think_close t
  /\ exists a, t = a ++ r /\ a <> [].
Proof.
  unfold match_think. destruct (starts_with think_open t) eqn:Hs;
    [|discriminate].
  intros H. apply starts_with_split in Hs. apply after_close_split in H.
  destruct H as [a Ha]. rewrite Ha in Hs.
  split; [|split].
  - exists [], (a ++ think_close ++ r). exact Hs.
  - exists (think_open ++ a), r. rewrite Hs, <- app_assoc. reflexivity.
  - exists (think_open ++ a ++ think_close). split.
    + rewrite Hs, <- !app_assoc. reflexivity.
    + discriminate.
Qed.

Lemma replace_think_plain s :
  (forall a t, s = a ++ t -> match_think t = None) -> replace_think s = s.
Proof.
  induction s as [|c s IH]; intros H; rewrite Narration.replace_think_unfold;
    [reflexivity|].
  rewrite (H [] (c :: s) eq_refl). f_equal. apply IH.
  intros a t ->. apply (H (c :: a) t). reflexivity.
Qed.

Lemma occurs_suffix p a t : occurs p t -> occurs p (a ++ t).
Proof.
  intros (x & y & ->). exists (a ++ x), y. rewrite <- app_assoc. reflexivity.
Qed.

Lemma replace_think_within n :
  forall s, length s <= n ->
            length (replace_think s) <= length s
            /\ forall c, In c (replace_think s) -> In c s.
Proof.
  induction n as [|n IH]; intros s Hn.
  - destruct s; [|cbn in Hn; lia]. split; [reflexivity | intros c []].
  - rewrite Narration.replace_think_unfold. destruct s as [|x s]; [split; auto|].
    destruct (match_think (x :: s)) as [r|] eqn:Hm.
    + destruct (match_think_tags _ _ Hm) as (_ & _ & a & Ha & Hne).
      assert (length r <= n) as Hr.
      { apply (f_equal (@length _)) in Ha. rewrite length_app in Ha.
        destruct a; [contradiction|]. cbn in Ha, Hn. lia. }
      destruct (IH r Hr) as [IH1 IH2]. rewrite Ha. split.
      * rewrite length_app. lia.
      * intros c Hc. apply in_or_app. right. exact (IH2 c Hc).
    + cbn in Hn. destruct (IH s ltac:(lia)) as [IH1 IH2]. split.
      * cbn. lia.
      * intros c [-> | Hc]; [left; reflexivity | right; exact (IH2 c Hc)].
Qed.

Lemma replace_markdown_plain s : no_marker s -> replace_markdown s = s.
Proof.
  unfold replace_markdown. induction 1 as [|c s Hc _ IH]; cbn;
    [reflexivity|]. rewrite Hc. cbn. f_equal. exact IH.
Qed.

(** X8.  The cleaning before narration only ever removes.  A text
    without the opening tag, and a text without the closing tag (a block
    left open), pass the removal of thinking blocks unchanged; a text
    without markers passes the removal of markers unchanged; in general
    the result is no longer than the text and holds no code unit that
    the text does not hold.  So the phase variant speaks a text with no
    tag and no marker exactly as it is. *)
Theorem narration_only_removes (s : jsstring) :
  (~ occurs think_open s -> replace_think s = s)
  /\ (~ occurs think_close s -> replace_think s = s)
  /\ (no_marker s -> replace_markdown s = s)
  /\ length (replace_markdown (replace_think s)) <= length s
  /\ (forall c, In c (replace_markdown (replace_think s)) -> In c s)
  /\ (forall w : Phase.world,
         ~ occurs think_open s -> no_marker s ->
         Phase.speech (run_handler (Phase.speakText (VStr s)) w)
         = Phase.speech w ++ [SpeechCancel; SpeechSpeak s (lang_of s)]).
Proof.
  assert (~ occurs think_open s -> replace_think s = s) as Hopen.
  { intros H. apply replace_think_plain. intros a t -> .
    destruct (match_think t) as [r|] eqn:Hm; [|reflexivity].
    exfalso. apply H. apply occurs_suffix.
    apply (match_think_tags _ _ Hm). }
  split; [exact Hopen|]. split; [|split; [|split; [|split]]].
  - intros H. apply replace_think_plain. intros a t -> .
    destruct (match_think t) as [r|] eqn:Hm; [|reflexivity].
    exfalso. apply H. apply occurs_suffix.
    apply (match_think_tags _ _ Hm).
  - apply replace_markdown_plain.
  - destruct (replace_think_within (length s) s (le_n _)) as [H _].
    unfold replace_markdown.
    pose proof (filter_length_le
                  (fun c => negb (isMarkdownMarker c)) (replace_think s)).
    lia.
  - intros c Hc. unfold replace_markdown in Hc. apply filter_In in Hc.
    destruct Hc as [Hc _].
    destruct (replace_think_within (length s) s (le_n _)) as [_ H].
    exact (H c Hc).
  - intros w Ho Hm. unfold run_handler, Phase.speakText, bind, lift. cbn.
    rewrite (Hopen Ho), (replace_markdown_plain s Hm), <- app_assoc.
    reflexivity.
Qed.

(** A block left open is spoken as it stands. *)
Lemma narration_only_removes_sample :
  replace_think (js "a<think>b") = js "a<think>b".
Proof.
  destruct (narration_only_removes (js "a<think>b")) as (_ & H & _).
  apply H. intros (a & b & Hab).
  assert (exists r, skipn (length a) (js "a<think>b") = 60%N :: 47%N :: r)
    as [r Hr].
  { rewrite Hab, skipn_app, Nat.sub_diag, skipn_all. eexists. reflexivity. }
  assert (length a <= 9) as Hl.
  { apply (f_equal (@length _)) in Hab. rewrite !length_app in Hab.
    change (length (js "a<think>b")) with 9 in Hab. lia. }
  do 10 (destruct a as [|? a]; [vm_compute in Hr; discriminate|]);
    cbn in Hl; lia.
Defined.

(** ** The calls on the speech synthesis *)

Lemma replace_markdown_no_marker s : no_marker (replace_markdown s).
Proof.
  unfold no_marker, replace_markdown. apply Forall_forall. intros c Hc.
  apply filter_In in Hc. destruct Hc as [_ Hc].
  apply negb_true_iff in Hc. exact Hc.
Qed.

(** What one narration adds to the trace. *)
Inductive narration_step : list speech_call -> Prop :=
| narration_none : narration_step []
| narration_cancel : narration_step [SpeechCancel]
| narration_speak t :
    no_marker t -> narration_step [SpeechCancel; SpeechSpeak t (lang_of t)].

Lemma narrations_step l d :
  narrations l -> narration_step d -> narrations (l ++ d).
Proof.
  intros Hl [| |t Ht].
  - rewrite app_nil_r. exact Hl.
  - apply narrations_cancel, Hl.
  - apply narrations_speak; assumption.
Qed.

Lemma phase_step_speech E w e w' :
  Phase.step E w e = Some w' ->
  exists d,
    Phase.speech w' = Phase.speech w ++ d
    /\ narration_step d
    /\ (Phase.autoSpeak (Phase.st w) = false ->
        (forall i, e <> Phase.click_speakBtn i) ->
        e <> Phase.click_stopSpeechBtn ->
        d = []).
Proof.
  assert (forall w1, Phase.speech w1 = Phase.speech w ->
                     exists d,
                       Phase.speech w1 = Phase.speech w ++ d
                       /\ narration_step d
                       /\ (Phase.autoSpeak (Phase.st w) = false ->
                           (forall i, e <> Phase.click_speakBtn i) ->
                           e <> Phase.click_stopSpeechBtn ->
                           d = [])) as same.
  { intros w1 H. exists []. rewrite app_nil_r.
    split; [exact H|]. split; [constructor | reflexivity]. }
  assert (Phase.speech (run_handler Phase.handleSend w) = Phase.speech w)
    as send.
  { destruct (is_empty (trim (Phase.userInput w))) eqn:T.
    { rewrite (phase_send_blank w T). reflexivity. }
    destruct (is_empty (Phase.apiKey (Phase.st w))) eqn:K.
    { rewrite (phase_send_keyless w T K). reflexivity. }
    destruct (Phase.phase_ (Phase.st w)) eqn:P.
    - destruct (phase_send_topic w T K P)
        as (_ & _ & _ & _ & _ & _ & _ & _ & _ & S10). exact S10.
    - assert (Phase.phase_ (Phase.st w) <> Phase.TOPIC_SETTING) as P'
        by congruence.
      destruct (phase_send_turn w T K P')
        as (_ & _ & _ & _ & _ & _ & _ & _ & _ & S10). exact S10.
    - assert (Phase.phase_ (Phase.st w) <> Phase.TOPIC_SETTING) as P'
        by congruence.
      destruct (phase_send_turn w T K P')
        as (_ & _ & _ & _ & _ & _ & _ & _ & _ & S10). exact S10. }
  destruct e; intros H; cbn in H.
  - injection H as <-. apply same. reflexivity.
  - injection H as <-. apply same. reflexivity.
  - injection H as <-. apply same.
    unfold run_handler, Phase.saveApiKey, bind, gets. cbn.
    destruct (is_empty (trim (Phase.apiKeyInput w))); reflexivity.
  - destruct (nth_error MODELS option_index); [|discriminate].
    injection H as <-. apply same. reflexivity.
  - injection H as <-. apply same. reflexivity.
  - injection H as <-. exists [SpeechCancel].
    split; [reflexivity|]. split; [constructor|].
    intros _ _ Hne. contradiction.
  - injection H as <-. apply same. exact send.
  - injection H as <-. apply same. exact send.
  - destruct (nth_error (Phase.chatContainer w) child_index) as [[r c|]|];
      try discriminate.
    injection H as <-. unfold run_handler, Phase.speakText, bind, lift. cbn.
    destruct (replace_receiver c) as [s|err]; cbn.
    + eexists. split; [rewrite <- app_assoc; reflexivity|].
      split; [constructor; apply replace_markdown_no_marker|].
      intros _ Hne _. exfalso. exact (Hne child_index eq_refl).
    + exists [SpeechCancel]. split; [reflexivity|]. split; [constructor|].
      intros _ Hne _. exfalso. exact (Hne child_index eq_refl).
  - destruct (nth_error (Phase.pending w) request_index) as [k|];
      [|discriminate].
    injection H as <-.
    set (w0 := Phase.set_pending
                 (remove_nth request_index (Phase.pending w)) w) in *.
    destruct (fetchGroqCompletion_result o) as [v|err] eqn:Ho.
    + pose proof (phase_resume_reply E k o v w0 Ho) as R. subst w0.
      cbn [Phase.st Phase.set_pending Phase.speech] in R.
      destruct (Phase.autoSpeak (Phase.st w));
        [destruct (replace_receiver v)|]; destruct R as [_ R].
      * eexists. split; [exact R|].
        split; [constructor; apply replace_markdown_no_marker|].
        discriminate.
      * eexists. split; [exact R|]. split; [constructor | discriminate].
      * exists []. rewrite app_nil_r. split; [exact R|].
        split; [constructor | reflexivity].
    + destruct (phase_resume_failure E k o err w0 Ho)
        as (_ & _ & _ & _ & _ & _ & _ & _ & _ & S10).
      apply same. exact S10.
Qed.

Lemma simple_step_speech E w e w' :
  Simple.step E w e = Some w' ->
  exists d,
    Simple.speech w' = Simple.speech w ++ d
    /\ narration_step d
    /\ (Simple.autoSpeak (Simple.st w) = false ->
        (forall i, e <> Simple.click_speakBtn i) ->
        e <> Simple.click_stopSpeechBtn ->
        d = []).
Proof.
  assert (forall w1, Simple.speech w1 = Simple.speech w ->
                     exists d,
                       Simple.speech w1 = Simple.speech w ++ d
                       /\ narration_step d
                       /\ (Simple.autoSpeak (Simple.st w) = false ->
                           (forall i, e <> Simple.click_speakBtn i) ->
                           e <> Simple.click_stopSpeechBtn ->
                           d = [])) as same.
  { intros w1 H. exists []. rewrite app_nil_r.
    split; [exact H|]. split; [constructor | reflexivity]. }
  assert (exists d,
             Simple.speech (run_handler Simple.handleSend w)
             = Simple.speech w ++ d
             /\ narration_step d
             /\ (Simple.autoSpeak (Simple.st w) = false -> d = [])) as send.
  { destruct (is_empty (trim (Simple.userInput w))) eqn:T.
    { rewrite (simple_send_blank w T). exists []. rewrite app_nil_r.
      split; [reflexivity|]. split; [constructor | reflexivity]. }
    destruct (is_empty (Simple.apiKey (Simple.st w))) eqn:K.
    { rewrite (simple_send_keyless w T K). exists []. rewrite app_nil_r.
      split; [reflexivity|]. split; [constructor | reflexivity]. }
    destruct (simple_send_turn w T K)
      as (_ & _ & _ & _ & _ & _ & _ & _ & S9).
    eexists. split; [exact S9|]. unfold prompt_speech.
    destruct (Simple.autoSpeak (Simple.st w)).
    - split; [constructor; apply replace_markdown_no_marker | discriminate].
    - split; [constructor | reflexivity]. }
  assert (Simple.speech (run_handler Simple.saveApiKey w) = Simple.speech w)
    as save.
  { unfold run_handler, Simple.saveApiKey, bind, gets. cbn.
    destruct (is_empty (trim (Simple.apiKeyInput w))); reflexivity. }
  destruct e; intros H; cbn in H.
  - injection H as <-. apply same. reflexivity.
  - injection H as <-. apply same. reflexivity.
  - injection H as <-. apply same. exact save.
  - injection H as <-. apply same. exact save.
  - destruct (nth_error MODELS option_index); [|discriminate].
    injection H as <-. apply same. reflexivity.
  - injection H as <-. apply same. reflexivity.
  - injection H as <-. exists [SpeechCancel].
    split; [reflexivity|]. split; [constructor|].
    intros _ _ Hne. contradiction.
  - injection H as <-. destruct send as (d & H1 & H2 & H3).
    exists d. split; [exact H1|]. split; [exact H2|]. intros Ha _ _. auto.
  - injection H as <-. destruct send as (d & H1 & H2 & H3).
    exists d. split; [exact H1|]. split; [exact H2|]. intros Ha _ _. auto.
  - destruct (nth_error (Simple.chatContainer w) child_index) as [[r c|]|];
      try discriminate.
    injection H as <-. unfold run_handler, Simple.speakText, bind, lift. cbn.
    destruct (replace_receiver c) as [s|err]; cbn.
    + eexists. split; [rewrite <- app_assoc; reflexivity|].
      split; [constructor; apply replace_markdown_no_marker|].
      intros _ Hne _. exfalso. exact (Hne child_index eq_refl).
    + exists [SpeechCancel]. split; [reflexivity|]. split; [constructor|].
      intros _ Hne _. exfalso. exact (Hne child_index eq_refl).
  - destruct (Simple.has_spoken w); [|discriminate].
    injection H as <-. apply same. reflexivity.
  - destruct (Simple.has_spoken w); [|discriminate].
    injection H as <-. apply same. reflexivity.
  - destruct (Simple.has_spoken w); [|discriminate].
    injection H as <-. apply same. reflexivity.
  - destruct (Simple.pending w) as [|n]; [discriminate|].
    injection H as <-.
    set (w0 := Simple.set_pending n w) in *.
    destruct (fetchGroqCompletion_result o) as [v|err] eqn:Ho.
    + pose proof (simple_resume_reply E o v w0 Ho) as R. subst w0.
      cbn [Simple.st Simple.set_pending Simple.speech] in R.
      destruct (Simple.autoSpeak (Simple.st w));
        [destruct (replace_receiver v)|]; destruct R as [_ R].
      * eexists. split; [exact R|].
        split; [constructor; apply replace_markdown_no_marker|].
        discriminate.
      * eexists. split; [exact R|]. split; [constructor | discriminate].
      * exists []. rewrite app_nil_r. split; [exact R|].
        split; [constructor | reflexivity].
    + destruct (simple_resume_failure E o err w0 Ho)
        as (_ & _ & _ & _ & _ & _ & _ & _ & S10).
      apply same. exact S10.
Qed.

Lemma rev_case {A} (b : list A) :
  b = [] \/ exists b' z, b = b' ++ [z].
Proof.
  induction b as [|z b IH] using rev_ind; [left; reflexivity|].
  right. exists b, z. reflexivity.
Qed.

Lemma snoc_split {A} (l a b : list A) (x y : A) :
  l ++ [x] = a ++ y :: b ->
  (b = [] /\ l = a /\ x = y) \/ (exists b', b = b' ++ [x] /\ l = a ++ y :: b').
Proof.
  intros H. destruct (rev_case b) as [-> | (b' & z & ->)].
  - left. apply app_inj_tail in H. destruct H as [-> ->]. auto.
  - right. exists b'.
    change (a ++ y :: b' ++ [z]) with (a ++ (y :: b') ++ [z]) in H.
    rewrite app_assoc in H. apply app_inj_tail in H.
    destruct H as [-> ->]. auto.
Qed.

(** Every utterance of a trace follows a cancel, is free of markers, and
    has the language chosen for its text. *)
Lemma narrations_utterance l :
  narrations l ->
  forall a t lang b,
    l = a ++ SpeechSpeak t lang :: b ->
    (exists a', a = a' ++ [SpeechCancel]) /\ no_marker t /\ lang = lang_of t.
Proof.
  induction 1 as [|l Hl IH|l t0 Hl IH Ht0]; intros a t lang b H.
  - destruct a; discriminate.
  - apply snoc_split in H.
    destruct H as [(_ & _ & H) | (b' & _ & H)]; [discriminate|].
    exact (IH a t lang b' H).
  - change (l ++ [SpeechCancel; SpeechSpeak t0 (lang_of t0)])
      with (l ++ [SpeechCancel] ++ [SpeechSpeak t0 (lang_of t0)]) in H.
    rewrite app_assoc in H. apply snoc_split in H.
    destruct H as [(_ & Ha & H) | (b' & _ & H)].
    + injection H as <- <-. split; [exists l; symmetry; exact Ha|].
      split; [exact Ht0 | reflexivity].
    + apply snoc_split in H.
      destruct H as [(_ & _ & H) | (b'' & _ & H)]; [discriminate|].
      exact (IH a t lang b'' H).
Qed.

(** X9.  In both variants, in every world a session reaches, every
    utterance handed to the speech synthesis comes right after a cancel,
    so that at most one utterance is ever queued; its text holds no [*],
    [#] or backquote; and its language is the one chosen for that text,
    [ja-JP] or [en-US]. *)
Theorem every_utterance_follows_a_cancel (E : engine) :
  (forall (w : Phase.world) a t lang b,
      Phase.reachable E w ->
      Phase.speech w = a ++ SpeechSpeak t lang :: b ->
      (exists a', a = a' ++ [SpeechCancel])
      /\ no_marker t
      /\ lang = lang_of t
      /\ (lang = js "ja-JP" \/ lang = js "en-US"))
  /\ (forall (w : Simple.world) a t lang b,
         Simple.reachable E w ->
         Simple.speech w = a ++ SpeechSpeak t lang :: b ->
         (exists a', a = a' ++ [SpeechCancel])
         /\ no_marker t
         /\ lang = lang_of t
         /\ (lang = js "ja-JP" \/ lang = js "en-US")).
Proof.
  assert (forall t, lang_of t = js "ja-JP" \/ lang_of t = js "en-US") as two.
  { intros t. unfold lang_of. destruct (hasJapanese t); auto. }
  split.
  - intros w a t lang b R H.
    assert (narrations (Phase.speech w)) as N.
    { clear H. induction R as [ls | w e w' R IH H]; [constructor|].
      destruct (phase_step_speech E w e w' H) as (d & -> & Hd & _).
      apply narrations_step; assumption. }
    destruct (narrations_utterance _ N a t lang b H) as (H1 & H2 & ->).
    repeat split; auto.
  - intros w a t lang b R H.
    assert (narrations (Simple.speech w)) as N.
    { clear H. induction R as [ls | w e w' R IH H]; [constructor|].
      destruct (simple_step_speech E w e w' H) as (d & -> & Hd & _).
      apply narrations_step; assumption. }
    destruct (narrations_utterance _ N a t lang b H) as (H1 & H2 & ->).
    repeat split; auto.
Qed.

(** The reply of the sample discussion was narrated. *)
Lemma utterance_sample :
  (exists a', [SpeechCancel] = a' ++ [SpeechCancel])
  /\ no_marker (js "Which users drop off?")
  /\ js "en-US" = lang_of (js "Which users drop off?").
Proof.
  destruct (every_utterance_follows_a_cancel sample_engine) as (HP & _).
  destruct (HP sample_discussion [SpeechCancel] (js "Which users drop off?")
               (js "en-US") [] sample_discussion_reachable)
    as (H1 & H2 & H3 & _).
  - vm_compute. reflexivity.
  - split; [exact H1|]. split; [exact H2 | exact H3].
Defined.

(** X10.  Narration follows the toggle.  In both variants, while
    auto-speak is off no step calls the speech synthesis, except a press
    on a message's speak button or on the stop button.  While it is on,
    each reply that is a string is cancelled-and-spoken once when it
    arrives, and the simple client also speaks the user's own text when
    it is sent. *)
Theorem narration_follows_toggle (E : engine) :
  (forall (w : Phase.world) (e : Phase.event) (w' : Phase.world),
      Phase.step E w e = Some w' ->
      Phase.autoSpeak (Phase.st w) = false ->
      (forall i, e <> Phase.click_speakBtn i) ->
      e <> Phase.click_stopSpeechBtn ->
      Phase.speech w' = Phase.speech w)
  /\ (forall (w : Simple.world) (e : Simple.event) (w' : Simple.world),
         Simple.step E w e = Some w' ->
         Simple.autoSpeak (Simple.st w) = false ->
         (forall i, e <> Simple.click_speakBtn i) ->
         e <> Simple.click_stopSpeechBtn ->
         Simple.speech w' = Simple.speech w)
  /\ (forall (w : Phase.world) i k o text w',
         nth_error (Phase.pending w) i = Some k ->
         Phase.step E w (Phase.settle i o) = Some w' ->
         fetchGroqCompletion_result o = Normal (VStr text) ->
         Phase.autoSpeak (Phase.st w) = true ->
         Phase.speech w'
         = Phase.speech w
           ++ [SpeechCancel;
               SpeechSpeak (replace_markdown (replace_think text))
                 (lang_of (replace_markdown (replace_think text)))])
  /\ (forall (w : Simple.world) o text w',
         Simple.step E w (Simple.settle o) = Some w' ->
         fetchGroqCompletion_result o = Normal (VStr text) ->
         Simple.autoSpeak (Simple.st w) = true ->
         Simple.speech w'
         = Simple.speech w
           ++ [SpeechCancel;
               SpeechSpeak (replace_markdown text)
                 (lang_of (replace_markdown text))])
  /\ (forall (w : Simple.world) (e : Simple.event) (w' : Simple.world),
         Simple.step E w e = Some w' ->
         SimpleEffect.accepted w e = true ->
         Simple.autoSpeak (Simple.st w) = true ->
         Simple.speech w'
         = Simple.speech w
           ++ [SpeechCancel;
               SpeechSpeak (replace_markdown (trim (Simple.userInput w)))
                 (lang_of (replace_markdown (trim (Simple.userInput w))))]).
Proof.
  split; [|split; [|split; [|split]]].
  - intros w e w' H Ha H1 H2.
    destruct (phase_step_speech E w e w' H) as (d & -> & _ & Hd).
    rewrite (Hd Ha H1 H2), app_nil_r. reflexivity.
  - intros w e w' H Ha H1 H2.
    destruct (simple_step_speech E w e w' H) as (d & -> & _ & Hd).
    rewrite (Hd Ha H1 H2), app_nil_r. reflexivity.
  - intros w i k o text w' Hk H Ho Ha. cbn in H. rewrite Hk in H.
    injection H as <-.
    pose proof (phase_resume_reply E k o (VStr text)
                  (Phase.set_pending (remove_nth i (Phase.pending w)) w) Ho)
      as R.
    cbn [Phase.st Phase.set_pending Phase.speech replace_receiver] in R.
    rewrite Ha in R. destruct R as [_ R]. exact R.
  - intros w o text w' H Ho Ha. cbn in H.
    destruct (Simple.pending w) as [|n]; [discriminate|].
    injection H as <-.
    pose proof (simple_resume_reply E o (VStr text) (Simple.set_pending n w) Ho)
      as R.
    cbn [Simple.st Simple.set_pending Simple.speech replace_receiver] in R.
    rewrite Ha in R. destruct R as [_ R]. exact R.
  - intros w e w' H A Ha.
    destruct (simple_accepted_guards w e A) as [T K].
    apply is_empty_false in T, K.
    assert (w' = run_handler Simple.handleSend w) as ->.
    { unfold SimpleEffect.accepted in A.
      destruct e; try discriminate; cbn in H; congruence. }
    destruct (simple_send_turn w T K) as (_ & _ & _ & _ & _ & _ & _ & _ & S9).
    rewrite S9. unfold prompt_speech. rewrite Ha. reflexivity.
Qed.

(** The sample discussion with narration switched off: a reply arrives
    in silence. *)
Lemma narration_toggle_sample :
  option_map Phase.speech
    (Phase.run sample_engine sample_discussion
       [Phase.change_autoSpeakToggle false;
        Phase.input_userInput (js "hello"); Phase.click_sendBtn;
        Phase.settle 0 (reply (js "Hi."))])
  = Some (Phase.speech sample_discussion).
Proof.
  destruct (narration_follows_toggle sample_engine) as (HP & _).
  destruct (Phase.run sample_engine sample_discussion
              [Phase.change_autoSpeakToggle false;
               Phase.input_userInput (js "hello"); Phase.click_sendBtn])
    as [w3|] eqn:H3; [|vm_compute in H3; discriminate].
  destruct (Phase.step sample_engine w3 (Phase.settle 0 (reply (js "Hi."))))
    as [w4|] eqn:H4.
  - assert (Phase.speech w4 = Phase.speech w3) as Hs.
    { apply (HP w3 (Phase.settle 0 (reply (js "Hi."))) w4 H4).
      - vm_compute in H3. injection H3 as <-. reflexivity.
      - discriminate.
      - discriminate. }
    vm_compute in H3. injection H3 as <-.
    transitivity (Some (Phase.speech w4)).
    + vm_compute in H4. injection H4 as <-. vm_compute. reflexivity.
    + rewrite Hs. vm_compute. reflexivity.
  - vm_compute in H3. injection H3 as <-. vm_compute in H4. discriminate.
Defined.

(** ** Turns that overlap *)

Lemma nth_error_below {A} (l : list A) i :
  i < length l -> exists x, nth_error l i = Some x.
Proof.
  intros H. destruct (nth_error l i) as [x|] eqn:Hx; [exists x; reflexivity|].
  apply nth_error_None in Hx. lia.
Qed.

(** X11.  Nothing stops a second send while a request is out.  In the
    phase variant, in the discussion with a key set, sending [a] and then
    [b] before any reply arrives issues two requests: the first carries
    the history followed by [a], the second the history followed by [a]
    and [b], two user messages in a row.  When the two replies arrive, in
    whichever order, each is appended at the end as it arrives, so the
    history ends with the two user messages followed by the two replies;
    no further request is made. *)
Theorem overlapping_turns_share_history
  (E : engine) (w : Phase.world) (a b : jsstring) (i j : nat)
  (o1 o2 : fetch_outcome) (v1 v2 : jsval) :
  Phase.phase_ (Phase.st w) <> Phase.TOPIC_SETTING ->
  Phase.apiKey (Phase.st w) <> [] ->
  trim a <> [] ->
  trim b <> [] ->
  i < length (Phase.pending w) + 2 ->
  j < length (Phase.pending w) + 1 ->
  fetchGroqCompletion_result o1 = Normal v1 ->
  fetchGroqCompletion_result o2 = Normal v2 ->
  exists w4 w6,
    Phase.run E w [Phase.input_userInput a; Phase.click_sendBtn;
                   Phase.input_userInput b; Phase.click_sendBtn] = Some w4
    /\ Phase.run E w4 [Phase.settle i o1; Phase.settle j o2] = Some w6
    /\ map (fun c => req_messages (call_body c)) (Phase.fetches w4)
       = map (fun c => req_messages (call_body c)) (Phase.fetches w)
         ++ [system_msg (Phase.systemContent (Phase.topic (Phase.st w)))
               :: Phase.history (Phase.st w) ++ [user_msg (trim a)];
             system_msg (Phase.systemContent (Phase.topic (Phase.st w)))
               :: Phase.history (Phase.st w)
                  ++ [user_msg (trim a); user_msg (trim b)]]
    /\ Phase.history (Phase.st w6)
       = Phase.history (Phase.st w)
         ++ [user_msg (trim a); user_msg (trim b);
             assistant_msg v1; assistant_msg v2]
    /\ Phase.fetches w6 = Phase.fetches w4
    /\ length (Phase.pending w6) = length (Phase.pending w).
Proof.
  intros P K Ta Tb Hi Hj Ho1 Ho2.
  apply is_empty_false in K, Ta, Tb.
  (* the first send *)
  pose proof (phase_send_turn (Phase.set_userInput a w) Ta K P) as S.
  cbv zeta in S. cbn [Phase.userInput Phase.set_userInput] in S.
  set (w2 := run_handler Phase.handleSend (Phase.set_userInput a w)) in *.
  destruct S as (S1 & _ & _ & _ & _ & _ & _ & S8 & S9 & _).
  cbn [Phase.st Phase.set_userInput Phase.fetches Phase.pending] in S1, S8, S9.
  (* the second send *)
  assert (Phase.phase_ (Phase.st (Phase.set_userInput b w2))
          <> Phase.TOPIC_SETTING) as P2.
  { cbn [Phase.st Phase.set_userInput]. rewrite S1. exact P. }
  assert (is_empty (Phase.apiKey (Phase.st (Phase.set_userInput b w2)))
          = false) as K2.
  { cbn [Phase.st Phase.set_userInput]. rewrite S1. exact K. }
  pose proof (phase_send_turn (Phase.set_userInput b w2) Tb K2 P2) as S'.
  cbv zeta in S'. cbn [Phase.userInput Phase.set_userInput] in S'.
  set (w4 := run_handler Phase.handleSend (Phase.set_userInput b w2)) in *.
  destruct S' as (T1 & _ & _ & _ & _ & _ & _ & T8 & T9 & _).
  cbn [Phase.st Phase.set_userInput Phase.fetches Phase.pending] in T1, T8, T9.
  (* the first reply to arrive *)
  assert (length (Phase.pending w4) = length (Phase.pending w) + 2) as L4.
  { rewrite T9, S9, !length_app. cbn. lia. }
  destruct (nth_error_below (Phase.pending w4) i) as [k1 Hk1]; [lia|].
  set (w5 := run_handler (Phase.resume E k1 o1)
               (Phase.set_pending (remove_nth i (Phase.pending w4)) w4)).
  pose proof (phase_resume_success E k1 o1 v1
                (Phase.set_pending (remove_nth i (Phase.pending w4)) w4) Ho1)
    as R.
  cbv zeta in R. fold w5 in R.
  destruct R as (R1 & _ & _ & _ & _ & _ & _ & R8 & R9).
  cbn [Phase.st Phase.set_pending Phase.fetches Phase.pending] in R1, R8, R9.
  assert (length (Phase.pending w5) = length (Phase.pending w) + 1) as L5.
  { rewrite R9, (length_remove_nth _ _ _ Hk1), L4. lia. }
  (* the second *)
  destruct (nth_error_below (Phase.pending w5) j) as [k2 Hk2]; [lia|].
  set (w6 := run_handler (Phase.resume E k2 o2)
               (Phase.set_pending (remove_nth j (Phase.pending w5)) w5)).
  pose proof (phase_resume_success E k2 o2 v2
                (Phase.set_pending (remove_nth j (Phase.pending w5)) w5) Ho2)
    as Q.
  cbv zeta in Q. fold w6 in Q.
  destruct Q as (Q1 & _ & _ & _ & _ & _ & _ & Q8 & Q9).
  cbn [Phase.st Phase.set_pending Phase.fetches Phase.pending] in Q1, Q8, Q9.
  exists w4, w6. split; [reflexivity|]. split.
  { cbn [Phase.run Phase.step]. rewrite Hk1. fold w5. rewrite Hk2.
    reflexivity. }
  split.
  { rewrite T8, S8, <- app_assoc, map_app. f_equal.
    cbn [map app Phase.fetchGroqCompletion_call call_body req_messages
         Phase.request_messages].
    rewrite T1, S1. cbn [Phase.topic Phase.history Phase.set_history].
    rewrite <- app_assoc. reflexivity. }
  split.
  { rewrite Q1, R1, T1, S1. cbn [Phase.history Phase.set_history].
    rewrite <- !app_assoc. reflexivity. }
  split.
  { rewrite Q8, R8. reflexivity. }
  rewrite Q9, (length_remove_nth _ _ _ Hk2), L5. lia.
Qed.

(** In the sample discussion, two questions are sent before the first
    is answered, and the answer to the second arrives first. *)
Lemma overlapping_turns_sample :
  option_map (fun w => Phase.history (Phase.st w))
    (Phase.run sample_engine sample_discussion
       [Phase.input_userInput (js "one"); Phase.click_sendBtn;
        Phase.input_userInput (js "two"); Phase.click_sendBtn;
        Phase.settle 1 (reply (js "second")); Phase.settle 0 (reply (js "first"))])
  = Some (Phase.history (Phase.st sample_discussion)
          ++ [user_msg (js "one"); user_msg (js "two");
              assistant_msg (VStr (js "second"));
              assistant_msg (VStr (js "first"))]).
Proof.
  destruct (overlapping_turns_share_history sample_engine sample_discussion
              (js "one") (js "two") 1 0
              (reply (js "second")) (reply (js "first"))
              (VStr (js "second")) (VStr (js "first")))
    as (w4 & w6 & H4 & H6 & _ & Hh & _).
  - vm_compute. discriminate.
  - vm_compute. discriminate.
  - vm_compute. discriminate.
  - vm_compute. discriminate.
  - vm_compute. lia.
  - vm_compute. lia.
  - vm_compute. reflexivity.
  - vm_compute. reflexivity.
  - assert (Phase.run sample_engine sample_discussion
              [Phase.input_userInput (js "one"); Phase.click_sendBtn;
               Phase.input_userInput (js "two"); Phase.click_sendBtn;
               Phase.settle 1 (reply (js "second"));
               Phase.settle 0 (reply (js "first"))]
            = Some w6) as Hrun.
    { vm_compute in H4. injection H4 as <-. rewrite <- H6.
      vm_compute. reflexivity. }
    rewrite Hrun. cbn [option_map]. rewrite Hh.
    vm_compute. reflexivity.
Defined.
